(** * Response normalisation of the Gemini / Document AI servers

    A shallow embedding of the request handlers of [server.js] and of its
    sibling versions: the cleaning of the model's raw text, [JSON.parse],
    the coercion of every value to a string, the projection onto
    [allowedKeys], the HTTP answer of the step, and the entity aggregation
    of the Document AI server.

    JavaScript strings are sequences of UTF-16 code units, objects are
    property lists in property order (own properties only), and the
    engine's double-precision numbers and the wording of its syntax errors
    are parameters of the development.  The three versions of the Gemini
    server share the [try] block ([parse_flat]); they differ in the
    cleaning of the text and in the projection on [allowedKeys]. *)

From Stdlib Require Import List NArith ZArith Bool Arith Lia String Ascii.
Import ListNotations.

Local Open Scope N_scope.
Local Open Scope list_scope.
Local Set Warnings "-register-all".

(* ================================================================== *)
(** ** JavaScript strings *)

(** A string value: its UTF-16 code units. *)
Definition jsstring := list N.

(** Code points of a UTF-8 byte sequence (the encoding of this file), so
    that the literals of the source can be written as they are. *)
Fixpoint utf8_points (bs : list N) : list N :=
  match bs with
  | [] => []
  | b0 :: r0 =>
    if b0 <? 128 then b0 :: utf8_points r0
    else if b0 <? 224 then
      match r0 with
      | b1 :: r1 =>
        (N.land b0 31 * 64 + N.land b1 63) :: utf8_points r1
      | [] => []
      end
    else if b0 <? 240 then
      match r0 with
      | b1 :: b2 :: r2 =>
        (N.land b0 15 * 4096 + N.land b1 63 * 64 + N.land b2 63)
          :: utf8_points r2
      | _ => []
      end
    else
      match r0 with
      | b1 :: b2 :: b3 :: r3 =>
        (N.land b0 7 * 262144 + N.land b1 63 * 4096
         + N.land b2 63 * 64 + N.land b3 63) :: utf8_points r3
      | _ => []
      end
  end.

(** UTF-16 code units of a code point. *)
Definition utf16_units (cp : N) : list N :=
  if cp <? 65536 then [cp]
  else [55296 + (cp - 65536) / 1024; 56320 + (cp - 65536) mod 1024].

Definition string_bytes (s : string) : list N :=
  map N_of_ascii (list_ascii_of_string s).

(** The JavaScript string denoted by a literal of the source. *)
Definition js (s : string) : jsstring :=
  flat_map utf16_units (utf8_points (string_bytes s)).

Definition BACKTICK : N := 96.
Definition NEWLINE : N := 10.
Definition QUOTE : N := 34.
Definition BACKSLASH : N := 92.

Fixpoint jsstring_eqb (a b : jsstring) : bool :=
  match a, b with
  | [], [] => true
  | x :: a', y :: b' => (x =? y) && jsstring_eqb a' b'
  | _, _ => false
  end.

(** [s.startsWith(p)]. *)
Fixpoint starts_with (p s : jsstring) : bool :=
  match p, s with
  | [], _ => true
  | x :: p', y :: s' => (y =? x) && starts_with p' s'
  | _ :: _, [] => false
  end.

(** WhiteSpace and LineTerminator code units, the ones
    [String.prototype.trim] removes. *)
Definition is_js_space (c : N) : bool :=
  (c =? 9) || (c =? 10) || (c =? 11) || (c =? 12) || (c =? 13)
  || (c =? 32) || (c =? 160) || (c =? 5760)
  || ((8192 <=? c) && (c <=? 8202))
  || (c =? 8232) || (c =? 8233) || (c =? 8239) || (c =? 8287)
  || (c =? 12288) || (c =? 65279).

Fixpoint trim_start (s : jsstring) : jsstring :=
  match s with
  | [] => []
  | c :: r => if is_js_space c then trim_start r else s
  end.

Definition trim_end (s : jsstring) : jsstring :=
  rev (trim_start (rev s)).

(** [s.trim()]. *)
Definition trim (s : jsstring) : jsstring := trim_end (trim_start s).

(* ------------------------------------------------------------------ *)
(** *** [rawText.replace(/```json\n?|\n?```/g, '')] *)

(** Length of the match of the pattern at the head of [s], 0 when there is
    none.  The first alternative is tried first, and [\n?] is greedy. *)
Definition fence_match_length (s : jsstring) : nat :=
  if starts_with (js "```json") s then
    match skipn 7 s with
    | c :: _ => if c =? NEWLINE then 8%nat else 7%nat
    | [] => 7%nat
    end
  else if starts_with (NEWLINE :: js "```") s then 4%nat
  else if starts_with (js "```") s then 3%nat
  else 0%nat.

(** The global replacement by the empty string: the text is scanned from
    the left, a match is dropped and the scan resumes after it ([skip]
    counts the code units of the current match still to drop). *)
Fixpoint replace_fences_from (skip : nat) (s : jsstring) : jsstring :=
  match s with
  | [] => []
  | c :: r =>
    match skip with
    | S k => replace_fences_from k r
    | O =>
      match fence_match_length s with
      | O => c :: replace_fences_from 0 r
      | S k => replace_fences_from k r
      end
    end
  end.

Definition replace_fences (s : jsstring) : jsstring :=
  replace_fences_from 0 s.

(** The cleaning line of the handlers:
    [rawText.replace(/```json\n?|\n?```/g, '').trim()]. *)
Definition clean (rawText : jsstring) : jsstring :=
  trim (replace_fences rawText).

(** [no_fence run s]: [s] has no three backticks in a row, when [run]
    backticks come just before it. *)
Fixpoint no_fence (run : nat) (s : jsstring) : bool :=
  match s with
  | [] => true
  | c :: r =>
    if c =? BACKTICK then
      match run with
      | S (S _) => false
      | _ => no_fence (S run) r
      end
    else no_fence 0 r
  end.

(** [s] contains a fence marker. *)
Definition has_fence (s : jsstring) : Prop :=
  exists a b, s = a ++ js "```" ++ b.

(** The canonical code block around a text, as the prompt of [server.js]
    asks the model to write it. *)
Definition fenced (t : jsstring) : jsstring :=
  js "```json" ++ NEWLINE :: t ++ NEWLINE :: js "```".

(** A code block whose opening fence carries the language tag [tag]. *)
Definition fenced_with (tag t : jsstring) : jsstring :=
  js "```" ++ tag ++ NEWLINE :: t ++ NEWLINE :: js "```".

(** A literal of the source that contains double quotes, written with
    single quotes in their place. *)
Definition jsq (s : string) : jsstring :=
  map (fun c => if c =? 39 then QUOTE else c) (js s).

(* ================================================================== *)
(** ** Objects: own properties in property order *)

Section Objects.
Variable V : Type.

Definition jsobj := list (jsstring * V).

Fixpoint digits_value (acc : N) (s : jsstring) : option N :=
  match s with
  | [] => Some acc
  | c :: r =>
    if (48 <=? c) && (c <=? 57) then digits_value (acc * 10 + (c - 48)) r
    else None
  end.

(** A key that is a canonical array index (0 .. 2^32-2): such keys come
    first in property order, in ascending numeric order. *)
Definition array_index (k : jsstring) : option N :=
  match k with
  | [] => None
  | c :: r =>
    if c =? 48 then match r with [] => Some 0 | _ :: _ => None end
    else match digits_value 0 k with
         | Some n => if n <? 4294967295 then Some n else None
         | None => None
         end
  end.

(** The member names of [Object.prototype].  On every other name a read
    [o[k]] and a write [o[k] = v] concern the own properties of [o], which
    is how objects are read and written here; no key of [allowedKeys] is
    such a name (see [allowedKeys_own]). *)
Definition Object_prototype_names : list jsstring :=
  map js
    ["constructor"; "__defineGetter__"; "__defineSetter__"; "hasOwnProperty";
     "__lookupGetter__"; "__lookupSetter__"; "isPrototypeOf";
     "propertyIsEnumerable"; "toString"; "valueOf"; "__proto__";
     "toLocaleString"]%string.

(** [o[k]] on own properties; [None] is [undefined]. *)
Fixpoint obj_get (o : jsobj) (k : jsstring) : option V :=
  match o with
  | [] => None
  | (k', v) :: r => if jsstring_eqb k' k then Some v else obj_get r k
  end.

Definition obj_has (o : jsobj) (k : jsstring) : bool :=
  match obj_get o k with Some _ => true | None => false end.

Fixpoint obj_replace (o : jsobj) (k : jsstring) (v : V) : jsobj :=
  match o with
  | [] => []
  | (k', v') :: r =>
    if jsstring_eqb k' k then (k', v) :: r
    else (k', v') :: obj_replace r k v
  end.

Fixpoint obj_insert_index (i : N) (k : jsstring) (v : V) (o : jsobj)
  : jsobj :=
  match o with
  | [] => [(k, v)]
  | (k', v') :: r =>
    match array_index k' with
    | Some j =>
      if j <? i then (k', v') :: obj_insert_index i k v r
      else (k, v) :: o
    | None => (k, v) :: o
    end
  end.

(** [o[k] = v] / [{ ...o, [k]: v }]: an existing property keeps its
    place, a new one is created at its place in property order. *)
Definition obj_set (o : jsobj) (k : jsstring) (v : V) : jsobj :=
  if obj_has o k then obj_replace o k v
  else match array_index k with
       | Some i => obj_insert_index i k v o
       | None => o ++ [(k, v)]
       end.

(** [Object.keys(o)]. *)
Definition obj_keys (o : jsobj) : list jsstring := map fst o.
End Objects.

Arguments obj_get {V} o k.
Arguments obj_has {V} o k.
Arguments obj_replace {V} o k v.
Arguments obj_insert_index {V} i k v o.
Arguments obj_set {V} o k v.
Arguments obj_keys {V} o.

(* ================================================================== *)
(** ** The Document AI server: [/process-document] *)

(** An entity of the processed document; [mentionText] may be missing. *)
Record entity : Type := {
  type : jsstring;
  mentionText : option jsstring
}.

(** A value that [extractedData.entities[key]] finds on the prototype chain
    of the object and that is neither a string nor an array: a built-in
    function (as [Object.prototype.constructor] or [Array.prototype.push]),
    the object [Object.prototype] itself, or the [length] of an array. *)
Inductive inherited : Type :=
| BuiltinFunction
| ObjectPrototype
| ArrayLength (n : nat).

(** A value of [extractedData.entities]: a mention text, the array made for
    a repeated type, or the array made around an inherited value, which is
    its first element. *)
Inductive entity_value : Type :=
| Text (s : jsstring)
| Texts (items : list jsstring)
| Wrapped (first : inherited) (rest : list jsstring).

(** [extractedData.entities], created as [{}]: its own properties in
    property order, and its prototype once that is not [Object.prototype]
    any more (an assignment to [entities['__proto__']] goes to the setter
    of [Object.prototype], which makes the assigned array the prototype). *)
Record entities_object : Type := {
  own : jsobj entity_value;
  prototype : option entity_value
}.

Definition no_entities : entities_object :=
  {| own := []; prototype := None |}.

(** The string-keyed member names of [Array.prototype] (ECMAScript 2023)
    other than [length]; each of them is a function.  They are read only
    once an array is the prototype of [entities]. *)
Definition Array_prototype_names : list jsstring :=
  map js
    ["constructor"; "at"; "concat"; "copyWithin"; "fill"; "find";
     "findIndex"; "findLast"; "findLastIndex"; "lastIndexOf"; "pop"; "push";
     "reverse"; "shift"; "unshift"; "slice"; "sort"; "splice"; "includes";
     "indexOf"; "join"; "keys"; "entries"; "values"; "forEach"; "filter";
     "flat"; "flatMap"; "map"; "every"; "some"; "reduce"; "reduceRight";
     "toReversed"; "toSorted"; "toSpliced"; "with"; "toLocaleString";
     "toString"]%string.

Definition is_name (names : list jsstring) (key : jsstring) : bool :=
  existsb (jsstring_eqb key) names.

(** What a read [entities[key]] gives: [undefined], a string or an array,
    or an inherited value of another kind. *)
Inductive looked_up : Type :=
| Missing
| Found (v : entity_value)
| Other (v : inherited).

(** [a[i]] and [a.length] for an array [a]. *)
Definition element (a : entity_value) (i : nat) : looked_up :=
  match a with
  | Text _ => Missing
  | Texts items =>
    match nth_error items i with
    | Some s => Found (Text s)
    | None => Missing
    end
  | Wrapped first rest =>
    match i with
    | O => Other first
    | S j =>
      match nth_error rest j with
      | Some s => Found (Text s)
      | None => Missing
      end
    end
  end.

Definition array_length (a : entity_value) : nat :=
  match a with
  | Text _ => O
  | Texts items => List.length items
  | Wrapped _ rest => S (List.length rest)
  end.

(** [entities[key]]: an own property, or else what the prototype chain
    has for the name.  The chain is [Object.prototype], whose members are
    functions and the accessor [__proto__]; or, once an array is the
    prototype, that array, [Array.prototype] and [Object.prototype]. *)
Definition entities_get (o : entities_object) (key : jsstring) : looked_up :=
  match obj_get (own o) key with
  | Some v => Found v
  | None =>
    if jsstring_eqb key (js "__proto__") then
      match prototype o with
      | Some a => Found a
      | None => Other ObjectPrototype
      end
    else
      let member :=
        if is_name Object_prototype_names key then Other BuiltinFunction
        else Missing in
      match prototype o with
      | None => member
      | Some a =>
        match array_index key with
        | Some i =>
          match element a (N.to_nat i) with
          | Missing => member
          | found => found
          end
        | None =>
          if jsstring_eqb key (js "length")
          then Other (ArrayLength (array_length a))
          else if is_name Array_prototype_names key
               then Other BuiltinFunction
               else member
        end
      end
  end.

(** Truthiness of [extractedData.entities[key]]: [undefined], the empty
    string and zero are falsy; a non-empty string, an array, a function
    and an object are truthy. *)
Definition truthy (v : looked_up) : bool :=
  match v with
  | Missing => false
  | Found (Text []) => false
  | Found _ => true
  | Other (ArrayLength O) => false
  | Other _ => true
  end.

(** [entities[key] = v].  The name [__proto__] is the accessor of
    [Object.prototype]: its setter makes an array the prototype of
    [entities] and ignores a string.  On any other name the assignment
    writes an own property, creating it when the name is only inherited. *)
Definition entities_set (o : entities_object) (key : jsstring)
  (v : entity_value) : entities_object :=
  if jsstring_eqb key (js "__proto__") then
    match v with
    | Text _ => o
    | _ => {| own := own o; prototype := Some v |}
    end
  else {| own := obj_set (own o) key v; prototype := prototype o |}.

(** [a.push(value)]. *)
Definition push (a : entity_value) (value : jsstring) : entity_value :=
  match a with
  | Text s => Text s
  | Texts items => Texts (items ++ [value])
  | Wrapped first rest => Wrapped first (rest ++ [value])
  end.

(** [entities[key].push(value)]: the array is an own property, or the
    prototype when the name is [__proto__]. *)
Definition entities_push (o : entities_object) (key : jsstring)
  (value : jsstring) : entities_object :=
  match obj_get (own o) key with
  | Some a => {| own := obj_set (own o) key (push a value);
                 prototype := prototype o |}
  | None =>
    if jsstring_eqb key (js "__proto__") then
      {| own := own o;
         prototype := match prototype o with
                      | Some a => Some (push a value)
                      | None => None
                      end |}
    else o
  end.

(** [entity.mentionText || '']. *)
Definition mention_or_empty (e : entity) : jsstring :=
  match mentionText e with
  | Some s => s
  | None => []
  end.

(** One iteration of the loop over [document.entities]. *)
Definition add_entity (entities : entities_object) (e : entity)
  : entities_object :=
  let key := type e in
  let value := mention_or_empty e in
  if truthy (entities_get entities key) then
    let entities1 :=
      match entities_get entities key with
      | Found (Text s) => entities_set entities key (Texts [s])
      | Other first => entities_set entities key (Wrapped first [])
      | _ => entities
      end in
    entities_push entities1 key value
  else entities_set entities key (Text value).

Record document : Type := {
  text : option jsstring;
  entities : option (list entity)
}.

Record extracted : Type := {
  extracted_text : jsstring;
  extracted_entities : jsobj entity_value
}.

(** The body that [/process-document] answers with status 200. *)
Definition process_document (d : document) : extracted :=
  {| extracted_text := match text d with Some s => s | None => [] end;
     extracted_entities :=
       match entities d with
       | Some es => own (fold_left add_entity es no_entities)
       | None => []
       end |}.

(** The mention texts of the entities of type [key], in document order. *)
Definition mentions_of (key : jsstring) (es : list entity) : list jsstring :=
  map mention_or_empty (filter (fun e => jsstring_eqb (type e) key) es).

(** The aggregation as the comment of the loop describes it: the text of a
    type that occurs once, the array of the texts of a type that occurs
    several times. *)
Definition aggregated (key : jsstring) (es : list entity)
  : option entity_value :=
  match mentions_of key es with
  | [] => None
  | [s] => Some (Text s)
  | items => Some (Texts items)
  end.

(** The mentions that the loop keeps for a type: the empty texts that come
    before the first non-empty one are overwritten. *)
Fixpoint drop_empty (ms : list jsstring) : list jsstring :=
  match ms with
  | [] :: rest => drop_empty rest
  | _ => ms
  end.

(** The value that the loop leaves for a type whose mention texts are
    [ms], in document order. *)
Definition settled (ms : list jsstring) : option entity_value :=
  match ms with
  | [] => None
  | _ :: _ =>
    match drop_empty ms with
    | [] => Some (Text [])
    | [s] => Some (Text s)
    | items => Some (Texts items)
    end
  end.

(** The value that the loop leaves for a type whose mention texts are
    [ms], when no entity of the document has the type [__proto__]: for a
    type that names a member of [Object.prototype] every text is kept, in
    an array behind the inherited function. *)
Definition kept (key : jsstring) (ms : list jsstring)
  : option entity_value :=
  if is_name Object_prototype_names key then
    match ms with
    | [] => None
    | _ :: _ => Some (Wrapped BuiltinFunction ms)
    end
  else settled ms.

(** The value stored by one iteration for a type, from the own property
    that the type had before. *)
Definition stored (key : jsstring) (before : option entity_value)
  (value : jsstring) : entity_value :=
  match before with
  | Some (Text []) => Text value
  | Some (Text (c :: s)) => Texts [c :: s; value]
  | Some (Texts items) => Texts (items ++ [value])
  | Some (Wrapped first rest) => Wrapped first (rest ++ [value])
  | None =>
    if is_name Object_prototype_names key
    then Wrapped BuiltinFunction [value]
    else Text value
  end.

(** [subseq a b]: [a] is [b] with some code units removed. *)
Inductive subseq : jsstring -> jsstring -> Prop :=
| subseq_nil : subseq [] []
| subseq_keep (c : N) (a b : jsstring) : subseq a b -> subseq (c :: a) (c :: b)
| subseq_drop (c : N) (a b : jsstring) : subseq a b -> subseq a (c :: b).

(** The keys of a list are pairwise different. *)
Fixpoint distinct_keys (l : list jsstring) : bool :=
  match l with
  | [] => true
  | k :: rest => negb (existsb (jsstring_eqb k) rest) && distinct_keys rest
  end.

(** Result of a parsing function run with a bound on its recursion. *)
Inductive parsed (A : Type) : Type :=
| Parsed (a : A) (rest : jsstring)
| Malformed
| OutOfFuel.

Arguments Parsed {A} a rest.
Arguments Malformed {A}.
Arguments OutOfFuel {A}.

(** A runtime to evaluate the handlers on concrete texts: a number is kept
    as its literal, and the message of a [SyntaxError] names the first code
    unit of the text. *)
Definition literal_number : Type := jsstring.

Definition literal_parseNumber (lexeme : jsstring) : literal_number := lexeme.

Definition literal_numberToString (n : literal_number) : jsstring := n.

Definition literal_isFinite (n : literal_number) : bool := true.

Definition literal_syntaxErrorMessage (text : jsstring) : jsstring :=
  js "Unexpected token " ++ firstn 1 text.

(* ================================================================== *)
(** ** Values *)

Section Runtime.

(** The engine's numbers: the double denoted by a JSON number literal,
    [Number.prototype.toString], and [Number.isFinite] (a literal such as
    [1e999] denotes [Infinity]).  [syntaxErrorMessage] is the message of
    the [SyntaxError] that [JSON.parse] throws on a text. *)
Variable number : Type.
Variable parseNumber : jsstring -> number.
Variable numberToString : number -> jsstring.
Variable isFinite : number -> bool.
Variable syntaxErrorMessage : jsstring -> jsstring.

Inductive jsval : Type :=
| JUndefined
| JNull
| JBool (b : bool)
| JNum (n : number)
| JStr (s : jsstring)
| JArr (elements : list jsval)
| JObj (properties : list (jsstring * jsval)).

(** [typeof v]. *)
Definition typeof (v : jsval) : jsstring :=
  match v with
  | JUndefined => js "undefined"
  | JNull => js "object"
  | JBool _ => js "boolean"
  | JNum _ => js "number"
  | JStr _ => js "string"
  | JArr _ => js "object"
  | JObj _ => js "object"
  end.

(** [Array.isArray(v)]. *)
Definition Array_isArray (v : jsval) : bool :=
  match v with JArr _ => true | _ => false end.

(** [v === null] and [v !== undefined]. *)
Definition is_null (v : jsval) : bool :=
  match v with JNull => true | _ => false end.

Definition is_undefined (v : jsval) : bool :=
  match v with JUndefined => true | _ => false end.

Fixpoint join (sep : jsstring) (parts : list jsstring) : jsstring :=
  match parts with
  | [] => []
  | [p] => p
  | p :: rest => p ++ sep ++ join sep rest
  end.

(** [String(v)] for the values that the normalisation converts: a value
    that is neither an object nor an array, and a string.  On an object or
    an array it is the text of the conversion when the conversion does not
    throw ([ToString] is the conversion that can throw). *)
Fixpoint String_ (v : jsval) : jsstring :=
  match v with
  | JUndefined => js "undefined"
  | JNull => js "null"
  | JBool true => js "true"
  | JBool false => js "false"
  | JNum n => numberToString n
  | JStr s => s
  | JArr vs =>
    join (js ",")
      (map (fun e => match e with
                     | JUndefined | JNull => []
                     | _ => String_ e
                     end) vs)
  | JObj _ => js "[object Object]"
  end.

(* ------------------------------------------------------------------ *)
(** *** [JSON.stringify] *)

Definition hex_digit (d : N) : N :=
  if d <? 10 then 48 + d else 87 + d.

(** The escape [\uXXXX] of a code unit, in lower-case hexadecimal. *)
Definition unicode_escape (c : N) : jsstring :=
  [BACKSLASH; 117;
   hex_digit (c / 4096 mod 16); hex_digit (c / 256 mod 16);
   hex_digit (c / 16 mod 16); hex_digit (c mod 16)].

Definition is_high_surrogate (c : N) : bool :=
  (55296 <=? c) && (c <=? 56319).

Definition is_low_surrogate (c : N) : bool :=
  (56320 <=? c) && (c <=? 57343).

(** One code unit that is not the first half of a surrogate pair. *)
Definition quote_unit (c : N) : jsstring :=
  if c =? 8 then [BACKSLASH; 98]
  else if c =? 9 then [BACKSLASH; 116]
  else if c =? 10 then [BACKSLASH; 110]
  else if c =? 12 then [BACKSLASH; 102]
  else if c =? 13 then [BACKSLASH; 114]
  else if c =? QUOTE then [BACKSLASH; QUOTE]
  else if c =? BACKSLASH then [BACKSLASH; BACKSLASH]
  else if c <? 32 then unicode_escape c
  else if is_high_surrogate c || is_low_surrogate c then unicode_escape c
  else [c].

Fixpoint quote_units (s : jsstring) : jsstring :=
  match s with
  | [] => []
  | c :: r =>
    if is_high_surrogate c then
      match r with
      | d :: r' =>
        if is_low_surrogate d then c :: d :: quote_units r'
        else unicode_escape c ++ quote_units r
      | [] => unicode_escape c
      end
    else quote_unit c ++ quote_units r
  end.

(** QuoteJSONString. *)
Definition quote (s : jsstring) : jsstring :=
  QUOTE :: quote_units s ++ [QUOTE].

(** SerializeJSONProperty without indentation; [None] is [undefined]. *)
Fixpoint serialize (v : jsval) : option jsstring :=
  match v with
  | JUndefined => None
  | JNull => Some (js "null")
  | JBool true => Some (js "true")
  | JBool false => Some (js "false")
  | JNum n => Some (if isFinite n then numberToString n else js "null")
  | JStr s => Some (quote s)
  | JArr vs =>
    Some (js "[" ++
          join (js ",")
            (map (fun e => match serialize e with
                           | Some t => t
                           | None => js "null"
                           end) vs)
          ++ js "]")
  | JObj kvs =>
    Some (js "{" ++
          join (js ",")
            (flat_map (fun kv => match serialize (snd kv) with
                                 | Some t => [quote (fst kv) ++ js ":" ++ t]
                                 | None => []
                                 end) kvs)
          ++ js "}")
  end.

(** [JSON.stringify(v)] as a value. *)
Definition JSON_stringify (v : jsval) : jsval :=
  match serialize v with
  | Some t => JStr t
  | None => JUndefined
  end.

(* ------------------------------------------------------------------ *)
(** *** [JSON.parse] *)

Definition is_json_space (c : N) : bool :=
  (c =? 32) || (c =? 9) || (c =? 10) || (c =? 13).

Fixpoint skip_ws (s : jsstring) : jsstring :=
  match s with
  | [] => []
  | c :: r => if is_json_space c then skip_ws r else s
  end.

Definition is_digit (c : N) : bool := (48 <=? c) && (c <=? 57).

Definition hex_value (c : N) : option N :=
  if is_digit c then Some (c - 48)
  else if (97 <=? c) && (c <=? 102) then Some (c - 87)
  else if (65 <=? c) && (c <=? 70) then Some (c - 55)
  else None.

Definition hex4 (h1 h2 h3 h4 : N) : option N :=
  match hex_value h1, hex_value h2, hex_value h3, hex_value h4 with
  | Some a, Some b, Some c, Some d => Some (a * 4096 + b * 256 + c * 16 + d)
  | _, _, _, _ => None
  end.

(** The code unit denoted by a one-letter escape. *)
Definition escape_unit (e : N) : option N :=
  if e =? QUOTE then Some QUOTE
  else if e =? BACKSLASH then Some BACKSLASH
  else if e =? 47 then Some 47
  else if e =? 98 then Some 8
  else if e =? 102 then Some 12
  else if e =? 110 then Some 10
  else if e =? 114 then Some 13
  else if e =? 116 then Some 9
  else None.

Definition prepend (c : N) (p : option (jsstring * jsstring))
  : option (jsstring * jsstring) :=
  match p with
  | Some (str, rest) => Some (c :: str, rest)
  | None => None
  end.

(** A string literal after its opening quote: its value and the text
    after its closing quote. *)
Fixpoint parse_string_body (s : jsstring) : option (jsstring * jsstring) :=
  match s with
  | [] => None
  | c :: r =>
    if c =? QUOTE then Some ([], r)
    else if c =? BACKSLASH then
      match r with
      | [] => None
      | e :: r1 =>
        if e =? 117 then
          match r1 with
          | h1 :: h2 :: h3 :: h4 :: r2 =>
            match hex4 h1 h2 h3 h4 with
            | Some u => prepend u (parse_string_body r2)
            | None => None
            end
          | _ => None
          end
        else
          match escape_unit e with
          | Some u => prepend u (parse_string_body r1)
          | None => None
          end
      end
    else if c <? 32 then None
    else prepend c (parse_string_body r)
  end.

Fixpoint span_digits (s : jsstring) : jsstring * jsstring :=
  match s with
  | [] => ([], [])
  | c :: r =>
    if is_digit c then let (ds, rest) := span_digits r in (c :: ds, rest)
    else ([], s)
  end.

(** Optional fraction [. digits+]. *)
Definition lex_fraction (s : jsstring) : option (jsstring * jsstring) :=
  match s with
  | c :: r =>
    if c =? 46 then
      match span_digits r with
      | ([], _) => None
      | (ds, rest) => Some (c :: ds, rest)
      end
    else Some ([], s)
  | [] => Some ([], s)
  end.

(** Optional exponent [(e|E) (+|-)? digits+]. *)
Definition lex_exponent (s : jsstring) : option (jsstring * jsstring) :=
  match s with
  | c :: r =>
    if (c =? 101) || (c =? 69) then
      let (sign, r1) :=
        match r with
        | d :: r' => if (d =? 43) || (d =? 45) then ([d], r') else ([], r)
        | [] => ([], r)
        end in
      match span_digits r1 with
      | ([], _) => None
      | (ds, rest) => Some (c :: sign ++ ds, rest)
      end
    else Some ([], s)
  | [] => Some ([], s)
  end.

(** The integer part: [0], or a digit sequence without leading zero. *)
Definition lex_integer (s : jsstring) : option (jsstring * jsstring) :=
  match s with
  | [] => None
  | c :: r =>
    if c =? 48 then Some ([c], r)
    else if is_digit c then
      let (ds, rest) := span_digits r in Some (c :: ds, rest)
    else None
  end.

Definition lex_unsigned (s : jsstring) : option (jsstring * jsstring) :=
  match lex_integer s with
  | None => None
  | Some (i, r1) =>
    match lex_fraction r1 with
    | None => None
    | Some (f, r2) =>
      match lex_exponent r2 with
      | None => None
      | Some (e, r3) => Some (i ++ f ++ e, r3)
      end
    end
  end.

(** A number literal: an optional minus sign, the integer part, then the
    optional fraction and exponent. *)
Definition lex_number (s : jsstring) : option (jsstring * jsstring) :=
  match s with
  | [] => None
  | c :: r =>
    if c =? 45 then
      match lex_unsigned r with
      | Some (l, rest) => Some (c :: l, rest)
      | None => None
      end
    else lex_unsigned s
  end.

(** The JSON grammar, by recursive descent.  [parse_value] reads a value
    after optional white space; [parse_members] reads the members of an
    object from the opening quote of a key, creating the properties as
    [JSON.parse] does (a repeated key keeps its place and takes the last
    value); [parse_elements] reads the elements of an array. *)
Fixpoint parse_value (fuel : nat) (s : jsstring) {struct fuel}
  : parsed jsval :=
  match fuel with
  | O => OutOfFuel
  | S fuel' =>
    match skip_ws s with
    | [] => Malformed
    | c :: r =>
      if c =? 123 then
        match skip_ws r with
        | d :: r' =>
          if d =? 125 then Parsed (JObj []) r'
          else parse_members fuel' [] (d :: r')
        | [] => Malformed
        end
      else if c =? 91 then
        match skip_ws r with
        | d :: r' =>
          if d =? 93 then Parsed (JArr []) r'
          else parse_elements fuel' [] (d :: r')
        | [] => Malformed
        end
      else if c =? QUOTE then
        match parse_string_body r with
        | Some (str, r') => Parsed (JStr str) r'
        | None => Malformed
        end
      else if starts_with (js "true") (c :: r) then
        Parsed (JBool true) (skipn 4 (c :: r))
      else if starts_with (js "false") (c :: r) then
        Parsed (JBool false) (skipn 5 (c :: r))
      else if starts_with (js "null") (c :: r) then
        Parsed JNull (skipn 4 (c :: r))
      else
        match lex_number (c :: r) with
        | Some (lexeme, r') => Parsed (JNum (parseNumber lexeme)) r'
        | None => Malformed
        end
    end
  end
with parse_members (fuel : nat) (acc : list (jsstring * jsval))
       (s : jsstring) {struct fuel} : parsed jsval :=
  match fuel with
  | O => OutOfFuel
  | S fuel' =>
    match s with
    | [] => Malformed
    | c :: r =>
      if c =? QUOTE then
        match parse_string_body r with
        | None => Malformed
        | Some (k, r1) =>
          match skip_ws r1 with
          | [] => Malformed
          | d :: r2 =>
            if d =? 58 then
              match parse_value fuel' r2 with
              | Parsed v r3 =>
                match skip_ws r3 with
                | [] => Malformed
                | e :: r4 =>
                  if e =? 44 then
                    parse_members fuel' (obj_set acc k v) (skip_ws r4)
                  else if e =? 125 then Parsed (JObj (obj_set acc k v)) r4
                  else Malformed
                end
              | other => other
              end
            else Malformed
          end
        end
      else Malformed
    end
  end
with parse_elements (fuel : nat) (acc : list jsval) (s : jsstring)
       {struct fuel} : parsed jsval :=
  match fuel with
  | O => OutOfFuel
  | S fuel' =>
    match parse_value fuel' s with
    | Parsed v r1 =>
      match skip_ws r1 with
      | [] => Malformed
      | e :: r2 =>
        if e =? 44 then parse_elements fuel' (acc ++ [v]) r2
        else if e =? 93 then Parsed (JArr (acc ++ [v])) r2
        else Malformed
      end
    | other => other
    end
  end.

(** [JSON.parse(text)]: the value, or the message of the [SyntaxError].
    The bound is never reached (see [JSON_parse_fuel]). *)
Definition JSON_parse (text : jsstring) : jsstring + jsval :=
  match parse_value (2 * List.length text + 1) text with
  | Parsed v rest =>
    match skip_ws rest with
    | [] => inr v
    | _ :: _ => inl (syntaxErrorMessage text)
    end
  | _ => inl (syntaxErrorMessage text)
  end.

(** What holds of a parsed value at its top: it is not [undefined], and
    the keys of an object are distinct. *)
Definition parsed_shape (v : jsval) : Prop :=
  match v with
  | JUndefined => False
  | JObj o => NoDup (obj_keys o)
  | _ => True
  end.

(* ------------------------------------------------------------------ *)
(** *** The normalisation of the model's answer *)

(** The test of the guard
    [typeof v !== 'object' || Array.isArray(v) || v === null]. *)
Definition not_flat_object (v : jsval) : bool :=
  negb (jsstring_eqb (typeof v) (js "object")) || Array_isArray v
  || is_null v.

(** Objects and arrays, the values whose [typeof] is ['object'] and that
    are not [null]. *)
Definition is_structured (v : jsval) : bool :=
  match v with
  | JObj _ | JArr _ => true
  | _ => false
  end.

(** [Object.entries(v)], reached with plain objects only. *)
Definition Object_entries (v : jsval) : list (jsstring * jsval) :=
  match v with
  | JObj kvs => kvs
  | _ => []
  end.

(** The callback of the [reduce]: [{ ...acc, [key]: ... }]. *)
Definition coerce_entry (acc : list (jsstring * jsval))
  (entry : jsstring * jsval) : list (jsstring * jsval) :=
  let (key, value) := entry in
  if jsstring_eqb (typeof value) (js "object") && negb (is_null value)
  then obj_set acc key (JSON_stringify value)
  else obj_set acc key (JStr (String_ value)).

Definition coerce_values (v : jsval) : list (jsstring * jsval) :=
  fold_left coerce_entry (Object_entries v) [].

(** Outcome of the [try] block: the value of [jsonResponse], or the message
    of the error caught as [parseError]. *)
Inductive attempt : Type :=
| Returned (jsonResponse : list (jsstring * jsval))
| Thrown (message : jsstring).

(** The [try] block: [JSON.parse], the guard, the [reduce]. *)
Definition parse_flat (text : jsstring) : attempt :=
  match JSON_parse text with
  | inl message => Thrown message
  | inr v =>
    if not_flat_object v
    then Thrown (js "Response is not a valid flat JSON object")
    else Returned (coerce_values v)
  end.

(** [o[key]] as a value. *)
Definition prop (o : list (jsstring * jsval)) (key : jsstring) : jsval :=
  match obj_get o key with
  | Some v => v
  | None => JUndefined
  end.

(** The [forEach] over the allowed keys that builds [finalResponse]. *)
Definition project (allowed : list jsstring)
  (jsonResponse : list (jsstring * jsval)) : list (jsstring * jsval) :=
  fold_left
    (fun finalResponse key =>
       obj_set finalResponse key
         (if negb (is_undefined (prop jsonResponse key))
          then JStr (String_ (prop jsonResponse key))
          else JNull))
    allowed [].

Definition allowedKeys : list jsstring :=
  map js
    ["Name"; "Religion"; "Passportnumber"; "ExperienceYears"; "maritalstatus";
     "Experience"; "dateofbirth"; "Nationality"; "job"; "Education";
     "EnglishLanguageLevel"; "ArabicLanguageLeveL"; "SewingLevel"; "weight";
     "height"; "childrencount"; "CleaningLevel"; "CookingLevel";
     "WashingLevel"; "IroningLevel"; "ChildcareLevel"; "ElderlycareLevel";
     "phone"; "age"; "officeName"; "experienceType";
     "PassportStart"; "PassportEnd"; "Salary"; "BabySitterLevel"]%string.

(** Result of the normalisation: the flat object, or the failure with the
    message of the error and the cleaned text. *)
Inductive normalized : Type :=
| Normalized (finalResponse : list (jsstring * jsval))
| MalformedOutput (message : jsstring) (rawText : jsstring).

(** The normaliser of the [/api/gemini] handler that projects on a list of
    keys; the handler calls it with [allowedKeys]. *)
Definition normalize (rawText : jsstring) (schema : list jsstring)
  : normalized :=
  let rawText := clean rawText in
  match parse_flat rawText with
  | Thrown message => MalformedOutput message rawText
  | Returned jsonResponse => Normalized (project schema jsonResponse)
  end.

(** The same without the projection: the [/api/gemini] handler of
    [server.js] answers with every key of the parsed object. *)
Definition normalize_open (rawText : jsstring) : normalized :=
  let rawText := clean rawText in
  match parse_flat rawText with
  | Thrown message => MalformedOutput message rawText
  | Returned jsonResponse => Normalized jsonResponse
  end.

(* ------------------------------------------------------------------ *)
(** *** The handlers, from the model's answer to the HTTP response *)

(** What a handler can observe and change: the environment variable
    [NODE_ENV] and the console. *)
Record World : Type := {
  NODE_ENV : option jsstring;
  console : list (list jsval)
}.

Record response : Type := {
  status : N;
  body : jsval
}.

(** [process.env.NODE_ENV === 'development']. *)
Definition development (w : World) : bool :=
  match NODE_ENV w with
  | Some v => jsstring_eqb v (js "development")
  | None => false
  end.

(** [console.log(...args)] and [console.error(...args)]. *)
Definition console_log (args : list jsval) (w : World) : World :=
  {| NODE_ENV := NODE_ENV w; console := console w ++ [args] |}.

Definition parse_failure : jsstring :=
  js "فشل في تحليل استجابة Gemini كـ JSON صالح.".

(** The 500 answer of the [catch] of the image handlers. *)
Definition malformed_response (w : World) (message rawText : jsstring)
  : response :=
  {| status := 500;
     body := JObj
       [(js "error", JStr parse_failure);
        (js "details", if development w then JStr message else JUndefined);
        (js "rawResponse",
         if development w then JStr rawText else JUndefined)] |}.

(** The 500 answer of the [catch] of the [/prompt] handlers. *)
Definition malformed_prompt_response (w : World) (message : jsstring)
  : response :=
  {| status := 500;
     body := JObj
       [(js "error", JStr parse_failure);
        (js "details", if development w then JStr message else JUndefined)]
  |}.

Definition success_response (jsonResponse : list (jsstring * jsval))
  : response :=
  {| status := 200; body := JObj [(js "jsonResponse", JObj jsonResponse)] |}.

(** The part of a handler that follows [response.text()], for an image
    handler whose normaliser is [norm]. *)
Definition image_step (norm : jsstring -> normalized) (w : World)
  (rawText : jsstring) : World * response :=
  let w1 := console_log
              [JStr (js "[INFO] استجابة Gemini الخام:"); JStr rawText] w in
  match norm rawText with
  | MalformedOutput message cleaned =>
    let w2 := console_log
                [JStr (js "[ERROR] فشل تحليل استجابة Gemini:"); JStr message;
                 JStr (js "Raw response:"); JStr cleaned] w1 in
    (w2, malformed_response w2 message cleaned)
  | Normalized result =>
    let w2 := console_log
                [JStr (js "[INFO] استجابة Gemini المحللة:"); JObj result] w1 in
    (w2, success_response result)
  end.

(** [/api/gemini] of the version that lists the required keys. *)
Definition api_gemini (schema : list jsstring) (w : World)
  (rawText : jsstring) : World * response :=
  image_step (fun t => normalize t schema) w rawText.

(** [/api/gemini] of [server.js]. *)
Definition api_gemini_open (w : World) (rawText : jsstring)
  : World * response :=
  image_step normalize_open w rawText.

(** The part of a [/prompt] handler that follows [response.text()];
    [cleaning] is the text given to [JSON.parse]: [clean] in the later
    versions, the raw text itself in [server.js]. *)
Definition prompt_step (cleaning : jsstring -> jsstring) (w : World)
  (rawText : jsstring) : World * response :=
  match parse_flat (cleaning rawText) with
  | Thrown message =>
    let w1 := console_log
                [JStr (js "[ERROR] فشل تحليل استجابة Gemini:"); JStr message;
                 JStr rawText] w in
    (w1, malformed_prompt_response w1 message)
  | Returned jsonResponse =>
    let w1 := console_log
                [JStr (js "[INFO] استجابة Gemini المحللة:");
                 JObj jsonResponse] w in
    (w1, success_response jsonResponse)
  end.

Definition prompt : World -> jsstring -> World * response :=
  prompt_step clean.

Definition prompt_server_js : World -> jsstring -> World * response :=
  prompt_step (fun rawText => rawText).

(** The text of a member whose value is a string. *)
Definition member_text (e : jsstring * jsstring) : jsstring :=
  quote (fst e) ++ js ":" ++ quote (snd e).

(** The object whose properties are the given strings, in that order. *)
Definition string_object (kvs : list (jsstring * jsstring))
  : list (jsstring * jsval) :=
  map (fun e => (fst e, JStr (snd e))) kvs.

(** The round trip as the specification words it: for every schema and
    every object of strings whose keys are fields of the schema,
    [normalize] succeeds on the serialisation of the object and gives, for
    each field, the string of the object or [null]. *)
Definition stringify_round_trip_spec : Prop :=
  forall (schema : list jsstring) (kvs : list (jsstring * jsstring)),
  NoDup (obj_keys kvs) -> incl (obj_keys kvs) schema ->
  exists text r,
    serialize (JObj (string_object kvs)) = Some text
    /\ normalize text schema = Normalized r
    /\ forall f, In f schema ->
       obj_get r f = Some match obj_get (string_object kvs) f with
                          | Some v => v
                          | None => JNull
                          end.

(** The fence property as the specification words it: whatever the
    language tag of the fence, a text that normalises successfully gives
    the same result inside the fence. *)
Definition any_fence_spec : Prop :=
  forall (schema : list jsstring) (tag t : jsstring)
         (r : list (jsstring * jsval)),
  normalize t schema = Normalized r ->
  normalize (fenced_with tag t) schema = Normalized r.

(** [v[key]] for a value [v]. *)
Definition field (v : jsval) (key : jsstring) : jsval :=
  match v with
  | JObj o => prop o key
  | _ => JUndefined
  end.

(** The text that [res.json(body)] sends. *)
Definition sent (r : response) : option jsstring := serialize (body r).

(* ------------------------------------------------------------------ *)
(** *** Values that [JSON.parse] reads back from their JSON text *)

(** [k] comes before [k'] in property order: the keys differ; an array
    index comes before a larger one and before every other key. *)
Definition precedes (k k' : jsstring) : Prop :=
  k <> k'
  /\ match array_index k, array_index k' with
     | Some i, Some j => i < j
     | Some _, None => True
     | None, Some _ => False
     | None, None => True
     end.

(** The keys [ks] are in property order, none twice. *)
Fixpoint property_order (ks : list jsstring) : Prop :=
  match ks with
  | [] => True
  | k :: r => Forall (precedes k) r /\ property_order r
  end.

(** What holds of a parsed value at every depth: no [undefined] in it, and
    the keys of every object in property order. *)
Fixpoint well_formed (v : jsval) : Prop :=
  match v with
  | JUndefined => False
  | JArr vs =>
    (fix all (l : list jsval) : Prop :=
       match l with
       | [] => True
       | e :: r => well_formed e /\ all r
       end) vs
  | JObj kvs =>
    property_order (obj_keys kvs)
    /\ (fix all (l : list (jsstring * jsval)) : Prop :=
          match l with
          | [] => True
          | e :: r => well_formed (snd e) /\ all r
          end) kvs
  | _ => True
  end.

(** A number that [JSON.stringify] writes and [JSON.parse] reads back as
    itself: it is finite, its text is a number literal, and the literal
    denotes it.  ([-0], written [0], and the numbers that [1e999] or
    [-1e999] denote, written [null], are the numbers that are not.) *)
Definition number_round_trips (n : number) : Prop :=
  isFinite n = true
  /\ lex_number (numberToString n) = Some (numberToString n, [])
  /\ parseNumber (numberToString n) = n.

Fixpoint numbers_round_trip (v : jsval) : Prop :=
  match v with
  | JNum n => number_round_trips n
  | JArr vs =>
    (fix all (l : list jsval) : Prop :=
       match l with
       | [] => True
       | e :: r => numbers_round_trip e /\ all r
       end) vs
  | JObj kvs =>
    (fix all (l : list (jsstring * jsval)) : Prop :=
       match l with
       | [] => True
       | e :: r => numbers_round_trip (snd e) /\ all r
       end) kvs
  | _ => True
  end.

(** A text that ends a number literal written before it: the end of the
    text, a comma, or a closing bracket or brace. *)
Definition delimited (rest : jsstring) : Prop :=
  match rest with
  | [] => True
  | c :: _ => c = 44 \/ c = 93 \/ c = 125
  end.

(** A text before which a number literal ends. *)
Definition stops (rest : jsstring) : Prop :=
  match rest with
  | [] => True
  | c :: _ => is_digit c = false /\ c <> 46 /\ c <> 101 /\ c <> 69
  end.

(** The parser reads [v] back from its JSON text, whatever delimiter
    follows the text and whenever the bound on the recursion suffices. *)
Definition reads_back (v : jsval) : Prop :=
  forall t rest fuel,
    serialize v = Some t -> delimited rest ->
    parse_value fuel (t ++ rest) <> OutOfFuel ->
    parse_value fuel (t ++ rest) = Parsed v rest.

(** What the result of the normalisation holds for a value [v] of the
    parsed object: the text of a string, of a number, of a boolean or of
    [null]; for an object or an array the JSON text of the value, which
    [JSON.parse] reads back as the value when the numbers in it are read
    back. *)
Definition coerced (v : jsval) (stored : option jsval) : Prop :=
  match v with
  | JUndefined => False
  | JNull => stored = Some (JStr (js "null"))
  | JBool true => stored = Some (JStr (js "true"))
  | JBool false => stored = Some (JStr (js "false"))
  | JNum n => stored = Some (JStr (numberToString n))
  | JStr s => stored = Some (JStr s)
  | JArr _ | JObj _ =>
    exists t,
      stored = Some (JStr t)
      /\ serialize v = Some t
      /\ (numbers_round_trip v -> JSON_parse t = inr v)
  end.

(* ------------------------------------------------------------------ *)
(** *** Truthiness of the sample numbers *)

(** A number kept as its lexeme is zero when no digit of its mantissa is
    other than [0]. *)
Fixpoint mantissa_is_zero (lexeme : jsstring) : bool :=
  match lexeme with
  | [] => true
  | c :: r =>
    if (c =? 101) || (c =? 69) then true
    else if (49 <=? c) && (c <=? 57) then false
    else mantissa_is_zero r
  end.

Definition literal_numberIsFalsy (n : literal_number) : bool :=
  mantissa_is_zero n.


(* ------------------------------------------------------------------ *)
(** *** The requests, from the body to the HTTP response *)

(** An error caught by a handler: its message and its stack. *)
Record js_error : Type := {
  err_message : jsstring;
  err_stack : jsval
}.

(** A file stored by multer. *)
Record upload : Type := {
  originalname : jsstring;
  mimetype : jsstring;
  buffer : list N
}.

(** [value || fallback] for an environment variable. *)
Definition or_default (value : option jsstring) (fallback : jsstring)
  : jsstring :=
  match value with
  | Some (c :: s) => c :: s
  | _ => fallback
  end.

(** The 400 and 500 answers that carry a fixed message. *)
Definition error_response (code : N) (label : jsstring) : response :=
  {| status := code; body := JObj [(js "error", JStr label)] |}.

(** The 500 answer of the outer [catch] of a handler. *)
Definition internal_error_response (label : jsstring) (w : World)
  (e : js_error) : response :=
  {| status := 500;
     body := JObj
       [(js "error", JStr label);
        (js "details",
         if development w then JStr (err_message e) else JUndefined)] |}.

Definition no_file : jsstring := js "لم يتم تحميل أي ملف.".

Definition no_text : jsstring := js "الرجاء توفير نص للمعالجة.".

Definition text_internal_error : jsstring :=
  js "حدث خطأ داخلي أثناء معالجة النص.".

Definition image_internal_error : jsstring :=
  js "حدث خطأ داخلي أثناء معالجة الصورة.".

Definition document_internal_error : jsstring :=
  js "حدث خطأ داخلي أثناء معالجة المستند.".

Definition pdf_only : jsstring := js "الرجاء تحميل ملف PDF فقط.".

Definition default_model : jsstring := js "gemini-2.5-flash".

(* The upload filter and the error-handling function of the Gemini
   servers. *)

Definition allowedTypes : list jsstring :=
  map js ["image/png"; "image/jpeg"; "application/pdf"]%string.

Definition file_type_error : jsstring :=
  js "الرجاء تحميل ملف صورة (PNG أو JPEG) أو PDF فقط.".

(** [fileFilter]: the message of the error given to the callback, or the
    acceptance [cb(null, true)]. *)
Definition fileFilter (file : upload) : jsstring + bool :=
  if existsb (jsstring_eqb (mimetype file)) allowedTypes then inr true
  else inl file_type_error.

(** [s.includes(sub)]. *)
Fixpoint includes (s sub : jsstring) : bool :=
  starts_with sub s
  || match s with
     | [] => false
     | _ :: r => includes r sub
     end.

(** An error that reaches the error-handling function: whether it is a
    [multer.MulterError], its [code] and its [message]. *)
Record upload_error : Type := {
  is_MulterError : bool;
  code : jsval;
  message : jsstring
}.

Definition file_too_large : jsstring :=
  js "حجم الملف كبير جدًا. الحد الأقصى المسموح به هو 50 ميجابايت. الرجاء ضغط الصورة.".

(** [v === s] for a string literal [s]. *)
Definition is_string (v : jsval) (s : jsstring) : bool :=
  match v with
  | JStr t => jsstring_eqb t s
  | _ => false
  end.

(** The error-handling function given to [app.use]: the answer, or [None]
    when the error is passed on with [next(err)]. *)
Definition upload_error_handler (w : World) (err : upload_error)
  : World * option response :=
  if is_MulterError err && is_string (code err) (js "LIMIT_FILE_SIZE") then
    let w1 := console_log
                [JStr (js "[ERROR] فشل تحميل الملف: حجم الملف يتجاوز 50 ميجابايت")]
                w in
    (w1, Some {| status := 400;
                 body := JObj
                   [(js "error", JStr file_too_large);
                    (js "details",
                     if development w1 then JStr (message err)
                     else JUndefined)] |})
  else if includes (message err) (js "الرجاء تحميل ملف صورة") then
    let w1 := console_log
                [JStr (js "[ERROR] نوع الملف غير مدعوم:"); JStr (message err)]
                w in
    (w1, Some {| status := 400;
                 body := JObj
                   [(js "error", JStr (message err));
                    (js "details",
                     if development w1 then JStr (message err)
                     else JUndefined)] |})
  else (w, None).

(* The Document AI server. *)

(** The decimal digits of a natural number. *)
Fixpoint decimal_from (fuel : nat) (n : N) : jsstring :=
  match fuel with
  | O => []
  | S fuel' =>
    if n <? 10 then [48 + n]
    else decimal_from fuel' (n / 10) ++ [48 + n mod 10]
  end.

Definition decimal (n : nat) : jsstring :=
  decimal_from (S n) (N.of_nat n).

(** The values of [extractedData] as the response body carries them.  A
    function has no JSON text: in an array [JSON.stringify] writes [null]
    for it as it does for [undefined], which stands for it here;
    [Object.prototype] has no enumerable property of its own. *)
Definition inherited_js (v : inherited) : jsval :=
  match v with
  | BuiltinFunction => JUndefined
  | ObjectPrototype => JObj []
  | ArrayLength n => JNum (parseNumber (decimal n))
  end.

Definition entity_value_js (v : entity_value) : jsval :=
  match v with
  | Text s => JStr s
  | Texts items => JArr (map JStr items)
  | Wrapped first rest => JArr (inherited_js first :: map JStr rest)
  end.

Definition extracted_js (x : extracted) : jsval :=
  JObj [(js "text", JStr (extracted_text x));
        (js "entities",
         JObj (map (fun e => (fst e, entity_value_js (snd e)))
                 (extracted_entities x)))].

(** The environment of the Document AI server. *)
Record gcp_env : Type := {
  GCP_PROJECT_ID : option jsstring;
  GCP_LOCATION : option jsstring;
  GCP_PROCESSOR_ID : option jsstring
}.

Definition projectId (env : gcp_env) : jsstring :=
  or_default (GCP_PROJECT_ID env) (js "eastern-amp-471710-u4").

Definition location (env : gcp_env) : jsstring :=
  or_default (GCP_LOCATION env) (js "us").

Definition processorId (env : gcp_env) : jsstring :=
  or_default (GCP_PROCESSOR_ID env) (js "abc7c6209dbadfc1").

(** The resource name of the processor. *)
Definition processor_name (env : gcp_env) : jsstring :=
  js "projects/" ++ projectId env ++ js "/locations/" ++ location env
  ++ js "/processors/" ++ processorId env.

(** [/process-document]: [processDocument] is the call to Document AI on
    the resource name and the uploaded file, which gives the document or
    fails. *)
Definition process_document_handler
  (processDocument : jsstring -> upload -> js_error + document)
  (env : gcp_env) (w : World) (file : option upload) : World * response :=
  match file with
  | None => (w, error_response 400 no_file)
  | Some f =>
    if negb (jsstring_eqb (mimetype f) (js "application/pdf"))
    then (w, error_response 400 pdf_only)
    else
      match processDocument (processor_name env) f with
      | inr d =>
        (w, {| status := 200; body := extracted_js (process_document d) |})
      | inl e =>
        let w1 := console_log
                    [JStr (js "[ERROR] أثناء معالجة المستند:");
                     JStr (err_message e)] w in
        (w1, internal_error_response document_internal_error w1 e)
      end
  end.

(** The two operations of the client on a processor: the call gives a
    long-running operation or fails, and the operation gives its response
    or fails. *)
Record processor_client : Type := {
  enableProcessor : jsstring -> js_error + (js_error + jsval);
  disableProcessor : jsstring -> js_error + (js_error + jsval)
}.

Definition invalid_action : jsstring :=
  jsq "يجب تحديد إجراء صالح: 'enable' أو 'disable'.".

(** The words for the two actions in the messages. *)
Definition action_word (action : jsval) : jsstring :=
  if is_string action (js "enable") then js "تفعيل" else js "تعطيل".

(** What a handler may do to the world: leave [NODE_ENV] as it is and
    append lines to the console. *)
Definition appended (w w' : World) : Prop :=
  NODE_ENV w' = NODE_ENV w
  /\ exists lines, console w' = console w ++ lines.

(** Sample models and a sample file: a model that answers every request
    with the same text, a model that fails, a small PNG. *)
Definition answers_text {A : Type} (rawText : jsstring) (model : jsval)
  (input : A) : js_error + jsstring :=
  inr rawText.

Definition fails_with {A : Type} (message : jsstring) (model : jsval)
  (input : A) : js_error + jsstring :=
  inl {| err_message := message; err_stack := JUndefined |}.

Definition passport_png : upload :=
  {| originalname := js "passport.png"; mimetype := js "image/png";
     buffer := [137; 80; 78; 71] |}.

Definition contract_pdf : upload :=
  {| originalname := js "contract.pdf"; mimetype := js "application/pdf";
     buffer := [37; 80; 68; 70] |}.

(** A sample Document AI that finds the given entities in every file. *)
Definition finds (es : list entity) (name : jsstring) (file : upload)
  : js_error + document :=
  inr {| text := None; entities := Some es |}.

(** A sample SDK that makes a model of every name (the model is the name),
    and the [TypeError] of a conversion as V8 words it. *)
Definition model_named (name : jsval) : js_error + jsval := inr name.

Definition sample_cannotConvert : js_error :=
  {| err_message := js "Cannot convert object to primitive value";
     err_stack := JUndefined |}.

(** A sample error of other code that quotes the marker in its message. *)
Definition marked_enoent : upload_error :=
  {| is_MulterError := false;
     code := JUndefined;
     message := js "ENOENT: الرجاء تحميل ملف صورة /srv/uploads" |}.

(** [ToString(v)], as a template literal computes it for a value of a
    request body; [None] is the [TypeError] of a value that cannot be
    converted.  An object made by a body parser inherits
    [Object.prototype.toString], which gives [[object Object]], unless it
    has a property [toString] of its own: that property is no function,
    [valueOf] gives the object itself, and the conversion throws.  An array
    is joined by [Array.prototype.join], which converts each element other
    than [undefined] and [null]. *)
Fixpoint ToString (v : jsval) : option jsstring :=
  match v with
  | JArr vs =>
    match
      (fix parts (l : list jsval) : option (list jsstring) :=
         match l with
         | [] => Some []
         | e :: r =>
           match match e with
                 | JUndefined | JNull => Some []
                 | _ => ToString e
                 end, parts r with
           | Some p, Some ps => Some (p :: ps)
           | _, _ => None
           end
         end) vs
    with
    | Some ps => Some (join (js ",") ps)
    | None => None
    end
  | JObj properties =>
    if obj_has properties (js "toString") then None
    else Some (js "[object Object]")
  | _ => Some (String_ v)
  end.

(** What an [async] handler does with a request: it sends a response, or
    it throws before it has sent one and the promise that it returned is
    rejected. *)
Inductive handled : Type :=
| Answered (r : response)
| Rejected (e : js_error).

Definition answered_status (h : handled) : option N :=
  match h with
  | Answered r => Some (status r)
  | Rejected _ => None
  end.

Section Requests.

(** [ToBoolean] of a number ([0], [-0] and [NaN] are falsy), the constant
    text of the prompt of [/prompt] before and after the interpolated text,
    and the line that [/api/gemini] logs about the file. *)
Variable numberIsFalsy : number -> bool.
Variable prompt_head : jsstring.
Variable prompt_tail : jsstring.
Variable file_log : upload -> jsstring.

(** The models of the SDK ([genAI.getGenerativeModel] makes one), and the
    [TypeError] that a conversion to a string throws. *)
Variable generative_model : Type.
Variable cannotConvert : js_error.

(** [!!v]. *)
Definition ToBoolean (v : jsval) : bool :=
  match v with
  | JUndefined => false
  | JNull => false
  | JBool b => b
  | JNum n => negb (numberIsFalsy n)
  | JStr [] => false
  | JStr (_ :: _) => true
  | JArr _ => true
  | JObj _ => true
  end.

(** [modelName || process.env.GEMINI_MODEL || 'gemini-2.5-flash']. *)
Definition selected_model (modelName : jsval) (GEMINI_MODEL : option jsstring)
  : jsval :=
  if ToBoolean modelName then modelName
  else JStr (or_default GEMINI_MODEL default_model).

(** The model that a handler asks, and what it logs about it: the fixed
    model in [server.js], the selected one in the later versions. *)
Definition model_of (dynamic : bool) (GEMINI_MODEL : option jsstring)
  (body : jsval) : jsval :=
  if dynamic then selected_model (field body (js "model")) GEMINI_MODEL
  else JStr default_model.

Definition log_model (dynamic : bool) (model : jsval) (w : World) : World :=
  if dynamic
  then console_log [JStr (js "[INFO] استخدام نموذج: " ++ String_ model)] w
  else w.

(** The template literal [`head${v}tail`]. *)
Definition template (head : jsstring) (v : jsval) (tail : jsstring)
  : js_error + jsstring :=
  match ToString v with
  | Some s => inr (head ++ s ++ tail)
  | None => inl cannotConvert
  end.

(** The outer [try] block of [/prompt] and its [catch]: the prompt is
    built from the text, [generateContent] is the call to Gemini with the
    prompt, which gives the text of the answer or fails. *)
Definition prompt_try (cleaning : jsstring -> jsstring)
  (generateContent : jsstring -> js_error + jsstring) (w : World)
  (text : jsval) : World * response :=
  let caught (e : js_error) :=
    let w1 := console_log
                [JStr (js "[ERROR] خطأ أثناء معالجة النص:");
                 JStr (err_message e); err_stack e] w in
    (w1, internal_error_response text_internal_error w1 e) in
  match template prompt_head text prompt_tail with
  | inl e => caught e
  | inr prompt =>
    match generateContent prompt with
    | inr rawText => prompt_step cleaning w rawText
    | inl e => caught e
    end
  end.

(** [/prompt].  [server.js] asks [model], made when the server starts; the
    later versions ([dynamic]) make a model for the selected name and log
    the name, both before the [try] block, so that an error of either is
    thrown out of the handler. *)
Definition prompt_handler (dynamic : bool) (cleaning : jsstring -> jsstring)
  (model : generative_model)
  (getGenerativeModel : jsval -> js_error + generative_model)
  (generateContent : generative_model -> jsstring -> js_error + jsstring)
  (GEMINI_MODEL : option jsstring) (w : World) (body : jsval)
  : World * handled :=
  let text := field body (js "text") in
  let w1 := console_log [JStr (js "tex"); text] w in
  if negb (ToBoolean text) then (w1, Answered (error_response 400 no_text))
  else
    let answer (m : generative_model) (w2 : World) :=
      let w3 := console_log [JStr (js "[INFO] إرسال النص إلى Gemini...")] w2 in
      let (w4, r) := prompt_try cleaning (generateContent m) w3 text in
      (w4, Answered r) in
    if dynamic then
      let selectedModel :=
        selected_model (field body (js "model")) GEMINI_MODEL in
      match getGenerativeModel selectedModel with
      | inl e => (w1, Rejected e)
      | inr dynamicModel =>
        match template (js "[INFO] استخدام نموذج: ") selectedModel [] with
        | inl e => (w1, Rejected e)
        | inr line => answer dynamicModel (console_log [JStr line] w1)
        end
      end
    else answer model w1.

(** [/api/gemini]: [generate] is the call to Gemini with a model and the
    uploaded image (the prompt is a constant), [norm] the normalisation of
    the version. *)
Definition api_gemini_handler (dynamic : bool)
  (norm : jsstring -> normalized)
  (generate : jsval -> upload -> js_error + jsstring)
  (GEMINI_MODEL : option jsstring) (w : World) (file : option upload)
  (body : jsval) : World * response :=
  match file with
  | None => (w, error_response 400 no_file)
  | Some f =>
    let model := model_of dynamic GEMINI_MODEL body in
    let w1 := console_log [JStr (file_log f)] w in
    let w2 := log_model dynamic model w1 in
    let w3 := console_log [JStr (js "[INFO] إرسال الصورة إلى Gemini...")] w2 in
    match generate model f with
    | inr rawText => image_step norm w3 rawText
    | inl e =>
      let w4 := console_log
                  [JStr (js "[ERROR] خطأ أثناء معالجة الصورة:");
                   JStr (err_message e); err_stack e] w3 in
      (w4, internal_error_response image_internal_error w4 e)
    end
  end.

(** [/processor-control]. *)
Definition processor_control (client : processor_client) (env : gcp_env)
  (w : World) (body : jsval) : World * response :=
  let action := field body (js "action") in
  if negb (ToBoolean action)
     || negb (is_string action (js "enable")
              || is_string action (js "disable"))
  then (w, error_response 400 invalid_action)
  else
    let name := processor_name env in
    let failed (w0 : World) (e : js_error) :=
      let w1 := console_log
                  [JStr (js "[ERROR] أثناء " ++ action_word action
                         ++ js " المعالج:");
                   JStr (err_message e)] w0 in
      (w1, internal_error_response
             (js "حدث خطأ داخلي أثناء " ++ action_word action
              ++ js " المعالج.") w1 e) in
    let started :=
      if is_string action (js "disable")
      then (disableProcessor client name,
            js "[INFO] جارٍ تعطيل المعالج: " ++ processorId env)
      else (enableProcessor client name,
            js "[INFO] جارٍ تفعيل المعالج: " ++ processorId env) in
    match fst started with
    | inl e => failed w e
    | inr operation =>
      let w1 := console_log [JStr (snd started)] w in
      match operation with
      | inl e => failed w1 e
      | inr response =>
        let w2 := console_log
                    [JStr (js "[SUCCESS] تم " ++ String_ action
                           ++ js " المعالج بنجاح.")] w1 in
        (w2, {| status := 200;
                body := JObj
                  [(js "message",
                    JStr (js "تم " ++ action_word action
                          ++ js " المعالج بنجاح."));
                   (js "response", response)] |})
      end
    end.

End Requests.
(* ================================================================== *)
(** ** Properties of the cleaning *)

Local Arguments N.eqb : simpl never.
Local Arguments N.ltb : simpl never.
Local Arguments N.leb : simpl never.

Lemma js_fence : js "```" = [BACKTICK; BACKTICK; BACKTICK].
Proof. vm_compute. reflexivity. Qed.

Lemma js_fence_json :
  js "```json" = [BACKTICK; BACKTICK; BACKTICK; 106; 115; 111; 110].
Proof. vm_compute. reflexivity. Qed.

Ltac split_eqb :=
  repeat match goal with
         | |- context [N.eqb ?a ?b] =>
           destruct (N.eqb_spec a b); subst; simpl; try discriminate
         end.

(** A match found in [s] is inside [s]. *)
Lemma fence_match_length_le (s : jsstring) :
  (fence_match_length s <= List.length s)%nat.
Proof.
  unfold fence_match_length. rewrite js_fence, js_fence_json.
  unfold BACKTICK, NEWLINE.
  do 8 (destruct s as [|? s]; [simpl; split_eqb; simpl; lia|]).
  simpl. split_eqb; simpl; lia.
Qed.

(** Appending the closing fence does not change the match at the head of a
    non-empty text, except that the newline of the fence is taken by a
    [```json] that ends the text. *)
Lemma fence_match_length_app (s : jsstring) :
  s <> [] ->
  fence_match_length (s ++ NEWLINE :: js "```") = fence_match_length s
  \/ s = js "```json".
Proof.
  intros Hs. unfold fence_match_length. rewrite js_fence, js_fence_json.
  unfold BACKTICK, NEWLINE.
  destruct s as [|c0 s]; [congruence|].
  do 7 (destruct s as [|? s];
        [simpl; split_eqb; (left; reflexivity) || (right; reflexivity)|]).
  left. simpl. reflexivity.
Qed.

Lemma replace_fences_from_closing (t : jsstring) :
  forall k, (k <= List.length t)%nat ->
  replace_fences_from k (t ++ NEWLINE :: js "```") = replace_fences_from k t.
Proof.
  induction t as [|c r IH]; intros k Hk.
  - assert (k = 0%nat) by (simpl in Hk; lia). subst k.
    vm_compute. reflexivity.
  - destruct k as [|k].
    + destruct (fence_match_length_app (c :: r)) as [E | E];
        [discriminate | | ].
      * pose proof (fence_match_length_le (c :: r)) as Hle.
        change ((c :: r) ++ NEWLINE :: js "```")
          with (c :: (r ++ NEWLINE :: js "```")) in *.
        cbn [replace_fences_from]. rewrite E.
        destruct (fence_match_length (c :: r)) as [|j].
        -- f_equal. apply IH. lia.
        -- apply IH. simpl in Hle. lia.
      * rewrite E. vm_compute. reflexivity.
    + simpl. apply IH. simpl in Hk. lia.
Qed.

(** The opening fence [```json] with its newline is one match. *)
Lemma replace_fences_opening (t : jsstring) :
  replace_fences (js "```json" ++ NEWLINE :: t) = replace_fences t.
Proof.
  rewrite js_fence_json. unfold replace_fences.
  cbn [app replace_fences_from].
  unfold fence_match_length. rewrite js_fence_json.
  vm_compute starts_with. cbn [skipn]. unfold NEWLINE at 1 2.
  rewrite N.eqb_refl. reflexivity.
Qed.

Lemma replace_fences_fenced (t : jsstring) :
  replace_fences (fenced t) = replace_fences t.
Proof.
  unfold fenced. rewrite replace_fences_opening.
  unfold replace_fences. apply replace_fences_from_closing. lia.
Qed.

Lemma clean_fenced_eq (t : jsstring) : clean (fenced t) = clean t.
Proof. unfold clean. now rewrite replace_fences_fenced. Qed.

(* ================================================================== *)
(** ** Properties of objects *)

Lemma jsstring_eqb_spec (a b : jsstring) : reflect (a = b) (jsstring_eqb a b).
Proof.
  revert b. induction a as [|x a IH]; intros [|y b]; simpl;
    try (constructor; congruence).
  destruct (N.eqb_spec x y); simpl.
  - destruct (IH b); constructor; congruence.
  - constructor; congruence.
Qed.

Lemma jsstring_eqb_refl (a : jsstring) : jsstring_eqb a a = true.
Proof. destruct (jsstring_eqb_spec a a); congruence. Qed.

Lemma jsstring_eqb_neq (a b : jsstring) : a <> b -> jsstring_eqb a b = false.
Proof. destruct (jsstring_eqb_spec a b); congruence. Qed.

Section ObjectFacts.
Context {V : Type}.
Implicit Types (o : jsobj V) (k : jsstring) (v : V).

Lemma obj_get_replace o k v k' :
  obj_get o k <> None ->
  obj_get (obj_replace o k v) k'
  = if jsstring_eqb k k' then Some v else obj_get o k'.
Proof.
  induction o as [|[k0 v0] o IH]; simpl; [congruence|]. intros H.
  destruct (jsstring_eqb_spec k0 k) as [->|Hk0]; simpl.
  - destruct (jsstring_eqb_spec k k'); reflexivity.
  - destruct (jsstring_eqb_spec k0 k') as [->|Hk0'].
    + now rewrite jsstring_eqb_neq by congruence.
    + now apply IH.
Qed.

Lemma obj_get_insert_index i o k v k' :
  obj_get o k = None ->
  obj_get (obj_insert_index i k v o) k'
  = if jsstring_eqb k k' then Some v else obj_get o k'.
Proof.
  induction o as [|[k0 v0] o IH]; simpl; [reflexivity|].
  destruct (jsstring_eqb_spec k0 k) as [->|Hk0]; [discriminate|]. intros H.
  destruct (array_index k0) as [j|]; [destruct (j <? i)|]; simpl;
    try reflexivity.
  rewrite IH by assumption.
  destruct (jsstring_eqb_spec k0 k') as [->|]; [|reflexivity].
  now rewrite jsstring_eqb_neq by congruence.
Qed.

Lemma obj_get_app o o' k :
  obj_get (o ++ o') k
  = match obj_get o k with Some v => Some v | None => obj_get o' k end.
Proof.
  induction o as [|[k0 v0] o IH]; simpl; [reflexivity|].
  destruct (jsstring_eqb k0 k); auto.
Qed.

(** Reading after writing. *)
Lemma obj_get_set o k v k' :
  obj_get (obj_set o k v) k'
  = if jsstring_eqb k k' then Some v else obj_get o k'.
Proof.
  unfold obj_set, obj_has.
  destruct (obj_get o k) as [v0|] eqn:E.
  - apply obj_get_replace. congruence.
  - destruct (array_index k).
    + now apply obj_get_insert_index.
    + rewrite obj_get_app. simpl.
      destruct (jsstring_eqb_spec k k') as [->|].
      * now rewrite E.
      * now destruct (obj_get o k').
Qed.

(** The keys of an object are the names that read as a property. *)
Lemma obj_keys_get o k : In k (obj_keys o) <-> obj_get o k <> None.
Proof.
  unfold obj_keys. induction o as [|[k0 v0] o IH]; simpl.
  - tauto.
  - destruct (jsstring_eqb_spec k0 k) as [->|].
    + split; [congruence | auto].
    + rewrite <- IH. tauto.
Qed.

Lemma obj_get_In o k v : obj_get o k = Some v -> In (k, v) o.
Proof.
  induction o as [|[k0 v0] o IH]; simpl; [discriminate|].
  destruct (jsstring_eqb_spec k0 k) as [->|].
  - intros [= ->]. now left.
  - auto.
Qed.

Lemma obj_get_NoDup o k v :
  NoDup (obj_keys o) -> In (k, v) o -> obj_get o k = Some v.
Proof.
  unfold obj_keys. induction o as [|[k0 v0] o IH]; simpl; [tauto|].
  intros Hnd [[= -> ->]|Hin].
  - now rewrite jsstring_eqb_refl.
  - inversion Hnd as [|? ? Hk0 Hnd']; subst.
    destruct (jsstring_eqb_spec k0 k) as [->|]; [|auto].
    exfalso. apply Hk0. change k with (fst (k, v)). now apply in_map.
Qed.

End ObjectFacts.

(** Writing the entries of [l] one after the other. *)
Lemma obj_get_fold_set {A V : Type} (f : A -> V) (l : jsobj A)
  (acc : jsobj V) (k : jsstring) :
  NoDup (obj_keys l) ->
  obj_get (fold_left (fun a (e : jsstring * A) => obj_set a (fst e) (f (snd e)))
             l acc) k
  = match obj_get l k with
    | Some x => Some (f x)
    | None => obj_get acc k
    end.
Proof.
  unfold obj_keys. revert acc.
  induction l as [|[k0 v0] l IH]; intros acc Hnd; simpl; [reflexivity|].
  inversion Hnd as [|? ? Hk0 Hnd']; subst.
  rewrite IH by assumption. rewrite obj_get_set. simpl.
  destruct (jsstring_eqb_spec k0 k) as [->|]; [|reflexivity].
  destruct (obj_get l k) eqn:E; [|reflexivity].
  exfalso. apply Hk0. apply (obj_keys_get l k). congruence.
Qed.


(* ================================================================== *)
(** ** The projection on the allowed keys *)

(** What [finalResponse[key]] receives. *)
Lemma obj_get_project_from (jsonResponse : list (jsstring * jsval))
  (allowed : list jsstring) :
  forall acc k,
  obj_get
    (fold_left
       (fun finalResponse key =>
          obj_set finalResponse key
            (if negb (is_undefined (prop jsonResponse key))
             then JStr (String_ (prop jsonResponse key))
             else JNull))
       allowed acc) k
  = if existsb (jsstring_eqb k) allowed
    then Some (if negb (is_undefined (prop jsonResponse k))
               then JStr (String_ (prop jsonResponse k))
               else JNull)
    else obj_get acc k.
Proof.
  induction allowed as [|a allowed IH]; intros acc k; simpl; [reflexivity|].
  rewrite IH. destruct (existsb (jsstring_eqb k) allowed).
  - now rewrite orb_true_r.
  - rewrite orb_false_r, obj_get_set.
    destruct (jsstring_eqb_spec a k) as [->|Hak].
    + now rewrite jsstring_eqb_refl.
    + rewrite jsstring_eqb_neq by congruence. reflexivity.
Qed.

Lemma existsb_eqb_In (k : jsstring) (l : list jsstring) :
  existsb (jsstring_eqb k) l = true <-> In k l.
Proof.
  rewrite existsb_exists. split.
  - intros [x [Hx E]]. destruct (jsstring_eqb_spec k x); congruence.
  - intros H. exists k. split; [assumption | apply jsstring_eqb_refl].
Qed.

Lemma obj_get_project_in jsonResponse allowed k :
  In k allowed ->
  obj_get (project allowed jsonResponse) k
  = Some (if negb (is_undefined (prop jsonResponse k))
          then JStr (String_ (prop jsonResponse k))
          else JNull).
Proof.
  intros H. unfold project. rewrite obj_get_project_from.
  apply existsb_eqb_In in H. now rewrite H.
Qed.

Lemma obj_get_project_out jsonResponse allowed k :
  ~ In k allowed -> obj_get (project allowed jsonResponse) k = None.
Proof.
  intros H. unfold project. rewrite obj_get_project_from.
  destruct (existsb (jsstring_eqb k) allowed) eqn:E; [|reflexivity].
  apply existsb_eqb_In in E. contradiction.
Qed.

Lemma project_keys jsonResponse allowed k :
  In k (obj_keys (project allowed jsonResponse)) <-> In k allowed.
Proof.
  rewrite obj_keys_get. split.
  - intros H. destruct (in_dec (list_eq_dec N.eq_dec) k allowed); [assumption|].
    now rewrite obj_get_project_out in H.
  - intros H. rewrite obj_get_project_in by assumption. discriminate.
Qed.

(** The allowed keys are not member names of [Object.prototype]. *)
Lemma allowedKeys_own (k : jsstring) :
  In k allowedKeys -> ~ In k Object_prototype_names.
Proof.
  intros Hk Hp.
  assert (H : forallb
                (fun a => negb (existsb (jsstring_eqb a) Object_prototype_names))
                allowedKeys = true) by (vm_compute; reflexivity).
  rewrite forallb_forall in H. specialize (H k Hk).
  apply negb_true_iff in H.
  apply existsb_eqb_In in Hp. congruence.
Qed.

(** C1.  When [normalize] succeeds, the keys of its result are exactly the
    fields of the schema: every field of the schema is a key, and no other
    key appears, whatever keys the parsed object had. *)
Theorem normalize_keys_are_schema (rawText : jsstring)
  (schema : list jsstring) (finalResponse : list (jsstring * jsval)) :
  normalize rawText schema = Normalized finalResponse ->
  forall k, In k (obj_keys finalResponse) <-> In k schema.
Proof.
  unfold normalize. destruct (parse_flat (clean rawText)); [|discriminate].
  intros [= <-] k. apply project_keys.
Qed.

(* ================================================================== *)
(** ** Writing keeps the keys of an object distinct *)

Section ObjectKeys.
Context {V : Type}.
Implicit Types (o : jsobj V) (k : jsstring) (v : V).

Lemma obj_keys_replace o k v : obj_keys (obj_replace o k v) = obj_keys o.
Proof.
  unfold obj_keys. induction o as [|[k0 v0] o IH]; simpl; [reflexivity|].
  destruct (jsstring_eqb k0 k); simpl; congruence.
Qed.

Lemma obj_insert_index_NoDup i o k v :
  NoDup (obj_keys o) -> obj_get o k = None ->
  NoDup (obj_keys (obj_insert_index i k v o)).
Proof.
  induction o as [|[k0 v0] o IH]; intros Hnd Hk.
  - simpl. constructor; [tauto | constructor].
  - assert (Hfresh : ~ In k (obj_keys ((k0, v0) :: o)))
      by (rewrite obj_keys_get; tauto).
    simpl in Hk. destruct (jsstring_eqb_spec k0 k) as [->|Hk0]; [discriminate|].
    simpl. destruct (array_index k0) as [j|]; [destruct (j <? i)|];
      try (now constructor).
    inversion Hnd as [|? ? Hk0' Hnd']; subst.
    change (NoDup (k0 :: obj_keys (obj_insert_index i k v o))).
    constructor; [|now apply IH].
    rewrite obj_keys_get, obj_get_insert_index by assumption.
    rewrite jsstring_eqb_neq by congruence.
    now rewrite <- obj_keys_get.
Qed.

Lemma obj_set_NoDup o k v :
  NoDup (obj_keys o) -> NoDup (obj_keys (obj_set o k v)).
Proof.
  intros Hnd. unfold obj_set, obj_has.
  destruct (obj_get o k) eqn:E.
  - now rewrite obj_keys_replace.
  - destruct (array_index k).
    + now apply obj_insert_index_NoDup.
    + unfold obj_keys. rewrite map_app. simpl.
      apply NoDup_app; [assumption | constructor; [tauto | constructor] |].
      intros x Hx [Ex|[]]. subst x. apply (obj_keys_get o k) in Hx.
      congruence.
Qed.

End ObjectKeys.

(* ================================================================== *)
(** ** Shape of the values that [JSON.parse] returns *)

Ltac break_match_hyp :=
  match goal with
  | H : context [match ?x with _ => _ end] |- _ => destruct x eqn:?
  end.

Lemma parse_shape (fuel : nat) :
  (forall s v r, parse_value fuel s = Parsed v r -> parsed_shape v)
  /\ (forall acc s v r, NoDup (obj_keys acc) ->
      parse_members fuel acc s = Parsed v r -> parsed_shape v)
  /\ (forall acc s v r,
      parse_elements fuel acc s = Parsed v r -> parsed_shape v).
Proof.
  induction fuel as [|fuel [IHv [IHm IHe]]].
  - repeat split; intros; discriminate.
  - repeat split.
    + intros s v r H. cbn [parse_value] in H.
      repeat break_match_hyp; try discriminate;
        try (injection H as <- <-; simpl; auto; constructor).
      * eapply IHm; [|eassumption]. constructor.
      * eapply IHe; eassumption.
    + intros acc s v r Hacc H. cbn [parse_members] in H.
      repeat break_match_hyp; try discriminate.
      * eapply IHm; [|eassumption]. now apply obj_set_NoDup.
      * injection H as <- <-. simpl. now apply obj_set_NoDup.
    + intros acc s v r H. cbn [parse_elements] in H.
      repeat break_match_hyp; try discriminate.
      * eapply IHe; eassumption.
      * injection H as <- <-. exact I.
Qed.

Lemma JSON_parse_shape (text : jsstring) (v : jsval) :
  JSON_parse text = inr v -> parsed_shape v.
Proof.
  unfold JSON_parse. intros H.
  destruct (parse_value _ text) as [v' r| |] eqn:E; try discriminate.
  destruct (skip_ws r); [|discriminate]. injection H as <-.
  eapply (proj1 (parse_shape _)); eassumption.
Qed.

(* ================================================================== *)
(** ** The coercion of the values *)

Lemma fold_left_ext {A B : Type} (f g : A -> B -> A) (l : list B) :
  (forall a b, f a b = g a b) ->
  forall a, fold_left f l a = fold_left g l a.
Proof.
  intros H. induction l as [|b l IH]; intros a; simpl; [reflexivity|].
  now rewrite H, IH.
Qed.

Lemma typeof_object (v : jsval) :
  jsstring_eqb (typeof v) (js "object") && negb (is_null v) = is_structured v.
Proof. destruct v; reflexivity. Qed.

Lemma not_flat_object_spec (v : jsval) :
  not_flat_object v = match v with JObj _ => false | _ => true end.
Proof. destruct v; reflexivity. Qed.

Lemma serialize_structured (v : jsval) :
  is_structured v = true -> exists t, serialize v = Some t.
Proof. destruct v; try discriminate; intros _; simpl; eauto. Qed.

(** The value that the [reduce] stores for [value]. *)
Lemma coerce_entry_set acc key value :
  coerce_entry acc (key, value)
  = obj_set acc key
      (if is_structured value then JSON_stringify value
       else JStr (String_ value)).
Proof.
  unfold coerce_entry. rewrite typeof_object.
  now destruct (is_structured value).
Qed.

Lemma obj_get_coerce_values (o : list (jsstring * jsval)) (k : jsstring) :
  NoDup (obj_keys o) ->
  obj_get (coerce_values (JObj o)) k
  = match obj_get o k with
    | Some v => Some (if is_structured v then JSON_stringify v
                      else JStr (String_ v))
    | None => None
    end.
Proof.
  intros Hnd. unfold coerce_values. simpl Object_entries.
  rewrite (fold_left_ext coerce_entry
             (fun a e => obj_set a (fst e)
                (if is_structured (snd e) then JSON_stringify (snd e)
                 else JStr (String_ (snd e))))).
  - now rewrite (obj_get_fold_set
                   (fun v => if is_structured v then JSON_stringify v
                             else JStr (String_ v))).
  - intros a [key value]. apply coerce_entry_set.
Qed.

(** Every value stored by the [reduce] is a string. *)
Lemma coerced_is_string (v : jsval) :
  exists t, (if is_structured v then JSON_stringify v else JStr (String_ v))
            = JStr t.
Proof.
  destruct (is_structured v) eqn:E; [|eauto].
  destruct (serialize_structured v E) as [t Ht].
  unfold JSON_stringify. rewrite Ht. eauto.
Qed.

Lemma parse_flat_object (text : jsstring) (o : list (jsstring * jsval)) :
  JSON_parse text = inr (JObj o) ->
  parse_flat text = Returned (coerce_values (JObj o)).
Proof. intros H. unfold parse_flat. now rewrite H. Qed.

(** The property of [finalResponse] for a key of the schema, from the
    parsed object. *)
Lemma obj_get_normalized (o : list (jsstring * jsval))
  (schema : list jsstring) (k : jsstring) :
  NoDup (obj_keys o) -> In k schema ->
  obj_get (project schema (coerce_values (JObj o))) k
  = Some match obj_get o k with
         | Some v => if is_structured v then JSON_stringify v
                     else JStr (String_ v)
         | None => JNull
         end.
Proof.
  intros Hnd Hin. rewrite obj_get_project_in by assumption.
  unfold prop. rewrite obj_get_coerce_values by assumption.
  destruct (obj_get o k) as [v|]; [|reflexivity].
  destruct (coerced_is_string v) as [t ->]. reflexivity.
Qed.

(* ================================================================== *)
(** ** Failure and success of the normalisation *)

(** C4.  [normalize] fails with [MalformedOutput] exactly when the cleaned
    text is not parseable as JSON, or parses to an array, to a primitive
    (string, number, boolean) or to [null]; on a text that parses to an
    object it succeeds. *)
Theorem normalize_fails_iff (rawText : jsstring) (schema : list jsstring) :
  ((exists message text,
      normalize rawText schema = MalformedOutput message text)
   <->
   ((exists message, JSON_parse (clean rawText) = inl message)
    \/ (exists vs, JSON_parse (clean rawText) = inr (JArr vs))
    \/ (exists s, JSON_parse (clean rawText) = inr (JStr s))
    \/ (exists n, JSON_parse (clean rawText) = inr (JNum n))
    \/ (exists b, JSON_parse (clean rawText) = inr (JBool b))
    \/ JSON_parse (clean rawText) = inr JNull))
  /\ (forall o, JSON_parse (clean rawText) = inr (JObj o) ->
      exists finalResponse,
        normalize rawText schema = Normalized finalResponse).
Proof.
  unfold normalize, parse_flat.
  pose proof (JSON_parse_shape (clean rawText)) as Hshape.
  destruct (JSON_parse (clean rawText)) as [message|v] eqn:E.
  - split; [|discriminate]. split; eauto.
  - rewrite not_flat_object_spec.
    destruct v; try (exfalso; exact (Hshape _ eq_refl));
      (split; [split | intros o' [=]; eauto]); eauto 8;
      try (intros [m [t [=]]]);
      intros [[m [=]]|[[x [=]]|[[x [=]]|[[x [=]]|[[x [=]]|[=]]]]]].
Qed.

(** C7.  A property of the parsed object whose value is JSON [null] is
    stored as the string ["null"], by the [reduce] and in the final
    result; [null] itself is the value of exactly the schema fields that
    the parsed object does not have. *)
Theorem json_null_becomes_text (rawText : jsstring)
  (o : list (jsstring * jsval)) (schema : list jsstring) :
  JSON_parse (clean rawText) = inr (JObj o) ->
  exists jsonResponse r,
    parse_flat (clean rawText) = Returned jsonResponse
    /\ normalize rawText schema = Normalized r
    /\ (forall k, obj_get o k = Some JNull ->
        obj_get jsonResponse k = Some (JStr (js "null")))
    /\ (forall k, In k schema -> obj_get o k = Some JNull ->
        obj_get r k = Some (JStr (js "null")))
    /\ (forall k, obj_get r k = Some JNull <->
        In k schema /\ obj_get o k = None).
Proof.
  intros H. pose proof (JSON_parse_shape _ _ H) as Hnd. simpl in Hnd.
  unfold normalize. rewrite (parse_flat_object _ _ H).
  do 2 eexists. split; [reflexivity|]. split; [reflexivity|].
  split; [|split].
  - intros k Hk. now rewrite obj_get_coerce_values, Hk.
  - intros k Hin Hk. now rewrite obj_get_normalized, Hk.
  - intros k. split.
    + intros Hr.
      destruct (in_dec (list_eq_dec N.eq_dec) k schema) as [Hin|Hout].
      * split; [assumption|].
        rewrite obj_get_normalized in Hr by assumption.
        destruct (obj_get o k) as [v0|]; [|reflexivity].
        destruct (coerced_is_string v0) as [t Ht]. rewrite Ht in Hr.
        discriminate.
      * now rewrite obj_get_project_out in Hr.
    + intros [Hin Hk]. now rewrite obj_get_normalized, Hk.
Qed.

(* ================================================================== *)
(** ** The HTTP answer of the normalisation step *)

Lemma development_console_log (args : list jsval) (w : World) :
  development (console_log args w) = development w.
Proof. reflexivity. Qed.

Lemma image_step_response (norm : jsstring -> normalized) (w : World)
  (rawText : jsstring) :
  snd (image_step norm w rawText)
  = match norm rawText with
    | Normalized r => success_response r
    | MalformedOutput message cleaned =>
      malformed_response w message cleaned
    end.
Proof. unfold image_step. destruct (norm rawText); reflexivity. Qed.

(** C6.  The step has two outcomes: when the normalisation succeeds, the
    answer has status 200 and carries the result under [jsonResponse];
    when it fails, the answer has status 500 and the error body of the
    [catch].  This holds of the handler that projects on the schema and of
    the handler of [server.js]. *)
Theorem normalization_step_outcomes (schema : list jsstring) (w : World)
  (rawText : jsstring) :
  ((exists r, normalize rawText schema = Normalized r
      /\ snd (api_gemini schema w rawText)
         = {| status := 200; body := JObj [(js "jsonResponse", JObj r)] |})
   \/ (exists message cleaned,
      normalize rawText schema = MalformedOutput message cleaned
      /\ status (snd (api_gemini schema w rawText)) = 500
      /\ snd (api_gemini schema w rawText)
         = malformed_response w message cleaned
      /\ field (body (snd (api_gemini schema w rawText))) (js "error")
         = JStr parse_failure))
  /\ ((exists r, normalize_open rawText = Normalized r
      /\ snd (api_gemini_open w rawText)
         = {| status := 200; body := JObj [(js "jsonResponse", JObj r)] |})
   \/ (exists message cleaned,
      normalize_open rawText = MalformedOutput message cleaned
      /\ status (snd (api_gemini_open w rawText)) = 500
      /\ snd (api_gemini_open w rawText)
         = malformed_response w message cleaned
      /\ field (body (snd (api_gemini_open w rawText))) (js "error")
         = JStr parse_failure)).
Proof.
  unfold api_gemini, api_gemini_open. rewrite !image_step_response. split.
  - destruct (normalize rawText schema) as [r|m t].
    + left. eauto.
    + right. exists m, t. repeat split.
  - destruct (normalize_open rawText) as [r|m t].
    + left. eauto.
    + right. exists m, t. repeat split.
Qed.

(** The diagnostic fields are undefined outside of development mode, and
    [res.json] then sends the fixed message alone. *)
Lemma malformed_response_production (w : World) (message cleaned : jsstring) :
  development w = false ->
  malformed_response w message cleaned
  = {| status := 500;
       body := JObj [(js "error", JStr parse_failure);
                     (js "details", JUndefined);
                     (js "rawResponse", JUndefined)] |}
  /\ sent (malformed_response w message cleaned)
     = Some (js "{" ++ quote (js "error") ++ js ":" ++ quote parse_failure
             ++ js "}").
Proof.
  intros H. unfold malformed_response, sent. rewrite H. split; reflexivity.
Qed.

(** C8.  On a malformed output, the parse error message and the raw text
    are in the error body only in development mode; outside of it, the
    answers to any two malformed outputs are the same, and so are the
    texts sent. *)
Theorem diagnostics_are_gated (schema : list jsstring) (w : World)
  (rawText message cleaned : jsstring) :
  normalize rawText schema = MalformedOutput message cleaned ->
  (field (body (snd (api_gemini schema w rawText))) (js "details")
     <> JUndefined
   \/ field (body (snd (api_gemini schema w rawText))) (js "rawResponse")
     <> JUndefined ->
   development w = true)
  /\ (development w = true ->
      field (body (snd (api_gemini schema w rawText))) (js "details")
        = JStr message
      /\ field (body (snd (api_gemini schema w rawText))) (js "rawResponse")
        = JStr cleaned)
  /\ (development w = false ->
      forall w' rawText' message' cleaned',
      development w' = false ->
      normalize rawText' schema = MalformedOutput message' cleaned' ->
      snd (api_gemini schema w' rawText') = snd (api_gemini schema w rawText)
      /\ sent (snd (api_gemini schema w' rawText'))
         = sent (snd (api_gemini schema w rawText))).
Proof.
  intros H. unfold api_gemini. rewrite image_step_response, H.
  repeat split.
  - unfold malformed_response. destruct (development w); [reflexivity|].
    intros [E|E]; exfalso; apply E; reflexivity.
  - unfold malformed_response. rewrite H0. reflexivity.
  - unfold malformed_response. rewrite H0. reflexivity.
  - rewrite image_step_response, H2.
    destruct (malformed_response_production w' message' cleaned' H1) as [-> _].
    destruct (malformed_response_production w message cleaned H0) as [-> _].
    reflexivity.
  - rewrite image_step_response, H2.
    destruct (malformed_response_production w' message' cleaned' H1) as [_ ->].
    destruct (malformed_response_production w message cleaned H0) as [_ ->].
    reflexivity.
Qed.

(* ================================================================== *)
(** ** Independence of the world *)

(** C9.  The result of the normalisation is determined by the raw text and
    the schema: in any two worlds (value of [NODE_ENV], content of the
    console) the step takes the same branch, answers the same status and,
    on success, the same body; the step leaves [NODE_ENV] as it is and only
    appends to the console. *)
Theorem normalization_is_pure (schema : list jsstring) (rawText : jsstring)
  (w1 w2 : World) :
  status (snd (api_gemini schema w1 rawText))
  = status (snd (api_gemini schema w2 rawText))
  /\ (status (snd (api_gemini schema w1 rawText)) = 200 ->
      snd (api_gemini schema w1 rawText) = snd (api_gemini schema w2 rawText))
  /\ field (body (snd (api_gemini schema w1 rawText))) (js "error")
     = field (body (snd (api_gemini schema w2 rawText))) (js "error")
  /\ NODE_ENV (fst (api_gemini schema w1 rawText)) = NODE_ENV w1
  /\ exists entries,
       console (fst (api_gemini schema w1 rawText)) = console w1 ++ entries.
Proof.
  unfold api_gemini. rewrite !image_step_response. unfold image_step.
  destruct (normalize rawText schema) as [r|m t]; repeat split;
    try discriminate; simpl; rewrite <- ?app_assoc; eauto.
Qed.

(* ================================================================== *)
(** ** [JSON.parse] reads back what [JSON.stringify] writes *)

Lemma hex_value_digit (d : N) : d < 16 -> hex_value (hex_digit d) = Some d.
Proof.
  intros H. unfold hex_value, hex_digit, is_digit.
  destruct (N.ltb_spec d 10).
  - replace ((48 <=? 48 + d) && (48 + d <=? 57)) with true.
    + f_equal. lia.
    + symmetry. apply andb_true_iff. split; apply N.leb_le; lia.
  - replace ((48 <=? 87 + d) && (87 + d <=? 57)) with false.
    + replace ((97 <=? 87 + d) && (87 + d <=? 102)) with true.
      * f_equal. lia.
      * symmetry. apply andb_true_iff. split; apply N.leb_le; lia.
    + symmetry. apply andb_false_iff. right. apply N.leb_gt. lia.
Qed.

Lemma hex4_escape (c : N) :
  c < 65536 ->
  hex4 (hex_digit (c / 4096 mod 16)) (hex_digit (c / 256 mod 16))
       (hex_digit (c / 16 mod 16)) (hex_digit (c mod 16)) = Some c.
Proof.
  intros H. unfold hex4.
  rewrite !hex_value_digit by (apply N.mod_lt; discriminate).
  f_equal. zify. Z.to_euclidean_division_equations. lia.
Qed.

Lemma parse_unicode_escape (c : N) (rest : jsstring) :
  c < 65536 ->
  parse_string_body (unicode_escape c ++ rest)
  = prepend c (parse_string_body rest).
Proof.
  intros H. unfold unicode_escape. cbn [app parse_string_body].
  unfold BACKSLASH, QUOTE.
  change (92 =? 34) with false. change (92 =? 92) with true.
  change (117 =? 117) with true. cbv iota.
  now rewrite hex4_escape.
Qed.

Lemma surrogate_lt (c : N) :
  is_high_surrogate c || is_low_surrogate c = true -> c < 65536.
Proof.
  unfold is_high_surrogate, is_low_surrogate.
  rewrite orb_true_iff, !andb_true_iff, !N.leb_le. lia.
Qed.

(** A code unit that [quote_unit] writes as it is reads as itself. *)
Lemma parse_plain_unit (c : N) (rest : jsstring) :
  c <> QUOTE -> c <> BACKSLASH -> 32 <= c ->
  parse_string_body (c :: rest) = prepend c (parse_string_body rest).
Proof.
  intros Hq Hb Hc. cbn [parse_string_body].
  apply N.eqb_neq in Hq, Hb. rewrite Hq, Hb.
  replace (c <? 32) with false by (symmetry; apply N.ltb_ge; assumption).
  reflexivity.
Qed.

Lemma parse_quote_unit (c : N) (rest : jsstring) :
  parse_string_body (quote_unit c ++ rest)
  = prepend c (parse_string_body rest).
Proof.
  unfold quote_unit, QUOTE, BACKSLASH.
  repeat match goal with
         | |- context [if N.eqb ?a ?b then _ else _] =>
           destruct (N.eqb_spec a b);
             [subst; vm_compute N.eqb; reflexivity|]
         end.
  destruct (N.ltb_spec c 32).
  - apply parse_unicode_escape. lia.
  - destruct (is_high_surrogate c || is_low_surrogate c) eqn:E.
    + apply parse_unicode_escape. now apply surrogate_lt.
    + now apply parse_plain_unit.
Qed.

Lemma parse_surrogate (c : N) (rest : jsstring) :
  is_high_surrogate c || is_low_surrogate c = true ->
  parse_string_body (c :: rest) = prepend c (parse_string_body rest).
Proof.
  unfold is_high_surrogate, is_low_surrogate.
  rewrite orb_true_iff, !andb_true_iff, !N.leb_le. intros H.
  apply parse_plain_unit; unfold QUOTE, BACKSLASH; lia.
Qed.

(** The string literal written for [s] reads back as [s]. *)
Lemma parse_string_body_quote_units (s rest : jsstring) :
  parse_string_body (quote_units s ++ QUOTE :: rest) = Some (s, rest).
Proof.
  remember (List.length s) as n eqn:Hn.
  revert s Hn. induction n as [n IH] using lt_wf_ind. intros s Hn.
  destruct s as [|c r]; [reflexivity|].
  cbn [quote_units].
  destruct (is_high_surrogate c) eqn:Hc.
  - destruct r as [|d r'].
    + rewrite parse_unicode_escape
        by (apply surrogate_lt; rewrite Hc; reflexivity).
      reflexivity.
    + destruct (is_low_surrogate d) eqn:Hd.
      * cbn [app]. rewrite parse_surrogate by (rewrite Hc; reflexivity).
        rewrite parse_surrogate by (rewrite Hd; apply orb_true_r).
        rewrite (IH (List.length r')) by (subst n; simpl; lia || reflexivity).
        reflexivity.
      * rewrite <- app_assoc.
        rewrite parse_unicode_escape
          by (apply surrogate_lt; rewrite Hc; reflexivity).
        rewrite (IH (List.length (d :: r')))
          by (subst n; simpl; lia || reflexivity).
        reflexivity.
  - rewrite <- app_assoc, parse_quote_unit.
    rewrite (IH (List.length r)) by (subst n; simpl; lia || reflexivity).
    reflexivity.
Qed.

Lemma quote_app (s rest : jsstring) :
  quote s ++ rest = QUOTE :: quote_units s ++ QUOTE :: rest.
Proof. unfold quote. simpl. now rewrite <- app_assoc. Qed.

Lemma parse_value_quote (fuel : nat) (s rest : jsstring) :
  parse_value (S fuel) (quote s ++ rest) = Parsed (JStr s) rest.
Proof.
  rewrite quote_app. cbn [parse_value skip_ws].
  change (is_json_space QUOTE) with false. cbv iota.
  change (QUOTE =? 123) with false. change (QUOTE =? 91) with false.
  rewrite N.eqb_refl. cbv iota.
  now rewrite parse_string_body_quote_units.
Qed.

Lemma serialize_string_object (kvs : list (jsstring * jsstring)) :
  serialize (JObj (string_object kvs))
  = Some (js "{" ++ join (js ",") (map member_text kvs) ++ js "}").
Proof.
  cbn [serialize]. do 4 f_equal.
  unfold string_object. induction kvs as [|e kvs IH]; [reflexivity|].
  cbn [map flat_map serialize fst snd]. now rewrite IH.
Qed.

(** One member with a string value, and what follows it. *)
Lemma parse_members_step (fuel : nat) (acc : list (jsstring * jsval))
  (k s rest : jsstring) :
  parse_members (S (S fuel)) acc (member_text (k, s) ++ rest)
  = match skip_ws rest with
    | [] => Malformed
    | e :: r =>
      if e =? 44
      then parse_members (S fuel) (obj_set acc k (JStr s)) (skip_ws r)
      else if e =? 125 then Parsed (JObj (obj_set acc k (JStr s))) r
      else Malformed
    end.
Proof.
  remember (S fuel) as fuel1 eqn:E.
  unfold member_text. cbn [fst snd].
  rewrite <- !app_assoc, quote_app.
  cbn [parse_members]. rewrite N.eqb_refl.
  rewrite parse_string_body_quote_units.
  change (js ":") with [58]. cbn [app skip_ws].
  change (is_json_space 58) with false. cbv iota.
  rewrite N.eqb_refl. subst fuel1. now rewrite parse_value_quote.
Qed.

Lemma skip_ws_member_text (e : jsstring * jsstring) (rest : jsstring) :
  skip_ws (member_text e ++ rest) = member_text e ++ rest.
Proof.
  unfold member_text. rewrite <- !app_assoc, quote_app. reflexivity.
Qed.

Lemma parse_members_strings (kvs : list (jsstring * jsstring)) :
  forall e fuel acc rest,
  (List.length kvs + 2 <= fuel)%nat ->
  parse_members fuel acc
    (join (js ",") (map member_text (e :: kvs)) ++ 125 :: rest)
  = Parsed
      (JObj (fold_left (fun a x => obj_set a (fst x) (JStr (snd x)))
               (e :: kvs) acc))
      rest.
Proof.
  induction kvs as [|e' kvs IH]; intros [k s] fuel acc rest Hfuel.
  - destruct fuel as [|[|fuel]]; try (simpl in Hfuel; lia).
    cbn [map join fold_left fst snd].
    rewrite parse_members_step. cbn [skip_ws].
    change (is_json_space 125) with false. cbv iota.
    change (125 =? 44) with false. now rewrite N.eqb_refl.
  - destruct fuel as [|[|fuel]]; try (simpl in Hfuel; lia).
    change (join (js ",") (map member_text ((k, s) :: e' :: kvs)))
      with (member_text (k, s) ++ js ","
            ++ join (js ",") (map member_text (e' :: kvs))).
    rewrite <- !app_assoc, parse_members_step.
    change (js "," ++ ?x) with (44 :: x). cbn [skip_ws fold_left fst snd].
    change (is_json_space 44) with false. cbv iota.
    rewrite N.eqb_refl.
    replace (skip_ws
               (join (js ",") (map member_text (e' :: kvs)) ++ 125 :: rest))
      with (join (js ",") (map member_text (e' :: kvs)) ++ 125 :: rest).
    + rewrite IH by (simpl in Hfuel |- *; lia). reflexivity.
    + cbn [map join]. destruct (map member_text kvs);
        rewrite <- ?app_assoc; now rewrite skip_ws_member_text.
Qed.

Lemma join_member_text_length (kvs : list (jsstring * jsstring)) :
  (List.length kvs <= List.length (join (js ",") (map member_text kvs)))%nat.
Proof.
  induction kvs as [|e kvs IH]; [simpl; lia|].
  assert (H : (1 <= List.length (member_text e))%nat)
    by (unfold member_text, quote; simpl; lia).
  cbn [map join]. destruct (map member_text kvs) eqn:E.
  - destruct kvs; [simpl; lia | discriminate].
  - rewrite !length_app. cbn [List.length] in IH |- *. lia.
Qed.

Lemma parse_value_string_object (kvs : list (jsstring * jsstring))
  (fuel : nat) :
  (List.length kvs + 2 <= fuel)%nat ->
  parse_value (S fuel)
    (js "{" ++ join (js ",") (map member_text kvs) ++ js "}")
  = Parsed
      (JObj (fold_left (fun a x => obj_set a (fst x) (JStr (snd x))) kvs []))
      [].
Proof.
  intros Hfuel. change (js "{" ++ ?x) with (123 :: x).
  change (js "}") with [125].
  cbn [parse_value skip_ws]. change (is_json_space 123) with false.
  cbv iota. rewrite N.eqb_refl.
  destruct kvs as [|e kvs]; [reflexivity|].
  replace (skip_ws (join (js ",") (map member_text (e :: kvs)) ++ [125]))
    with (join (js ",") (map member_text (e :: kvs)) ++ [125]).
  - destruct (join (js ",") (map member_text (e :: kvs)) ++ [125])
      as [|d r] eqn:E.
    + exfalso. cbn [map join] in E.
      destruct (map member_text kvs); unfold member_text in E;
        rewrite <- ?app_assoc, quote_app in E; discriminate.
    + assert (Hd : d = QUOTE).
      { cbn [map join] in E.
        destruct (map member_text kvs); unfold member_text in E;
          rewrite <- ?app_assoc, quote_app in E; now injection E. }
      subst d. change (QUOTE =? 125) with false. cbv iota.
      rewrite <- E. apply parse_members_strings. simpl in Hfuel. lia.
  - cbn [map join]. destruct (map member_text kvs);
      rewrite <- ?app_assoc; now rewrite skip_ws_member_text.
Qed.

(** [JSON.parse] of the serialisation of an object of strings creates its
    properties one after the other. *)
Lemma JSON_parse_string_object (kvs : list (jsstring * jsstring)) :
  JSON_parse (js "{" ++ join (js ",") (map member_text kvs) ++ js "}")
  = inr (JObj (fold_left (fun a x => obj_set a (fst x) (JStr (snd x)))
                 kvs [])).
Proof.
  assert (Hlen : (List.length kvs + 2
                  <= 2 * List.length
                       (js "{" ++ join (js ",") (map member_text kvs)
                        ++ js "}"))%nat).
  { pose proof (join_member_text_length kvs). rewrite !length_app.
    change (List.length (js "{")) with 1%nat.
    change (List.length (js "}")) with 1%nat. lia. }
  unfold JSON_parse. rewrite Nat.add_1_r.
  now rewrite parse_value_string_object.
Qed.

Lemma obj_get_string_object (kvs : list (jsstring * jsstring))
  (k : jsstring) :
  obj_get (string_object kvs) k
  = match obj_get kvs k with Some s => Some (JStr s) | None => None end.
Proof.
  unfold string_object. induction kvs as [|[k0 s0] kvs IH]; [reflexivity|].
  simpl. now destruct (jsstring_eqb k0 k).
Qed.

Lemma obj_keys_string_object (kvs : list (jsstring * jsstring)) :
  obj_keys (string_object kvs) = obj_keys kvs.
Proof.
  unfold obj_keys, string_object. rewrite map_map. reflexivity.
Qed.

(* ================================================================== *)
(** ** Texts without three backticks in a row *)

Lemma no_fence_other (run : nat) (c : N) (r : jsstring) :
  c <> BACKTICK -> no_fence run (c :: r) = no_fence 0 r.
Proof. intros H. simpl. apply N.eqb_neq in H. now rewrite H. Qed.

Lemma no_fence_tail (run : nat) (c : N) (r : jsstring) :
  no_fence run (c :: r) = true -> exists run', no_fence run' r = true.
Proof.
  simpl. destruct (c =? BACKTICK); [|eauto].
  destruct run as [|[|run]]; [eauto | eauto | discriminate].
Qed.

Lemma no_fence_match (run : nat) (s : jsstring) :
  no_fence run s = true -> fence_match_length s = 0%nat.
Proof.
  unfold fence_match_length. rewrite js_fence, js_fence_json.
  unfold BACKTICK, NEWLINE.
  do 4 (destruct s as [|? s];
        [simpl; unfold BACKTICK; split_eqb; try reflexivity;
         destruct run as [|[|run]]; intros; reflexivity || discriminate|]).
  simpl; unfold BACKTICK; split_eqb; try reflexivity;
    destruct run as [|[|run]]; intros; reflexivity || discriminate.
Qed.

(** The replacement leaves such a text as it is. *)
Lemma replace_fences_no_fence (s : jsstring) :
  forall run, no_fence run s = true -> replace_fences_from 0 s = s.
Proof.
  induction s as [|c r IH]; intros run H; [reflexivity|].
  cbn [replace_fences_from]. rewrite (no_fence_match run _ H).
  destruct (no_fence_tail _ _ _ H) as [run' H']. f_equal. eauto.
Qed.

Lemma hex_digit_not_backtick (d : N) : d < 16 -> hex_digit d <> BACKTICK.
Proof.
  unfold hex_digit, BACKTICK. intros H. destruct (N.ltb_spec d 10); lia.
Qed.

Lemma no_fence_unicode_escape (run : nat) (c : N) (x : jsstring) :
  no_fence run (unicode_escape c ++ x) = no_fence 0 x.
Proof.
  unfold unicode_escape. cbn [app].
  rewrite no_fence_other by (unfold BACKSLASH, BACKTICK; lia).
  rewrite no_fence_other by (unfold BACKTICK; lia).
  rewrite !no_fence_other
    by (apply hex_digit_not_backtick; apply N.mod_lt; discriminate).
  reflexivity.
Qed.

Lemma no_fence_quote_unit (run : nat) (c : N) (x : jsstring) :
  c <> BACKTICK -> no_fence run (quote_unit c ++ x) = no_fence 0 x.
Proof.
  intros Hc. unfold quote_unit, QUOTE, BACKSLASH.
  repeat match goal with
         | |- context [if N.eqb ?a ?b then _ else _] =>
           destruct (N.eqb_spec a b); [reflexivity|]
         end.
  destruct (c <? 32); [apply no_fence_unicode_escape|].
  destruct (is_high_surrogate c || is_low_surrogate c);
    [apply no_fence_unicode_escape|].
  now apply no_fence_other.
Qed.

Lemma surrogate_not_backtick (c : N) :
  is_high_surrogate c || is_low_surrogate c = true -> c <> BACKTICK.
Proof.
  unfold is_high_surrogate, is_low_surrogate, BACKTICK.
  rewrite orb_true_iff, !andb_true_iff, !N.leb_le. lia.
Qed.

(** Quoting a string adds no backtick. *)
Lemma no_fence_quote_units (s rest : jsstring) :
  no_fence 0 rest = true ->
  forall run, no_fence run s = true ->
  no_fence run (quote_units s ++ QUOTE :: rest) = true.
Proof.
  intros Hrest. remember (List.length s) as n eqn:Hn.
  revert s Hn. induction n as [n IH] using lt_wf_ind. intros s Hn run H.
  destruct s as [|c r]; [exact Hrest|].
  cbn [quote_units]. destruct (is_high_surrogate c) eqn:Hc.
  - assert (Hc' : c <> BACKTICK)
      by (apply surrogate_not_backtick; now rewrite Hc).
    rewrite no_fence_other in H by assumption.
    destruct r as [|d r'].
    + now rewrite no_fence_unicode_escape.
    + destruct (is_low_surrogate d) eqn:Hd.
      * assert (Hd' : d <> BACKTICK)
          by (apply surrogate_not_backtick; rewrite Hd; apply orb_true_r).
        rewrite no_fence_other in H by assumption.
        cbn [app]. rewrite !no_fence_other by assumption.
        apply (IH (List.length r')); subst n; simpl; auto; lia.
      * rewrite <- app_assoc, no_fence_unicode_escape.
        apply (IH (List.length (d :: r'))); subst n; simpl; auto; lia.
  - rewrite <- app_assoc. destruct (N.eqb_spec c BACKTICK) as [->|Hc'].
    + change (quote_unit BACKTICK) with [BACKTICK]. cbn [app].
      simpl in H |- *. destruct run as [|[|run]]; try discriminate;
        (apply (IH (List.length r)); subst n; simpl; auto; lia).
    + rewrite no_fence_quote_unit by assumption.
      rewrite no_fence_other in H by assumption.
      apply (IH (List.length r)); subst n; simpl; auto; lia.
Qed.

Lemma no_fence_member_text (k s rest : jsstring) :
  no_fence 0 k = true -> no_fence 0 s = true -> no_fence 0 rest = true ->
  no_fence 0 (member_text (k, s) ++ rest) = true.
Proof.
  intros Hk Hs Hrest. unfold member_text. cbn [fst snd].
  rewrite <- !app_assoc, quote_app.
  rewrite no_fence_other by (unfold QUOTE, BACKTICK; lia).
  apply no_fence_quote_units; [|assumption].
  change (js ":") with [58]. cbn [app].
  rewrite no_fence_other by (unfold BACKTICK; lia).
  rewrite quote_app.
  rewrite no_fence_other by (unfold QUOTE, BACKTICK; lia).
  now apply no_fence_quote_units.
Qed.

Lemma no_fence_members (kvs : list (jsstring * jsstring)) :
  (forall k s, In (k, s) kvs -> no_fence 0 k = true /\ no_fence 0 s = true) ->
  no_fence 0 (join (js ",") (map member_text kvs) ++ js "}") = true.
Proof.
  induction kvs as [|[k s] kvs IH]; intros H; [reflexivity|].
  destruct (H k s (or_introl eq_refl)) as [Hk Hs].
  assert (IH' := IH (fun k' s' Hin => H k' s' (or_intror Hin))).
  cbn [map join]. destruct (map member_text kvs) eqn:E.
  - now apply no_fence_member_text.
  - rewrite <- !app_assoc. apply no_fence_member_text; assumption.
Qed.

Lemma has_fence_length (s : jsstring) :
  has_fence s -> (3 <= List.length s)%nat.
Proof.
  intros [a [b ->]]. rewrite !length_app.
  change (List.length (js "```")) with 3%nat. lia.
Qed.

Lemma has_fence_cons (c : N) (s : jsstring) :
  has_fence s -> has_fence (c :: s).
Proof. intros [a [b ->]]. now exists (c :: a), b. Qed.

Lemma has_fence_uncons (c : N) (s : jsstring) :
  c <> BACKTICK -> has_fence (c :: s) -> has_fence s.
Proof.
  intros Hc [[|c' a] [b E]]; rewrite js_fence in E; cbn [app] in E.
  - injection E as E _. contradiction.
  - injection E as _ E. exists a, b. now rewrite js_fence.
Qed.

Lemma has_fence_uncons_run (run : nat) (c : N) (s : jsstring) :
  (run <= 2)%nat -> c <> BACKTICK ->
  has_fence (repeat BACKTICK run ++ c :: s) -> has_fence s.
Proof.
  intros Hrun Hc H.
  destruct run as [|[|[|run]]]; [| | |lia]; cbn [repeat app] in H.
  - now apply has_fence_uncons in H.
  - destruct H as [[|c' a] [b E]]; rewrite js_fence in E; cbn [app] in E.
    + inversion E. congruence.
    + injection E as _ E. apply (has_fence_uncons c); [assumption|].
      exists a, b. now rewrite js_fence.
  - destruct H as [[|c1 [|c2 a]] [b E]]; rewrite js_fence in E;
      cbn [app] in E.
    + inversion E. congruence.
    + inversion E. congruence.
    + injection E as _ _ E. apply (has_fence_uncons c); [assumption|].
      exists a, b. now rewrite js_fence.
Qed.

(** [no_fence] decides the absence of a fence marker. *)
Lemma no_fence_spec_from (s : jsstring) :
  forall run, (run <= 2)%nat ->
  no_fence run s = true <-> ~ has_fence (repeat BACKTICK run ++ s).
Proof.
  induction s as [|c r IH]; intros run Hrun.
  - split; [|reflexivity]. intros _ H. apply has_fence_length in H.
    rewrite length_app, repeat_length in H. simpl in H. lia.
  - cbn [no_fence]. destruct (N.eqb_spec c BACKTICK) as [->|Hc].
    + destruct run as [|[|[|run]]]; [| | |lia].
      * apply (IH 1%nat). lia.
      * apply (IH 2%nat). lia.
      * split; [discriminate|]. intros H. exfalso. apply H.
        now exists [], r.
    + rewrite (IH 0%nat) by lia. cbn [repeat app]. split.
      * intros H H'. apply H. eapply has_fence_uncons_run; eassumption.
      * intros H H'. apply H. clear H.
        induction run as [|run IHrun]; cbn [repeat app].
        -- now apply has_fence_cons.
        -- apply has_fence_cons. apply IHrun. lia.
Qed.

Lemma no_fence_spec (s : jsstring) :
  no_fence 0 s = true <-> ~ has_fence s.
Proof. apply (no_fence_spec_from s 0). lia. Qed.

(* ================================================================== *)
(** ** Trimming *)

Lemma trim_start_plain (c : N) (s : jsstring) :
  is_js_space c = false -> trim_start (c :: s) = c :: s.
Proof. intros H. simpl. now rewrite H. Qed.

Lemma trim_end_plain (c : N) (s : jsstring) :
  is_js_space c = false -> trim_end (s ++ [c]) = s ++ [c].
Proof.
  intros H. unfold trim_end. rewrite rev_unit.
  rewrite trim_start_plain by assumption.
  cbn [rev]. now rewrite rev_involutive.
Qed.

(** A text between braces is trimmed already. *)
Lemma trim_braces (s : jsstring) :
  trim (js "{" ++ s ++ js "}") = js "{" ++ s ++ js "}".
Proof.
  unfold trim. change (js "{" ++ ?x) with (123 :: x).
  rewrite trim_start_plain by reflexivity.
  change (123 :: s ++ js "}") with ((123 :: s) ++ [125]).
  now apply trim_end_plain.
Qed.

(** The serialisation of an object of strings that have no three backticks
    in a row is clean already. *)
Lemma clean_string_object (kvs : list (jsstring * jsstring)) :
  (forall k s, In (k, s) kvs -> no_fence 0 k = true /\ no_fence 0 s = true) ->
  clean (js "{" ++ join (js ",") (map member_text kvs) ++ js "}")
  = js "{" ++ join (js ",") (map member_text kvs) ++ js "}".
Proof.
  intros H. unfold clean, replace_fences.
  rewrite (replace_fences_no_fence _ 0); [apply trim_braces|].
  change (js "{" ++ ?x) with (123 :: x).
  rewrite no_fence_other by (unfold BACKTICK; lia).
  now apply no_fence_members.
Qed.

(** C2 (amended).  For every schema and every object whose values are
    strings, when no key and no value contains three backticks in a row,
    [normalize] succeeds on the serialisation of the object, and each field
    of the schema is the string that the object has for it, or [null] when
    the object does not have it. *)
Theorem normalize_string_object (schema : list jsstring)
  (kvs : list (jsstring * jsstring)) :
  NoDup (obj_keys kvs) ->
  (forall k s, In (k, s) kvs -> no_fence 0 k = true /\ no_fence 0 s = true) ->
  exists text r,
    serialize (JObj (string_object kvs)) = Some text
    /\ normalize text schema = Normalized r
    /\ forall f, In f schema ->
       obj_get r f = Some match obj_get (string_object kvs) f with
                          | Some v => v
                          | None => JNull
                          end.
Proof.
  intros Hnd Hfree. do 2 eexists.
  split; [apply serialize_string_object|].
  unfold normalize. rewrite clean_string_object by assumption.
  rewrite (parse_flat_object _ _ (JSON_parse_string_object kvs)).
  split; [reflexivity|]. intros f Hf.
  assert (Hget : forall k,
    obj_get (fold_left (fun a x => obj_set a (fst x) (JStr (snd x))) kvs []) k
    = obj_get (string_object kvs) k).
  { intros k. rewrite (obj_get_fold_set JStr) by assumption.
    rewrite obj_get_string_object. now destruct (obj_get kvs k). }
  rewrite obj_get_normalized; try assumption.
  - rewrite Hget, obj_get_string_object.
    now destruct (obj_get kvs f).
  - pose proof (JSON_parse_shape _ _ (JSON_parse_string_object kvs)) as Hs.
    exact Hs.
Qed.

(* ================================================================== *)
(** ** The bound on the recursion of [JSON.parse] is never reached *)

Lemma skip_ws_length (s : jsstring) :
  (List.length (skip_ws s) <= List.length s)%nat.
Proof.
  induction s as [|c r IH]; simpl; [lia|].
  destruct (is_json_space c); simpl; lia.
Qed.

Lemma prepend_length (c : N) (p : option (jsstring * jsstring))
  (str r : jsstring) :
  prepend c p = Some (str, r) -> exists str', p = Some (str', r).
Proof.
  destruct p as [[str' r']|]; simpl; [|discriminate].
  intros [= <- <-]. eauto.
Qed.

Lemma parse_string_body_length (s : jsstring) :
  forall str r, parse_string_body s = Some (str, r) ->
  (List.length r < List.length s)%nat.
Proof.
  remember (List.length s) as n eqn:Hn.
  revert s Hn. induction n as [n IH] using lt_wf_ind. intros s Hn str r H.
  destruct s as [|c s1]; [discriminate|]. cbn [parse_string_body] in H.
  destruct (c =? QUOTE).
  { injection H as <- <-. subst n. simpl. lia. }
  destruct (c =? BACKSLASH).
  - destruct s1 as [|e s2]; [discriminate|].
    destruct (e =? 117).
    + destruct s2 as [|h1 [|h2 [|h3 [|h4 s6]]]]; try discriminate.
      destruct (hex4 h1 h2 h3 h4); [|discriminate].
      apply prepend_length in H. destruct H as [str' H].
      apply (IH (List.length s6)) in H; subst n; simpl in *; lia.
    + destruct (escape_unit e); [|discriminate].
      apply prepend_length in H. destruct H as [str' H].
      apply (IH (List.length s2)) in H; subst n; simpl in *; lia.
  - destruct (c <? 32); [discriminate|].
    apply prepend_length in H. destruct H as [str' H].
    apply (IH (List.length s1)) in H; subst n; simpl in *; lia.
Qed.

Lemma span_digits_length (s : jsstring) :
  (List.length (snd (span_digits s)) <= List.length s)%nat.
Proof.
  induction s as [|c r IH]; simpl; [lia|].
  destruct (is_digit c); [|simpl; lia].
  destruct (span_digits r). simpl in *. lia.
Qed.

Lemma lex_fraction_length (s l r : jsstring) :
  lex_fraction s = Some (l, r) -> (List.length r <= List.length s)%nat.
Proof.
  unfold lex_fraction. destruct s as [|c s1]; [intros [= <- <-]; lia|].
  destruct (c =? 46).
  - pose proof (span_digits_length s1) as Hs.
    destruct (span_digits s1) as [[|d ds] rest]; [discriminate|].
    intros [= <- <-]. simpl in *. lia.
  - intros [= <- <-]. lia.
Qed.

Lemma lex_exponent_length (s l r : jsstring) :
  lex_exponent s = Some (l, r) -> (List.length r <= List.length s)%nat.
Proof.
  unfold lex_exponent. destruct s as [|c s1]; [intros [= <- <-]; lia|].
  destruct ((c =? 101) || (c =? 69)); [|intros [= <- <-]; lia].
  destruct s1 as [|d s2].
  - simpl. discriminate.
  - destruct ((d =? 43) || (d =? 45)).
    + pose proof (span_digits_length s2) as Hs.
      destruct (span_digits s2) as [[|x ds] rest]; [discriminate|].
      intros [= <- <-]. simpl in *. lia.
    + pose proof (span_digits_length (d :: s2)) as Hs.
      destruct (span_digits (d :: s2)) as [[|x ds] rest]; [discriminate|].
      intros [= <- <-]. simpl in *. lia.
Qed.

Lemma lex_integer_length (s i r : jsstring) :
  lex_integer s = Some (i, r) -> (List.length r < List.length s)%nat.
Proof.
  unfold lex_integer. destruct s as [|c r0]; [discriminate|].
  destruct (c =? 48); [intros [= <- <-]; simpl; lia|].
  destruct (is_digit c); [|discriminate].
  pose proof (span_digits_length r0) as Hs.
  destruct (span_digits r0). intros [= <- <-]. simpl in *. lia.
Qed.

Lemma lex_unsigned_length (s l r : jsstring) :
  lex_unsigned s = Some (l, r) -> (List.length r < List.length s)%nat.
Proof.
  unfold lex_unsigned.
  destruct (lex_integer s) as [[i r1]|] eqn:Ei; [|discriminate].
  apply lex_integer_length in Ei.
  destruct (lex_fraction r1) as [[f r2]|] eqn:Ef; [|discriminate].
  apply lex_fraction_length in Ef.
  destruct (lex_exponent r2) as [[e r3]|] eqn:Ee; [|discriminate].
  apply lex_exponent_length in Ee. intros [= _ <-]. lia.
Qed.

Lemma lex_number_length (s l r : jsstring) :
  lex_number s = Some (l, r) -> (List.length r < List.length s)%nat.
Proof.
  unfold lex_number. destruct s as [|c s1]; [discriminate|].
  destruct (c =? 45).
  - destruct (lex_unsigned s1) as [[l' r']|] eqn:E; [|discriminate].
    apply lex_unsigned_length in E. intros [= _ <-]. simpl. lia.
  - apply lex_unsigned_length.
Qed.

Ltac length_facts :=
  repeat match goal with
         | H : skip_ws ?s = _ |- _ =>
           let L := fresh "L" in
           pose proof (skip_ws_length s) as L; rewrite H in L;
           revert H
         | H : parse_string_body _ = Some _ |- _ =>
           apply parse_string_body_length in H
         | H : lex_number _ = Some _ |- _ =>
           apply lex_number_length in H
         end;
  intros.

(** A value is read from a non-empty prefix of the text. *)
Lemma parse_consumes (fuel : nat) :
  (forall s v r, parse_value fuel s = Parsed v r ->
   (List.length r < List.length s)%nat)
  /\ (forall acc s v r, parse_members fuel acc s = Parsed v r ->
      (List.length r < List.length s)%nat)
  /\ (forall acc s v r, parse_elements fuel acc s = Parsed v r ->
      (List.length r < List.length s)%nat).
Proof.
  induction fuel as [|fuel [IHv [IHm IHe]]].
  - repeat split; intros; discriminate.
  - repeat split.
    + intros s v r H. cbn [parse_value] in H.
      repeat break_match_hyp; try discriminate;
        try (injection H as <- <-);
        try (apply IHm in H); try (apply IHe in H);
        length_facts;
        repeat match goal with
               | |- context [match ?j with [] => _ | _ :: _ => _ end] =>
                 destruct j
               end;
        cbn [List.length] in *; lia.
    + intros acc s v r H. cbn [parse_members] in H.
      repeat break_match_hyp; try discriminate;
        try (injection H as <- <-); try (apply IHm in H);
        repeat match goal with
               | H' : parse_value _ _ = Parsed _ _ |- _ => apply IHv in H'
               end;
        length_facts;
        repeat match goal with
               | H' : context [skip_ws ?l] |- _ =>
                 let L := fresh "L" in
                 pose proof (skip_ws_length l) as L;
                 generalize dependent (skip_ws l); intros
               end;
        cbn [List.length] in *; lia.
    + intros acc s v r H. cbn [parse_elements] in H.
      repeat break_match_hyp; try discriminate;
        try (injection H as <- <-); try (apply IHe in H);
        repeat match goal with
               | H' : parse_value _ _ = Parsed _ _ |- _ => apply IHv in H'
               end;
        length_facts; cbn [List.length] in *; lia.
Qed.

(** With the bound that [JSON_parse] gives, the parser ends by itself. *)
Lemma parse_fuel (fuel : nat) :
  (forall s, (2 * List.length s + 1 <= fuel)%nat ->
   parse_value fuel s <> OutOfFuel)
  /\ (forall acc s, (2 * List.length s + 2 <= fuel)%nat ->
      parse_members fuel acc s <> OutOfFuel)
  /\ (forall acc s, (2 * List.length s + 2 <= fuel)%nat ->
      parse_elements fuel acc s <> OutOfFuel).
Proof.
  induction fuel as [|fuel [IHv [IHm IHe]]].
  - repeat split; intros; lia.
  - repeat split.
    + intros s Hs. cbn [parse_value].
      destruct (skip_ws s) as [|c r] eqn:E; [discriminate|].
      length_facts.
      destruct (c =? 123).
      { destruct (skip_ws r) as [|d r'] eqn:E'; [discriminate|].
        length_facts. destruct (d =? 125); [discriminate|].
        apply IHm. cbn [List.length] in *. lia. }
      destruct (c =? 91).
      { destruct (skip_ws r) as [|d r'] eqn:E'; [discriminate|].
        length_facts. destruct (d =? 93); [discriminate|].
        apply IHe. cbn [List.length] in *. lia. }
      destruct (c =? QUOTE).
      { destruct (parse_string_body r) as [[? ?]|]; discriminate. }
      destruct (starts_with (js "true") (c :: r)); [discriminate|].
      destruct (starts_with (js "false") (c :: r)); [discriminate|].
      destruct (starts_with (js "null") (c :: r)); [discriminate|].
      destruct (lex_number (c :: r)) as [[? ?]|]; discriminate.
    + intros acc s Hs. cbn [parse_members].
      destruct s as [|c r]; [discriminate|].
      destruct (c =? QUOTE); [|discriminate].
      destruct (parse_string_body r) as [[k r1]|] eqn:Ek; [|discriminate].
      destruct (skip_ws r1) as [|d r2] eqn:E1; [discriminate|].
      destruct (d =? 58); [|discriminate].
      length_facts.
      destruct (parse_value fuel r2) as [v r3| |] eqn:Ev.
      * apply (proj1 (parse_consumes fuel)) in Ev.
        destruct (skip_ws r3) as [|e r4] eqn:E3; [discriminate|].
        length_facts. destruct (e =? 44).
        -- apply IHm. pose proof (skip_ws_length r4).
           cbn [List.length] in *. lia.
        -- destruct (e =? 125); discriminate.
      * discriminate.
      * exfalso. revert Ev. apply IHv. cbn [List.length] in *. lia.
    + intros acc s Hs. cbn [parse_elements].
      destruct (parse_value fuel s) as [v r1| |] eqn:Ev.
      * apply (proj1 (parse_consumes fuel)) in Ev.
        destruct (skip_ws r1) as [|e r2] eqn:E1; [discriminate|].
        length_facts. destruct (e =? 44).
        -- apply IHe. cbn [List.length] in *. lia.
        -- destruct (e =? 93); discriminate.
      * discriminate.
      * exfalso. revert Ev. apply IHv. lia.
Qed.

(** [JSON.parse] never fails for lack of fuel. *)
Lemma JSON_parse_fuel (text : jsstring) :
  parse_value (2 * List.length text + 1) text <> OutOfFuel.
Proof. apply (proj1 (parse_fuel _)). lia. Qed.

(* ================================================================== *)
(** ** The code block around the text *)

(** C3 (amended).  For every schema and every text, [normalize] gives on
    the text wrapped in the code block [```json], newline, text, newline,
    [```] what it gives on the text itself, success or failure alike. *)
Theorem normalize_fenced (schema : list jsstring) (t : jsstring) :
  normalize (fenced t) schema = normalize t schema.
Proof. unfold normalize. now rewrite clean_fenced_eq. Qed.

(* ================================================================== *)
(** ** A number literal followed by more text *)

Lemma delimited_stops (rest : jsstring) : delimited rest -> stops rest.
Proof using.
  destruct rest as [|c r]; [exact id|].
  intros [-> | [-> | ->]]; repeat split; try reflexivity; discriminate.
Qed.

Lemma span_digits_app (s ds r rest : jsstring) :
  span_digits s = (ds, r) ->
  r <> [] \/ stops rest ->
  span_digits (s ++ rest) = (ds, r ++ rest).
Proof using.
  revert ds r. induction s as [|c s IH]; intros ds r H Hc.
  - injection H as <- <-. destruct Hc as [Hc|Hc]; [now contradiction Hc|].
    destruct rest as [|c rest]; [reflexivity|].
    cbn [app span_digits]. now rewrite (proj1 Hc).
  - cbn [span_digits] in H. cbn [app span_digits].
    destruct (is_digit c).
    + destruct (span_digits s) as [ds' r'] eqn:E. injection H as <- <-.
      now rewrite (IH ds' r' eq_refl Hc).
    + now injection H as <- <-.
Qed.

Lemma lex_fraction_app (s f r rest : jsstring) :
  lex_fraction s = Some (f, r) ->
  r <> [] \/ stops rest ->
  lex_fraction (s ++ rest) = Some (f, r ++ rest).
Proof using.
  intros H Hc. destruct s as [|c s].
  - injection H as <- <-. destruct Hc as [Hc|Hc]; [now contradiction Hc|].
    destruct rest as [|c rest]; [reflexivity|].
    cbn [app lex_fraction]. destruct Hc as [_ [Hc _]].
    apply N.eqb_neq in Hc. now rewrite Hc.
  - cbn [lex_fraction] in H. cbn [app lex_fraction].
    destruct (c =? 46).
    + destruct (span_digits s) as [[|d ds] r'] eqn:E; [discriminate|].
      injection H as <- <-. now rewrite (span_digits_app _ _ _ _ E Hc).
    + now injection H as <- <-.
Qed.

Lemma lex_exponent_app (s e r rest : jsstring) :
  lex_exponent s = Some (e, r) ->
  r <> [] \/ stops rest ->
  lex_exponent (s ++ rest) = Some (e, r ++ rest).
Proof using.
  intros H Hc. destruct s as [|c s].
  - injection H as <- <-. destruct Hc as [Hc|Hc]; [now contradiction Hc|].
    destruct rest as [|c rest]; [reflexivity|].
    cbn [app lex_exponent]. destruct Hc as [_ [_ [H1 H2]]].
    apply N.eqb_neq in H1, H2. now rewrite H1, H2.
  - cbn [lex_exponent] in H. cbn [app lex_exponent].
    destruct ((c =? 101) || (c =? 69)); [|now injection H as <- <-].
    destruct s as [|d s].
    + simpl in H. discriminate.
    + cbn [app]. destruct ((d =? 43) || (d =? 45)).
      * destruct (span_digits s) as [[|x ds] r'] eqn:E; [discriminate|].
        injection H as <- <-. now rewrite (span_digits_app _ _ _ _ E Hc).
      * destruct (span_digits (d :: s)) as [[|x ds] r'] eqn:E;
          [discriminate|].
        injection H as <- <-.
        change (d :: s ++ rest) with ((d :: s) ++ rest).
        now rewrite (span_digits_app _ _ _ _ E Hc).
Qed.

Lemma lex_integer_app (s i r rest : jsstring) :
  lex_integer s = Some (i, r) ->
  r <> [] \/ stops rest ->
  lex_integer (s ++ rest) = Some (i, r ++ rest).
Proof using.
  intros H Hc. destruct s as [|c s]; [discriminate|].
  cbn [lex_integer] in H. cbn [app lex_integer].
  destruct (c =? 48); [now injection H as <- <-|].
  destruct (is_digit c); [|discriminate].
  destruct (span_digits s) as [ds r'] eqn:E. injection H as <- <-.
  now rewrite (span_digits_app _ _ _ _ E Hc).
Qed.

Lemma lex_unsigned_app (s l r rest : jsstring) :
  lex_unsigned s = Some (l, r) ->
  r <> [] \/ stops rest ->
  lex_unsigned (s ++ rest) = Some (l, r ++ rest).
Proof using.
  unfold lex_unsigned. intros H Hc.
  destruct (lex_integer s) as [[i r1]|] eqn:Ei; [|discriminate].
  destruct (lex_fraction r1) as [[f r2]|] eqn:Ef; [|discriminate].
  destruct (lex_exponent r2) as [[e r3]|] eqn:Ee; [|discriminate].
  injection H as <- <-.
  assert (H2 : r2 <> [] \/ stops rest).
  { destruct Hc as [Hc|Hc]; [left | now right].
    intros ->. injection Ee as _ <-. now apply Hc. }
  assert (H1 : r1 <> [] \/ stops rest).
  { destruct H2 as [H2|H2]; [left | now right].
    intros ->. injection Ef as _ <-. now apply H2. }
  rewrite (lex_integer_app _ _ _ _ Ei H1).
  rewrite (lex_fraction_app _ _ _ _ Ef H2).
  now rewrite (lex_exponent_app _ _ _ _ Ee Hc).
Qed.

Lemma lex_number_app (s l r rest : jsstring) :
  lex_number s = Some (l, r) ->
  r <> [] \/ stops rest ->
  lex_number (s ++ rest) = Some (l, r ++ rest).
Proof using.
  intros H Hc. destruct s as [|c s]; [discriminate|].
  cbn [lex_number] in H. cbn [app lex_number].
  destruct (c =? 45).
  - destruct (lex_unsigned s) as [[l' r']|] eqn:E; [|discriminate].
    injection H as <- <-. now rewrite (lex_unsigned_app _ _ _ _ E Hc).
  - change (c :: s ++ rest) with ((c :: s) ++ rest).
    now apply lex_unsigned_app.
Qed.

(** A number literal starts with a minus sign or a digit. *)
Lemma lex_number_head (s l r : jsstring) :
  lex_number s = Some (l, r) ->
  exists c s', s = c :: s' /\ (c = 45 \/ is_digit c = true).
Proof using.
  destruct s as [|c s]; [discriminate|]. intros H. exists c, s.
  split; [reflexivity|]. cbn [lex_number] in H.
  destruct (N.eqb_spec c 45) as [->|Hc]; [now left|]. right.
  unfold lex_unsigned in H. cbn [lex_integer] in H.
  destruct (N.eqb_spec c 48) as [->|H0]; [reflexivity|].
  now destruct (is_digit c).
Qed.


(* ================================================================== *)
(** ** Property order *)

Lemma digits_value_bound (s : jsstring) :
  forall acc n, digits_value acc s = Some n ->
  acc * 10 ^ N.of_nat (List.length s) <= n
  /\ n < (acc + 1) * 10 ^ N.of_nat (List.length s).
Proof using.
  induction s as [|c r IH]; intros acc n H.
  - injection H as <-. cbn [List.length N.of_nat]. rewrite N.pow_0_r. lia.
  - cbn [digits_value] in H.
    destruct ((48 <=? c) && (c <=? 57)) eqn:Ed; [|discriminate].
    apply andb_true_iff in Ed. destruct Ed as [E1 E2].
    apply N.leb_le in E1, E2. apply IH in H.
    cbn [List.length]. rewrite Nat2N.inj_succ, N.pow_succ_r'.
    destruct H as [H1 H2]. split; nia.
Qed.

Lemma digits_value_inj (s : jsstring) :
  forall s' a a' n, List.length s = List.length s' ->
  digits_value a s = Some n -> digits_value a' s' = Some n ->
  a = a' /\ s = s'.
Proof using.
  induction s as [|c r IH]; intros [|c' r'] a a' n Hl H H'; try discriminate.
  - injection H as <-. injection H' as <-. now split.
  - cbn [digits_value] in H, H'.
    destruct ((48 <=? c) && (c <=? 57)) eqn:Ed; [|discriminate].
    destruct ((48 <=? c') && (c' <=? 57)) eqn:Ed'; [|discriminate].
    apply andb_true_iff in Ed, Ed'. destruct Ed as [E1 E2], Ed' as [E1' E2'].
    apply N.leb_le in E1, E2, E1', E2'.
    injection Hl as Hl. destruct (IH r' _ _ n Hl H H') as [Ha ->].
    assert (a = a' /\ c = c') as [-> ->] by lia. now split.
Qed.

(** Two keys that denote the same array index are the same key. *)
Lemma array_index_inj (k k' : jsstring) (n : N) :
  array_index k = Some n -> array_index k' = Some n -> k = k'.
Proof using.
  assert (Hzero : forall c r m, (c =? 48) = false ->
    digits_value 0 (c :: r) = Some m -> 0 < m).
  { intros c r m Hc H. cbn [digits_value] in H.
    destruct ((48 <=? c) && (c <=? 57)) eqn:Ed; [|discriminate].
    apply andb_true_iff in Ed. destruct Ed as [E1 E2].
    apply N.leb_le in E1, E2. apply N.eqb_neq in Hc.
    apply digits_value_bound in H. destruct H as [H _].
    assert (Hp : 0 < 10 ^ N.of_nat (List.length r))
      by (apply N.neq_0_lt_0, N.pow_nonzero; discriminate).
    nia. }
  assert (Hlen : forall c r c' r' m, (c =? 48) = false -> (c' =? 48) = false ->
    digits_value 0 (c :: r) = Some m -> digits_value 0 (c' :: r') = Some m ->
    (List.length r <= List.length r')%nat).
  { intros c r c' r' m Hc Hc' H H'.
    destruct (Nat.le_gt_cases (List.length r) (List.length r')) as [Hle|Hgt];
      [exact Hle|exfalso].
    cbn [digits_value] in H, H'.
    destruct ((48 <=? c) && (c <=? 57)) eqn:Ed; [|discriminate].
    destruct ((48 <=? c') && (c' <=? 57)) eqn:Ed'; [|discriminate].
    apply andb_true_iff in Ed, Ed'. destruct Ed as [E1 E2], Ed' as [E1' E2'].
    apply N.leb_le in E1, E2, E1', E2'. apply N.eqb_neq in Hc, Hc'.
    apply digits_value_bound in H, H'.
    destruct H as [H _], H' as [_ H'].
    assert (Hp : 10 * 10 ^ N.of_nat (List.length r')
                 <= 10 ^ N.of_nat (List.length r)).
    { rewrite <- N.pow_succ_r'. apply N.pow_le_mono_r; [discriminate|].
      lia. }
    nia. }
  unfold array_index. destruct k as [|c r], k' as [|c' r']; try discriminate.
  destruct (c =? 48) eqn:Ec, (c' =? 48) eqn:Ec'.
  - destruct r, r'; try discriminate. apply N.eqb_eq in Ec, Ec'. congruence.
  - destruct r; [|discriminate]. intros [= <-].
    destruct (digits_value 0 (c' :: r')) as [m|] eqn:E; [|discriminate].
    destruct (m <? 4294967295); [|discriminate]. intros [= ->].
    apply Hzero in E; [lia | assumption].
  - destruct r'; [|discriminate]. intros H [= <-]. revert H.
    destruct (digits_value 0 (c :: r)) as [m|] eqn:E; [|discriminate].
    destruct (m <? 4294967295); [|discriminate]. intros [= ->].
    apply Hzero in E; [lia | assumption].
  - destruct (digits_value 0 (c :: r)) as [m|] eqn:E; [|discriminate].
    destruct (m <? 4294967295); [|discriminate]. intros [= ->].
    destruct (digits_value 0 (c' :: r')) as [m'|] eqn:E'; [|discriminate].
    destruct (m' <? 4294967295); [|discriminate]. intros [= ->].
    assert (Hl : List.length (c :: r) = List.length (c' :: r')).
    { pose proof (Hlen _ _ _ _ _ Ec Ec' E E').
      pose proof (Hlen _ _ _ _ _ Ec' Ec E' E). simpl. lia. }
    now destruct (digits_value_inj _ _ _ _ _ Hl E E').
Qed.

Section PropertyOrder.
Variable V : Type.

Lemma precedes_all_before (a : list jsstring) (k : jsstring)
  (b : list jsstring) :
  property_order (a ++ k :: b) -> Forall (fun k' => precedes k' k) a.
Proof using.
  induction a as [|x a IH]; intros H; [constructor|].
  cbn [app property_order] in H. destruct H as [Hx Ha].
  constructor; [|now apply IH].
  rewrite Forall_forall in Hx. apply Hx. apply in_or_app. right. now left.
Qed.

Lemma obj_get_none (o : jsobj V) (k : jsstring) :
  Forall (fun k' => k' <> k) (obj_keys o) -> obj_get o k = None.
Proof using.
  induction o as [|[k' v'] o IH]; intros H; [reflexivity|].
  cbn [obj_keys map fst] in H. cbn [obj_get].
  rewrite (jsstring_eqb_neq _ _ (Forall_inv H)). apply IH.
  exact (Forall_inv_tail H).
Qed.

Lemma obj_insert_index_last (i : N) (k : jsstring) (v : V) (o : jsobj V) :
  Forall (fun k' => exists j, array_index k' = Some j /\ j < i) (obj_keys o) ->
  obj_insert_index i k v o = o ++ [(k, v)].
Proof using.
  induction o as [|[k' v'] o IH]; intros H; [reflexivity|].
  cbn [obj_keys map fst] in H. cbn [obj_insert_index app].
  destruct (Forall_inv H) as [j [Hj Hlt]]. rewrite Hj.
  apply N.ltb_lt in Hlt. rewrite Hlt. f_equal. apply IH.
  exact (Forall_inv_tail H).
Qed.

(** A property written in its turn is created at the end. *)
Lemma obj_set_in_order (before : jsobj V) (k : jsstring) (v : V)
  (after : jsobj V) :
  property_order (obj_keys (before ++ (k, v) :: after)) ->
  obj_set before k v = before ++ [(k, v)].
Proof using.
  intros H. unfold obj_keys in H. rewrite map_app in H. cbn [map fst] in H.
  apply precedes_all_before in H. fold (obj_keys before) in H.
  unfold obj_set, obj_has. rewrite obj_get_none.
  - destruct (array_index k) as [i|] eqn:Ei; [|reflexivity].
    apply obj_insert_index_last. eapply Forall_impl; [|exact H].
    intros k' [_ Hk']. rewrite Ei in Hk'.
    destruct (array_index k') as [j|]; [eauto | contradiction].
  - eapply Forall_impl; [|exact H]. now intros k' [Hk' _].
Qed.

Lemma property_order_snoc (ks : list jsstring) (k : jsstring) :
  property_order ks -> Forall (fun k' => precedes k' k) ks ->
  property_order (ks ++ [k]).
Proof using.
  induction ks as [|x ks IH]; intros H Hk.
  - cbn. split; [constructor | exact I].
  - cbn [app property_order] in *. destruct H as [Hx Hks].
    split; [|apply IH; [assumption | exact (Forall_inv_tail Hk)]].
    apply Forall_app. split; [assumption|].
    constructor; [exact (Forall_inv Hk) | constructor].
Qed.

Lemma obj_keys_insert_index (i : N) (k : jsstring) (v : V) (o : jsobj V)
  (x : jsstring) :
  In x (obj_keys (obj_insert_index i k v o)) <-> x = k \/ In x (obj_keys o).
Proof using.
  induction o as [|[k' v'] o IH].
  - cbn. split; intros [H|[]]; left; congruence.
  - cbn [obj_insert_index].
    destruct (array_index k') as [j|]; [destruct (j <? i)|].
    + cbn [obj_keys map fst In] in *. rewrite IH.
      split; [intros [H|[H|H]] | intros [H|[H|H]]]; subst; auto.
    + cbn [obj_keys map fst In].
      split; [intros [H|[H|H]] | intros [H|[H|H]]]; subst; auto.
    + cbn [obj_keys map fst In].
      split; [intros [H|[H|H]] | intros [H|[H|H]]]; subst; auto.
Qed.

Lemma property_order_insert_index (i : N) (k : jsstring) (v : V)
  (o : jsobj V) :
  array_index k = Some i -> ~ In k (obj_keys o) ->
  property_order (obj_keys o) ->
  property_order (obj_keys (obj_insert_index i k v o)).
Proof using.
  intros Hi. induction o as [|[k' v'] o IH]; intros Hk Ho.
  - cbn. split; [constructor | exact I].
  - cbn [obj_keys map fst property_order] in Ho. destruct Ho as [Hh Ht].
    fold (obj_keys o) in Hh, Ht.
    assert (Hne : k' <> k) by (intros ->; apply Hk; now left).
    assert (Hk' : ~ In k (obj_keys o)) by (intros H; apply Hk; now right).
    cbn [obj_insert_index].
    assert (Hfront : forall j, array_index k' = Some j -> (j <? i) = false ->
      property_order (obj_keys ((k, v) :: (k', v') :: o))).
    { intros j Hj Hlt. apply N.ltb_ge in Hlt.
      assert (Hij : i < j).
      { destruct (N.eq_dec i j) as [->|Hn]; [|lia].
        exfalso. apply Hne. symmetry. exact (array_index_inj _ _ _ Hi Hj). }
      cbn [obj_keys map fst property_order]. fold (obj_keys o).
      split; [|split; assumption].
      constructor.
      - split; [congruence|]. rewrite Hi, Hj. exact Hij.
      - rewrite Forall_forall in Hh |- *. intros x Hx.
        split; [intros ->; contradiction|].
        destruct (Hh x Hx) as [_ Hp]. rewrite Hj in Hp. rewrite Hi.
        destruct (array_index x) as [jx|]; [lia | exact I]. }
    destruct (array_index k') as [j|] eqn:Ej.
    + destruct (j <? i) eqn:Hlt; [|now apply (Hfront j)].
      cbn [obj_keys map fst property_order].
      fold (obj_keys (obj_insert_index i k v o)).
      split; [|now apply IH].
      rewrite Forall_forall in Hh |- *. intros x Hx.
      apply obj_keys_insert_index in Hx. destruct Hx as [->|Hx];
        [|now apply Hh].
      split; [assumption|]. rewrite Ej, Hi. now apply N.ltb_lt.
    + cbn [obj_keys map fst property_order]. fold (obj_keys o).
      split; [|split; assumption].
      constructor.
      * split; [congruence|]. now rewrite Hi, Ej.
      * rewrite Forall_forall in Hh |- *. intros x Hx.
        split; [intros ->; contradiction|].
        destruct (Hh x Hx) as [_ Hp]. rewrite Ej in Hp. rewrite Hi.
        destruct (array_index x); [contradiction | exact I].
Qed.

Lemma obj_has_keys (o : jsobj V) (k : jsstring) :
  obj_has o k = false -> ~ In k (obj_keys o).
Proof using.
  unfold obj_has. induction o as [|[k' v'] o IH]; [intros _ []|].
  cbn [obj_get obj_keys map fst In].
  destruct (jsstring_eqb_spec k' k) as [->|Hne]; [discriminate|].
  intros H [Hk|Hk]; [contradiction | now apply IH].
Qed.

Lemma property_order_append (ks : list jsstring) (k : jsstring) :
  array_index k = None -> ~ In k ks -> property_order ks ->
  property_order (ks ++ [k]).
Proof using.
  intros Hi Hk H. apply property_order_snoc; [assumption|].
  rewrite Forall_forall. intros x Hx.
  split; [intros ->; contradiction|]. rewrite Hi.
  now destruct (array_index x).
Qed.

(** A write keeps the keys in property order. *)
Lemma property_order_set (o : jsobj V) (k : jsstring) (v : V) :
  property_order (obj_keys o) -> property_order (obj_keys (obj_set o k v)).
Proof using.
  intros H. unfold obj_set. destruct (obj_has o k) eqn:Eh.
  - now rewrite obj_keys_replace.
  - apply obj_has_keys in Eh.
    destruct (array_index k) as [i|] eqn:Ei.
    + now apply property_order_insert_index.
    + unfold obj_keys. rewrite map_app. cbn [map fst].
      now apply property_order_append.
Qed.

Lemma obj_set_In (o : jsobj V) (k : jsstring) (v : V) (e : jsstring * V) :
  In e (obj_set o k v) -> e = (k, v) \/ In e o.
Proof using.
  unfold obj_set. destruct (obj_has o k).
  - induction o as [|[k' v'] o IH]; [intros []|].
    cbn [obj_replace]. destruct (jsstring_eqb_spec k' k) as [->|Hne].
    + intros [<-|H]; [now left | right; now right].
    + intros [<-|H]; [right; now left|].
      destruct (IH H) as [->|Hin]; [now left | right; now right].
  - destruct (array_index k) as [i|].
    + induction o as [|[k' v'] o IH]; [intros [<-|[]]; now left|].
      cbn [obj_insert_index].
      destruct (array_index k') as [j|]; [destruct (j <? i)|].
      * intros [<-|H]; [right; now left|].
        destruct (IH H) as [->|Hin]; [now left | right; now right].
      * intros [<-|H]; [now left | now right].
      * intros [<-|H]; [now left | now right].
    + intros H. apply in_app_or in H.
      destruct H as [H|[<-|[]]]; [now right | now left].
Qed.

End PropertyOrder.

(* ================================================================== *)
(** ** The values that [JSON.parse] returns *)

Lemma well_formed_array (vs : list jsval) :
  well_formed (JArr vs) <-> Forall well_formed vs.
Proof using.
  cbn [well_formed]. induction vs as [|e vs IH].
  - split; [constructor | exact (fun _ => I)].
  - split.
    + intros [He Hvs]. constructor; [assumption | now apply IH].
    + intros H. split; [exact (Forall_inv H)|].
      apply IH. exact (Forall_inv_tail H).
Qed.

Lemma well_formed_object (kvs : list (jsstring * jsval)) :
  well_formed (JObj kvs)
  <-> property_order (obj_keys kvs)
      /\ Forall (fun e => well_formed (snd e)) kvs.
Proof using.
  cbn [well_formed].
  assert (H : (fix all (l : list (jsstring * jsval)) : Prop :=
                 match l with
                 | [] => True
                 | e :: r => well_formed (snd e) /\ all r
                 end) kvs
              <-> Forall (fun e => well_formed (snd e)) kvs).
  { induction kvs as [|e kvs IH].
    - split; [constructor | exact (fun _ => I)].
    - split.
      + intros [He Hvs]. constructor; [assumption | now apply IH].
      + intros H. split; [exact (Forall_inv H)|].
        apply IH. exact (Forall_inv_tail H). }
  now rewrite H.
Qed.

Lemma numbers_round_trip_array (vs : list jsval) :
  numbers_round_trip (JArr vs) <-> Forall numbers_round_trip vs.
Proof using.
  cbn [numbers_round_trip]. induction vs as [|e vs IH].
  - split; [constructor | exact (fun _ => I)].
  - split.
    + intros [He Hvs]. constructor; [assumption | now apply IH].
    + intros H. split; [exact (Forall_inv H)|].
      apply IH. exact (Forall_inv_tail H).
Qed.

Lemma numbers_round_trip_object (kvs : list (jsstring * jsval)) :
  numbers_round_trip (JObj kvs)
  <-> Forall (fun e => numbers_round_trip (snd e)) kvs.
Proof using.
  cbn [numbers_round_trip]. induction kvs as [|e kvs IH].
  - split; [constructor | exact (fun _ => I)].
  - split.
    + intros [He Hvs]. constructor; [assumption | now apply IH].
    + intros H. split; [exact (Forall_inv H)|].
      apply IH. exact (Forall_inv_tail H).
Qed.

Lemma well_formed_set (acc : list (jsstring * jsval)) (k : jsstring)
  (v : jsval) :
  well_formed (JObj acc) -> well_formed v ->
  well_formed (JObj (obj_set acc k v)).
Proof using.
  rewrite !well_formed_object. intros [Ho Hv] Hw.
  split; [now apply property_order_set|].
  rewrite Forall_forall in Hv |- *. intros e He.
  apply obj_set_In in He. destruct He as [->|He]; [exact Hw | now apply Hv].
Qed.

Lemma well_formed_snoc (acc : list jsval) (v : jsval) :
  well_formed (JArr acc) -> well_formed v -> well_formed (JArr (acc ++ [v])).
Proof using.
  rewrite !well_formed_array. intros Ha Hv. apply Forall_app.
  split; [assumption | constructor; [assumption | constructor]].
Qed.

(** Every value that the parser returns is well formed. *)
Lemma parse_well_formed (fuel : nat) :
  (forall s v r, parse_value fuel s = Parsed v r -> well_formed v)
  /\ (forall acc s v r, well_formed (JObj acc) ->
      parse_members fuel acc s = Parsed v r -> well_formed v)
  /\ (forall acc s v r, well_formed (JArr acc) ->
      parse_elements fuel acc s = Parsed v r -> well_formed v).
Proof using.
  induction fuel as [|fuel [IHv [IHm IHe]]].
  - repeat split; intros; discriminate.
  - repeat split.
    + intros s v r H. cbn [parse_value] in H.
      repeat break_match_hyp; try discriminate;
        try (injection H as <- <-; exact I).
      * injection H as <- <-. apply well_formed_object.
        split; [exact I | constructor].
      * eapply IHm; [|eassumption]. apply well_formed_object.
        split; [exact I | constructor].
      * eapply IHe; [|eassumption]. exact I.
    + intros acc s v r Hacc H. cbn [parse_members] in H.
      repeat break_match_hyp; try discriminate;
        match goal with
        | E : parse_value _ _ = Parsed _ _ |- _ => apply IHv in E
        end.
      * eapply IHm; [|eassumption]. now apply well_formed_set.
      * injection H as <- <-. now apply well_formed_set.
    + intros acc s v r Hacc H. cbn [parse_elements] in H.
      repeat break_match_hyp; try discriminate;
        match goal with
        | E : parse_value _ _ = Parsed _ _ |- _ => apply IHv in E
        end.
      * eapply IHe; [|eassumption]. now apply well_formed_snoc.
      * injection H as <- <-. now apply well_formed_snoc.
Qed.

Lemma JSON_parse_well_formed (text : jsstring) (v : jsval) :
  JSON_parse text = inr v -> well_formed v.
Proof using.
  unfold JSON_parse. intros H.
  destruct (parse_value _ text) as [v' r| |] eqn:E; try discriminate.
  destruct (skip_ws r); [|discriminate]. injection H as <-.
  eapply (proj1 (parse_well_formed _)); eassumption.
Qed.

(* ================================================================== *)
(** ** [JSON.parse] reads back every value that it returns *)

Lemma jsval_nested_ind (P : jsval -> Prop) :
  P JUndefined -> P JNull -> (forall b, P (JBool b)) ->
  (forall n, P (JNum n)) -> (forall s, P (JStr s)) ->
  (forall vs, Forall P vs -> P (JArr vs)) ->
  (forall kvs, Forall (fun e => P (snd e)) kvs -> P (JObj kvs)) ->
  forall v, P v.
Proof using.
  intros HU HN HB HNum HS HA HO. fix IH 1.
  intros [| |b|n|s|vs|kvs]; [exact HU | exact HN | apply HB | apply HNum
                            | apply HS | apply HA | apply HO].
  - induction vs as [|e vs IHvs]; constructor; [apply IH | exact IHvs].
  - induction kvs as [|e kvs IHk]; constructor; [apply IH | exact IHk].
Qed.

Lemma serialize_defined (v : jsval) :
  well_formed v -> exists t, serialize v = Some t.
Proof using.
  destruct v as [| |[|]|n|s|vs|kvs]; cbn [well_formed serialize];
    try contradiction; eauto.
Qed.

Lemma parse_value_literal (fuel : nat) (rest : jsstring) :
  parse_value (S fuel) (js "null" ++ rest) = Parsed JNull rest
  /\ parse_value (S fuel) (js "true" ++ rest) = Parsed (JBool true) rest
  /\ parse_value (S fuel) (js "false" ++ rest) = Parsed (JBool false) rest.
Proof using. repeat split. Qed.

Lemma digit_facts (c : N) :
  c = 45 \/ is_digit c = true ->
  is_json_space c = false /\ (c =? 123) = false /\ (c =? 91) = false
  /\ (c =? QUOTE) = false /\ (c =? 116) = false /\ (c =? 102) = false
  /\ (c =? 110) = false /\ (c =? 93) = false /\ (c =? 125) = false.
Proof using.
  intros H.
  assert (Hc : c = 45 \/ (48 <= c /\ c <= 57)).
  { destruct H as [H|H]; [now left | right]. unfold is_digit in H.
    apply andb_true_iff in H. destruct H as [H1 H2].
    apply N.leb_le in H1, H2. now split. }
  unfold is_json_space, QUOTE.
  assert (E : forall x, x <> 45 -> (x < 48 \/ 57 < x) -> (c =? x) = false).
  { intros x H1 H2. apply N.eqb_neq. lia. }
  rewrite !E by lia. repeat split.
Qed.

Lemma parse_value_number (fuel : nat) (l rest : jsstring) :
  lex_number l = Some (l, []) -> stops rest ->
  parse_value (S fuel) (l ++ rest) = Parsed (JNum (parseNumber l)) rest.
Proof using.
  intros Hl Hrest.
  destruct (lex_number_head _ _ _ Hl) as [c [l' [-> Hc]]].
  pose proof (lex_number_app _ _ _ rest Hl (or_intror Hrest)) as Happ.
  cbn [app] in Happ.
  destruct (digit_facts c Hc) as [H1 [H2 [H3 [H4 [H5 [H6 [H7 _]]]]]]].
  cbn [app parse_value skip_ws]. rewrite H1. cbv iota.
  rewrite H2, H3, H4.
  change (js "true") with [116; 114; 117; 101].
  change (js "false") with [102; 97; 108; 115; 101].
  change (js "null") with [110; 117; 108; 108].
  cbn [starts_with]. rewrite H5, H6, H7. cbn [andb].
  now rewrite Happ.
Qed.

(** The first code unit of a JSON text. *)
Lemma serialize_head (v : jsval) (t : jsstring) :
  numbers_round_trip v -> serialize v = Some t ->
  exists c t', t = c :: t' /\ is_json_space c = false /\ (c =? 93) = false.
Proof using.
  destruct v as [| |[|]|n|s|vs|kvs]; cbn [serialize numbers_round_trip];
    intros Hn [= <-]; try (do 2 eexists; repeat split; reflexivity).
  destruct Hn as [Hf [Hl _]]. rewrite Hf.
  destruct (lex_number_head _ _ _ Hl) as [c [l' [E Hc]]].
  destruct (digit_facts c Hc) as [H1 [_ [_ [_ [_ [_ [_ [H8 _]]]]]]]].
  rewrite E. now exists c, l'.
Qed.

Lemma parse_elements_serialized (vs : list jsval) :
  Forall (fun e => well_formed e /\ numbers_round_trip e /\ reads_back e)
    vs ->
  vs <> [] ->
  forall fuel acc rest,
    parse_elements fuel acc
      (join (js ",")
         (map (fun e => match serialize e with
                        | Some t => t
                        | None => js "null"
                        end) vs) ++ 93 :: rest) <> OutOfFuel ->
    parse_elements fuel acc
      (join (js ",")
         (map (fun e => match serialize e with
                        | Some t => t
                        | None => js "null"
                        end) vs) ++ 93 :: rest)
    = Parsed (JArr (acc ++ vs)) rest.
Proof using.
  induction vs as [|e vs IH]; intros Hall Hne fuel acc rest H;
    [now contradiction Hne|].
  destruct fuel as [|f]; [now contradiction H|].
  destruct (Forall_inv Hall) as [Hwf [Hnum Hrb]].
  destruct (serialize_defined e Hwf) as [te Hte].
  destruct vs as [|e2 vs].
  - cbn [map join] in H |- *. rewrite Hte in H |- *.
    assert (Ev : parse_value f (te ++ 93 :: rest) = Parsed e (93 :: rest)).
    { apply Hrb; [exact Hte | right; now left|].
      intros Eo. apply H. cbn [parse_elements]. now rewrite Eo. }
    cbn [parse_elements]. rewrite Ev. reflexivity.
  - replace (join (js ",")
               (map (fun e => match serialize e with
                              | Some t => t
                              | None => js "null"
                              end) (e :: e2 :: vs)) ++ 93 :: rest)
      with (te ++ 44 ::
            (join (js ",")
               (map (fun e => match serialize e with
                              | Some t => t
                              | None => js "null"
                              end) (e2 :: vs)) ++ 93 :: rest)) in H |- *
      by (cbn [map join]; rewrite Hte, <- !app_assoc; reflexivity).
    assert (Ev : parse_value f
                   (te ++ 44 ::
                    (join (js ",")
                       (map (fun e => match serialize e with
                                      | Some t => t
                                      | None => js "null"
                                      end) (e2 :: vs)) ++ 93 :: rest))
                 = Parsed e
                     (44 ::
                      (join (js ",")
                         (map (fun e => match serialize e with
                                        | Some t => t
                                        | None => js "null"
                                        end) (e2 :: vs)) ++ 93 :: rest))).
    { apply Hrb; [exact Hte | now left|].
      intros Eo. apply H. cbn [parse_elements]. now rewrite Eo. }
    cbn [parse_elements] in H |- *. rewrite Ev in H |- *.
    cbn [skip_ws] in H |- *. change (is_json_space 44) with false in H |- *.
    cbv iota in H |- *. change (44 =? 44) with true in H |- *.
    cbv iota in H |- *.
    rewrite (IH (Forall_inv_tail Hall)); [|discriminate | exact H].
    now rewrite <- app_assoc.
Qed.

(** One member, from the quote of its key to the text after its value. *)
Lemma parse_members_key (fuel : nat) (acc : list (jsstring * jsval))
  (k text : jsstring) :
  parse_members (S fuel) acc (quote k ++ js ":" ++ text)
  = match parse_value fuel text with
    | Parsed v r3 =>
      match skip_ws r3 with
      | [] => Malformed
      | e :: r4 =>
        if e =? 44 then parse_members fuel (obj_set acc k v) (skip_ws r4)
        else if e =? 125 then Parsed (JObj (obj_set acc k v)) r4
        else Malformed
      end
    | other => other
    end.
Proof using.
  rewrite quote_app. cbn [parse_members]. rewrite N.eqb_refl.
  rewrite parse_string_body_quote_units.
  change (js ":") with [58]. cbn [app skip_ws].
  change (is_json_space 58) with false. cbv iota.
  now rewrite N.eqb_refl.
Qed.

Lemma members_head (kvs : list (jsstring * jsval)) (rest : jsstring) :
  Forall (fun e => well_formed (snd e)) kvs -> kvs <> [] ->
  skip_ws
    (join (js ",")
       (flat_map (fun kv => match serialize (snd kv) with
                            | Some t => [quote (fst kv) ++ js ":" ++ t]
                            | None => []
                            end) kvs) ++ rest)
  = join (js ",")
      (flat_map (fun kv => match serialize (snd kv) with
                           | Some t => [quote (fst kv) ++ js ":" ++ t]
                           | None => []
                           end) kvs) ++ rest.
Proof using.
  intros Hall Hne. destruct kvs as [|[k v] kvs]; [now contradiction Hne|].
  destruct (serialize_defined v (Forall_inv Hall)) as [te Hte].
  cbn [flat_map fst snd]. rewrite Hte. cbn [app join].
  destruct (flat_map _ kvs); rewrite <- ?app_assoc, quote_app; reflexivity.
Qed.

Lemma parse_members_serialized (kvs : list (jsstring * jsval)) :
  Forall (fun e => well_formed (snd e) /\ numbers_round_trip (snd e)
                   /\ reads_back (snd e)) kvs ->
  kvs <> [] ->
  forall fuel acc rest,
    property_order (obj_keys (acc ++ kvs)) ->
    parse_members fuel acc
      (join (js ",")
         (flat_map (fun kv => match serialize (snd kv) with
                              | Some t => [quote (fst kv) ++ js ":" ++ t]
                              | None => []
                              end) kvs) ++ 125 :: rest) <> OutOfFuel ->
    parse_members fuel acc
      (join (js ",")
         (flat_map (fun kv => match serialize (snd kv) with
                              | Some t => [quote (fst kv) ++ js ":" ++ t]
                              | None => []
                              end) kvs) ++ 125 :: rest)
    = Parsed (JObj (acc ++ kvs)) rest.
Proof using.
  induction kvs as [|[k v] kvs IH]; intros Hall Hne fuel acc rest Hord H;
    [now contradiction Hne|].
  destruct fuel as [|f]; [now contradiction H|].
  destruct (Forall_inv Hall) as [Hwf [Hnum Hrb]]. cbn [snd] in Hwf, Hnum, Hrb.
  destruct (serialize_defined v Hwf) as [te Hte].
  pose proof (obj_set_in_order _ acc k v kvs Hord) as Hset.
  destruct kvs as [|kv2 kvs].
  - replace (join (js ",")
               (flat_map (fun kv => match serialize (snd kv) with
                                    | Some t => [quote (fst kv) ++ js ":" ++ t]
                                    | None => []
                                    end) [(k, v)]) ++ 125 :: rest)
      with (quote k ++ js ":" ++ te ++ 125 :: rest) in H |- *
      by (cbn [flat_map fst snd]; rewrite Hte; cbn [app join];
          now rewrite <- !app_assoc).
    rewrite parse_members_key in H |- *.
    assert (Ev : parse_value f (te ++ 125 :: rest) = Parsed v (125 :: rest)).
    { apply Hrb; [exact Hte | right; now right|].
      intros Eo. apply H. now rewrite Eo. }
    rewrite Ev, Hset. reflexivity.
  - assert (Htail : Forall (fun e => well_formed (snd e)) (kv2 :: kvs)).
    { eapply Forall_impl; [|exact (Forall_inv_tail Hall)]. now intros e [He _]. }
    replace (join (js ",")
               (flat_map (fun kv => match serialize (snd kv) with
                                    | Some t => [quote (fst kv) ++ js ":" ++ t]
                                    | None => []
                                    end) ((k, v) :: kv2 :: kvs))
             ++ 125 :: rest)
      with (quote k ++ js ":" ++ te ++ 44 ::
            (join (js ",")
               (flat_map (fun kv => match serialize (snd kv) with
                                    | Some t => [quote (fst kv) ++ js ":" ++ t]
                                    | None => []
                                    end) (kv2 :: kvs)) ++ 125 :: rest))
      in H |- *.
    2:{ destruct kv2 as [k2 v2].
        destruct (serialize_defined v2 (Forall_inv Htail)) as [t2 Ht2].
        cbn [flat_map fst snd]. rewrite Hte, Ht2. cbn [app join].
        now rewrite <- !app_assoc. }
    rewrite parse_members_key in H |- *.
    assert (Ev : parse_value f
                   (te ++ 44 ::
                    (join (js ",")
                       (flat_map
                          (fun kv => match serialize (snd kv) with
                                     | Some t => [quote (fst kv) ++ js ":" ++ t]
                                     | None => []
                                     end) (kv2 :: kvs)) ++ 125 :: rest))
                 = Parsed v
                     (44 ::
                      (join (js ",")
                         (flat_map
                            (fun kv => match serialize (snd kv) with
                                       | Some t =>
                                         [quote (fst kv) ++ js ":" ++ t]
                                       | None => []
                                       end) (kv2 :: kvs)) ++ 125 :: rest))).
    { apply Hrb; [exact Hte | now left|].
      intros Eo. apply H. now rewrite Eo. }
    rewrite Ev in H |- *. cbn [skip_ws] in H |- *.
    change (is_json_space 44) with false in H |- *. cbv iota in H |- *.
    change (44 =? 44) with true in H |- *. cbv iota in H |- *.
    rewrite (members_head _ _ Htail) in H |- * by discriminate.
    rewrite Hset in H |- *.
    rewrite (IH (Forall_inv_tail Hall)); [|discriminate| |exact H].
    + now rewrite <- app_assoc.
    + now rewrite <- app_assoc.
Qed.

Lemma skip_ws_plain (c : N) (r : jsstring) :
  is_json_space c = false -> skip_ws (c :: r) = c :: r.
Proof using. intros H. cbn [skip_ws]. now rewrite H. Qed.

Lemma elements_head (vs : list jsval) (rest : jsstring) :
  Forall (fun e => well_formed e /\ numbers_round_trip e /\ reads_back e)
    vs ->
  vs <> [] ->
  exists c r,
    join (js ",")
      (map (fun e => match serialize e with
                     | Some t => t
                     | None => js "null"
                     end) vs) ++ rest = c :: r
    /\ is_json_space c = false /\ (c =? 93) = false.
Proof using.
  intros Hall Hne. destruct vs as [|e vs]; [now contradiction Hne|].
  destruct (Forall_inv Hall) as [Hwf [Hnum _]].
  destruct (serialize_defined e Hwf) as [te Hte].
  destruct (serialize_head e te Hnum Hte) as [c [t' [-> [H1 H2]]]].
  cbn [map]. rewrite Hte. cbn [join].
  destruct (map _ vs); cbn [app]; eauto.
Qed.

Lemma members_quote (kvs : list (jsstring * jsval)) (rest : jsstring) :
  Forall (fun e => well_formed (snd e)) kvs -> kvs <> [] ->
  exists r,
    join (js ",")
      (flat_map (fun kv => match serialize (snd kv) with
                           | Some t => [quote (fst kv) ++ js ":" ++ t]
                           | None => []
                           end) kvs) ++ rest = QUOTE :: r.
Proof using.
  intros Hall Hne. destruct kvs as [|[k v] kvs]; [now contradiction Hne|].
  destruct (serialize_defined v (Forall_inv Hall)) as [te Hte].
  cbn [flat_map fst snd]. rewrite Hte. cbn [app join].
  destruct (flat_map _ kvs); rewrite <- ?app_assoc, quote_app; eauto.
Qed.

(** The parser reads back every well-formed value whose numbers are read
    back. *)
Lemma parse_serialized (v : jsval) :
  well_formed v -> numbers_round_trip v -> reads_back v.
Proof using.
  induction v as [| |b|n|s|vs IH|kvs IH] using jsval_nested_ind;
    intros Hwf Hnum t rest fuel Hser Hrest Hok;
    (destruct fuel as [|f]; [now contradiction Hok|]).
  - contradiction.
  - injection Hser as <-. apply parse_value_literal.
  - destruct b; injection Hser as <-; apply parse_value_literal.
  - destruct Hnum as [Hf [Hl Hp]]. cbn [serialize] in Hser.
    rewrite Hf in Hser. injection Hser as <-.
    rewrite parse_value_number; [now rewrite Hp | exact Hl|].
    now apply delimited_stops.
  - injection Hser as <-. apply parse_value_quote.
  - destruct vs as [|e vs]; [injection Hser as <-; reflexivity|].
    assert (Hall : Forall (fun e => well_formed e /\ numbers_round_trip e
                                    /\ reads_back e) (e :: vs)).
    { apply well_formed_array in Hwf. apply numbers_round_trip_array in Hnum.
      rewrite Forall_forall in *. intros x Hx.
      split; [now apply Hwf|]. split; [now apply Hnum|].
      apply IH; [assumption | now apply Hwf | now apply Hnum]. }
    destruct (elements_head (e :: vs) (93 :: rest) Hall) as [c [r [E [H1 H2]]]];
      [discriminate|].
    assert (Et : t ++ rest = 91 :: c :: r).
    { cbn [serialize] in Hser.
      apply (f_equal (fun o => match o with Some x => x | None => [] end))
        in Hser.
      cbv beta iota in Hser.
      rewrite <- Hser, <- E, <- !app_assoc. reflexivity. }
    rewrite Et in Hok |- *.
    cbn [parse_value skip_ws] in Hok |- *.
    change (is_json_space 91) with false in Hok |- *. cbv iota in Hok |- *.
    change (91 =? 123) with false in Hok |- *.
    change (91 =? 91) with true in Hok |- *. cbv iota in Hok |- *.
    rewrite (skip_ws_plain c r H1) in Hok |- *.
    rewrite H2 in Hok |- *. rewrite <- E in Hok |- *.
    apply (parse_elements_serialized (e :: vs) Hall); [discriminate|].
    exact Hok.
  - destruct kvs as [|kv kvs]; [injection Hser as <-; reflexivity|].
    assert (Hord : property_order (obj_keys (kv :: kvs)))
      by (now apply well_formed_object in Hwf).
    assert (Hvals : Forall (fun e => well_formed (snd e)) (kv :: kvs))
      by (now apply well_formed_object in Hwf).
    assert (Hall : Forall (fun e => well_formed (snd e)
                                    /\ numbers_round_trip (snd e)
                                    /\ reads_back (snd e)) (kv :: kvs)).
    { apply numbers_round_trip_object in Hnum.
      rewrite Forall_forall in *. intros x Hx.
      split; [now apply Hvals|]. split; [now apply Hnum|].
      apply IH; [assumption | now apply Hvals | now apply Hnum]. }
    destruct (members_quote (kv :: kvs) (125 :: rest) Hvals) as [r E];
      [discriminate|].
    assert (Et : t ++ rest = 123 :: QUOTE :: r).
    { cbn [serialize] in Hser.
      apply (f_equal (fun o => match o with Some x => x | None => [] end))
        in Hser.
      cbv beta iota in Hser.
      rewrite <- Hser, <- E, <- !app_assoc. reflexivity. }
    rewrite Et in Hok |- *.
    cbn [parse_value skip_ws] in Hok |- *.
    change (is_json_space 123) with false in Hok |- *. cbv iota in Hok |- *.
    change (123 =? 123) with true in Hok |- *. cbv iota in Hok |- *.
    rewrite (skip_ws_plain QUOTE r eq_refl) in Hok |- *.
    change (QUOTE =? 125) with false in Hok |- *. cbv iota in Hok |- *.
    rewrite <- E in Hok |- *.
    apply (parse_members_serialized (kv :: kvs) Hall);
      [discriminate | exact Hord | exact Hok].
Qed.

(** [JSON.parse(JSON.stringify(v))] is [v]. *)
Lemma JSON_parse_serialized (v : jsval) (t : jsstring) :
  well_formed v -> numbers_round_trip v -> serialize v = Some t ->
  JSON_parse t = inr v.
Proof using.
  intros Hwf Hnum Hser. unfold JSON_parse.
  pose proof (parse_serialized v Hwf Hnum t [] (2 * List.length t + 1)%nat
                Hser I)
    as H.
  rewrite app_nil_r in H. rewrite H by apply JSON_parse_fuel. reflexivity.
Qed.

(* ================================================================== *)
(** ** The coerced values *)

Lemma coerced_value (v : jsval) :
  well_formed v ->
  coerced v (Some (if is_structured v then JSON_stringify v
                   else JStr (String_ v))).
Proof using.
  intros Hwf.
  destruct v as [| |[|]|n|s|vs|kvs]; cbn [coerced is_structured String_];
    try reflexivity; try contradiction.
  - destruct (serialize_defined _ Hwf) as [t Ht].
    exists t. unfold JSON_stringify. rewrite Ht.
    split; [reflexivity|]. split; [reflexivity|].
    intros Hnum. now apply JSON_parse_serialized.
  - destruct (serialize_defined _ Hwf) as [t Ht].
    exists t. unfold JSON_stringify. rewrite Ht.
    split; [reflexivity|]. split; [reflexivity|].
    intros Hnum. now apply JSON_parse_serialized.
Qed.

Lemma well_formed_member (o : list (jsstring * jsval)) (k : jsstring)
  (v : jsval) :
  well_formed (JObj o) -> obj_get o k = Some v -> well_formed v.
Proof using.
  intros Hwf Hk. apply well_formed_object in Hwf. destruct Hwf as [_ Hv].
  rewrite Forall_forall in Hv. apply (Hv (k, v)). now apply obj_get_In.
Qed.

(** C5.  In the result, a value of the parsed object that is an object or
    an array is replaced by its JSON text, which [JSON.parse] reads back
    as the value, and any other value by its text: a string by itself, a
    number by [Number.prototype.toString] of it, a boolean by [true] or
    [false], [null] by [null]; every value of the result is a string, or
    [null] for an absent field of the schema.  The first part is the
    handler that answers with all keys, the second the handler that
    projects on the schema. *)
Theorem values_are_coerced (rawText : jsstring)
  (o : list (jsstring * jsval)) (schema : list jsstring) :
  JSON_parse (clean rawText) = inr (JObj o) ->
  (exists r, normalize_open rawText = Normalized r
     /\ (forall k v, obj_get o k = Some v -> coerced v (obj_get r k))
     /\ (forall k v, obj_get r k = Some v -> exists t, v = JStr t))
  /\ (exists r, normalize rawText schema = Normalized r
     /\ (forall k v, In k schema -> obj_get o k = Some v ->
         coerced v (obj_get r k))
     /\ (forall k v, obj_get r k = Some v ->
         v = JNull \/ exists t, v = JStr t)).
Proof.
  intros H. pose proof (JSON_parse_shape _ _ H) as Hnd. simpl in Hnd.
  pose proof (JSON_parse_well_formed _ _ H) as Hwf.
  unfold normalize_open, normalize. rewrite (parse_flat_object _ _ H).
  split.
  - eexists. split; [reflexivity|]. split.
    + intros k v Hk. rewrite obj_get_coerce_values, Hk by assumption.
      apply coerced_value. exact (well_formed_member o k v Hwf Hk).
    + intros k v. rewrite obj_get_coerce_values by assumption.
      destruct (obj_get o k) as [v0|]; [|discriminate].
      destruct (coerced_is_string v0) as [t ->]. intros [= <-]. eauto.
  - eexists. split; [reflexivity|]. split.
    + intros k v Hin Hk. rewrite obj_get_normalized, Hk by assumption.
      apply coerced_value. exact (well_formed_member o k v Hwf Hk).
    + intros k v Hk.
      destruct (in_dec (list_eq_dec N.eq_dec) k schema) as [Hin|Hout].
      * rewrite obj_get_normalized in Hk by assumption.
        destruct (obj_get o k) as [v0|]; [|injection Hk as <-; now left].
        destruct (coerced_is_string v0) as [t Ht]. rewrite Ht in Hk.
        injection Hk as <-. right. eauto.
      * now rewrite obj_get_project_out in Hk.
Qed.


(* ================================================================== *)
(** ** Order and distinctness of the keys of the result *)

Lemma obj_keys_set_new {V : Type} (o : jsobj V) (k : jsstring) (v : V) :
  obj_get o k = None -> array_index k = None ->
  obj_keys (obj_set o k v) = obj_keys o ++ [k].
Proof.
  intros Hk Hi. unfold obj_set, obj_has. rewrite Hk, Hi.
  unfold obj_keys. now rewrite map_app.
Qed.

Lemma project_from_keys (jsonResponse : list (jsstring * jsval))
  (allowed : list jsstring) :
  forall acc,
  NoDup (obj_keys acc ++ allowed) ->
  (forall k, In k allowed -> array_index k = None) ->
  obj_keys
    (fold_left
       (fun finalResponse key =>
          obj_set finalResponse key
            (if negb (is_undefined (prop jsonResponse key))
             then JStr (String_ (prop jsonResponse key))
             else JNull))
       allowed acc)
  = obj_keys acc ++ allowed.
Proof.
  induction allowed as [|a allowed IH]; intros acc Hnd Hi.
  - simpl. now rewrite app_nil_r.
  - cbn [fold_left]. rewrite IH.
    + rewrite obj_keys_set_new.
      * now rewrite <- app_assoc.
      * destruct (obj_get acc a) eqn:E; [|reflexivity].
        exfalso. apply NoDup_remove_2 in Hnd. apply Hnd.
        apply in_or_app. left. apply obj_keys_get. congruence.
      * apply Hi. now left.
    + rewrite obj_keys_set_new.
      * now rewrite <- app_assoc.
      * destruct (obj_get acc a) eqn:E; [|reflexivity].
        exfalso. apply NoDup_remove_2 in Hnd. apply Hnd.
        apply in_or_app. left. apply obj_keys_get. congruence.
      * apply Hi. now left.
    + intros k Hk. apply Hi. now right.
Qed.

(** X4.  When the fields of the schema are distinct and none is an array
    index, the keys of the result of [normalize] are the fields of the
    schema in the order of the schema, whatever the order of the keys in
    the text. *)
Theorem normalize_keys_in_order (rawText : jsstring)
  (schema : list jsstring) (r : list (jsstring * jsval)) :
  normalize rawText schema = Normalized r ->
  NoDup schema ->
  (forall k, In k schema -> array_index k = None) ->
  obj_keys r = schema.
Proof.
  unfold normalize. destruct (parse_flat (clean rawText)); [|discriminate].
  intros [= <-] Hnd Hi. unfold project.
  now rewrite project_from_keys.
Qed.

(** X6.  The [/api/gemini] handler of [server.js] has no schema: when its
    normalisation succeeds, the cleaned text parses to an object and the
    keys of the result are exactly the keys of that object, none dropped
    and none added, each with a string as its value. *)
Theorem open_keys_are_parsed_keys (rawText : jsstring)
  (r : list (jsstring * jsval)) :
  normalize_open rawText = Normalized r ->
  exists o,
    JSON_parse (clean rawText) = inr (JObj o)
    /\ (forall k, In k (obj_keys r) <-> In k (obj_keys o))
    /\ (forall k, In k (obj_keys o) -> exists t, obj_get r k = Some (JStr t)).
Proof.
  unfold normalize_open, parse_flat.
  destruct (JSON_parse (clean rawText)) as [m|v] eqn:E; [discriminate|].
  pose proof (JSON_parse_shape _ _ E) as Hs.
  rewrite not_flat_object_spec. destruct v; try discriminate.
  intros [= <-]. simpl in Hs. exists properties.
  split; [reflexivity|]. split.
  - intros k. rewrite !obj_keys_get, obj_get_coerce_values by assumption.
    destruct (obj_get properties k); split; congruence.
  - intros k Hk. apply obj_keys_get in Hk.
    rewrite obj_get_coerce_values by assumption.
    destruct (obj_get properties k) as [v|]; [|congruence].
    destruct (coerced_is_string v) as [t ->]. eauto.
Qed.

(* ================================================================== *)
(** ** The [/prompt] handlers *)

Lemma prompt_step_response (cleaning : jsstring -> jsstring) (w : World)
  (rawText : jsstring) :
  snd (prompt_step cleaning w rawText)
  = match parse_flat (cleaning rawText) with
    | Returned jsonResponse => success_response jsonResponse
    | Thrown message => malformed_prompt_response w message
    end.
Proof.
  unfold prompt_step. destruct (parse_flat (cleaning rawText)); reflexivity.
Qed.

(** X7.  A [/prompt] handler answers 200 with the coerced object under
    [jsonResponse], or 500 with the fixed error message; the error body
    never carries the raw text, in development mode either, and it carries
    the message of the parse error in development mode only. *)
Theorem prompt_step_outcomes (cleaning : jsstring -> jsstring) (w : World)
  (rawText : jsstring) :
  (exists jsonResponse,
     parse_flat (cleaning rawText) = Returned jsonResponse
     /\ snd (prompt_step cleaning w rawText)
        = {| status := 200;
             body := JObj [(js "jsonResponse", JObj jsonResponse)] |})
  \/ (exists message,
     parse_flat (cleaning rawText) = Thrown message
     /\ status (snd (prompt_step cleaning w rawText)) = 500
     /\ field (body (snd (prompt_step cleaning w rawText))) (js "error")
        = JStr parse_failure
     /\ field (body (snd (prompt_step cleaning w rawText))) (js "rawResponse")
        = JUndefined
     /\ field (body (snd (prompt_step cleaning w rawText))) (js "details")
        = (if development w then JStr message else JUndefined)).
Proof.
  rewrite prompt_step_response.
  destruct (parse_flat (cleaning rawText)) as [jsonResponse|message].
  - left. exists jsonResponse. split; reflexivity.
  - right. exists message. unfold malformed_prompt_response.
    repeat split.
Qed.

(** X8.  On the same raw text, the [/prompt] handler that cleans the text
    and the [/api/gemini] handler of [server.js] take the same branch: the
    same status, on success the same response, on failure the same error
    message and the same details; outside of development mode the texts
    they send are equal. *)
Theorem prompt_agrees_with_api_gemini_open (w : World) (rawText : jsstring) :
  status (snd (prompt w rawText)) = status (snd (api_gemini_open w rawText))
  /\ (status (snd (prompt w rawText)) = 200 ->
      snd (prompt w rawText) = snd (api_gemini_open w rawText))
  /\ field (body (snd (prompt w rawText))) (js "error")
     = field (body (snd (api_gemini_open w rawText))) (js "error")
  /\ field (body (snd (prompt w rawText))) (js "details")
     = field (body (snd (api_gemini_open w rawText))) (js "details")
  /\ (development w = false ->
      sent (snd (prompt w rawText)) = sent (snd (api_gemini_open w rawText))).
Proof.
  unfold prompt, api_gemini_open.
  rewrite prompt_step_response, image_step_response.
  unfold normalize_open.
  destruct (parse_flat (clean rawText)) as [jsonResponse|message].
  - repeat split.
  - unfold malformed_prompt_response, malformed_response, sent.
    repeat split; try discriminate.
    intros ->. reflexivity.
Qed.

(** The first code unit of a fenced text is a backtick, which starts no
    JSON value. *)
Lemma JSON_parse_backtick (r : jsstring) :
  JSON_parse (BACKTICK :: r) = inl (syntaxErrorMessage (BACKTICK :: r)).
Proof.
  unfold JSON_parse. rewrite Nat.add_1_r. reflexivity.
Qed.

(** X9.  The [/prompt] handler of [server.js] gives the raw text to
    [JSON.parse] as it is: it answers 500 to every text in a code block,
    whatever the tag of the fence and whatever the text inside, where the
    later versions of the handler answer such a text as they answer the
    text inside a [```json] block. *)
Theorem prompt_server_js_rejects_fences (w : World) (tag t : jsstring) :
  status (snd (prompt_server_js w (fenced_with tag t))) = 500
  /\ status (snd (prompt_server_js w (fenced t))) = 500
  /\ snd (prompt w (fenced t)) = snd (prompt w t).
Proof.
  unfold prompt_server_js, prompt. rewrite !prompt_step_response.
  split; [|split].
  - unfold parse_flat, fenced_with. rewrite js_fence. cbn [app].
    now rewrite JSON_parse_backtick.
  - unfold parse_flat, fenced. rewrite js_fence_json. cbn [app].
    now rewrite JSON_parse_backtick.
  - now rewrite clean_fenced_eq.
Qed.

(* ================================================================== *)
(** ** The upload filter and the error-handling function *)

Lemma file_type_error_marked :
  includes file_type_error (js "الرجاء تحميل ملف صورة") = true.
Proof. vm_compute. reflexivity. Qed.

Lemma upload_error_handler_marked (w : World) (c : jsval) (msg : jsstring) :
  includes msg (js "الرجاء تحميل ملف صورة") = true ->
  exists resp,
    snd (upload_error_handler w
           {| is_MulterError := false; code := c; message := msg |})
    = Some resp
    /\ status resp = 400
    /\ field (body resp) (js "error") = JStr msg.
Proof.
  intros Hi. unfold upload_error_handler.
  cbn [is_MulterError andb message]. rewrite Hi.
  eexists. split; [reflexivity|]. split; reflexivity.
Qed.

(** X12.  [fileFilter] accepts a file exactly when its type is PNG, JPEG or
    PDF; the error it raises for any other file is one that the
    error-handling function, when it is called with it, answers with
    status 400 and the message of the filter itself, in every mode. *)
Theorem upload_filter_and_handler (w : World) (file : upload) :
  (fileFilter file = inr true
   <-> (mimetype file = js "image/png" \/ mimetype file = js "image/jpeg"
        \/ mimetype file = js "application/pdf"))
  /\ fileFilter file <> inr false
  /\ forall msg, fileFilter file = inl msg ->
     exists resp,
       snd (upload_error_handler w
              {| is_MulterError := false; code := JUndefined;
                 message := msg |}) = Some resp
       /\ status resp = 400
       /\ field (body resp) (js "error") = JStr file_type_error.
Proof.
  unfold fileFilter.
  destruct (existsb (jsstring_eqb (mimetype file)) allowedTypes) eqn:E.
  - split; [|split; [discriminate | discriminate]].
    split; [intros _ | reflexivity].
    apply existsb_eqb_In in E. unfold allowedTypes in E. cbn [map In] in E.
    destruct E as [E|[E|[E|[]]]]; symmetry in E; auto.
  - split; [|split; [discriminate|]].
    + split; [discriminate|]. intros H. exfalso.
      assert (Hin : In (mimetype file) allowedTypes).
      { unfold allowedTypes. cbn [map In].
        destruct H as [-> | [-> | ->]]; auto. }
      apply existsb_eqb_In in Hin. congruence.
    + intros msg [= <-].
      exact (upload_error_handler_marked w JUndefined file_type_error
               file_type_error_marked).
Qed.

(** X13.  The error-handling function answers an error itself, always with
    status 400, exactly when the error is the size limit of multer or its
    message contains the marker of the file-type message; any other error
    is passed on with nothing logged. *)
Theorem upload_error_handler_cases (w : World) (err : upload_error) :
  ((exists resp, snd (upload_error_handler w err) = Some resp)
   <-> (is_MulterError err = true
        /\ code err = JStr (js "LIMIT_FILE_SIZE"))
       \/ includes (message err) (js "الرجاء تحميل ملف صورة") = true)
  /\ (forall resp, snd (upload_error_handler w err) = Some resp ->
      status resp = 400)
  /\ (snd (upload_error_handler w err) = None ->
      fst (upload_error_handler w err) = w)
  /\ (is_MulterError err = true ->
      code err = JStr (js "LIMIT_FILE_SIZE") ->
      exists resp, snd (upload_error_handler w err) = Some resp
                   /\ field (body resp) (js "error") = JStr file_too_large).
Proof.
  unfold upload_error_handler.
  assert (Hcode : is_string (code err) (js "LIMIT_FILE_SIZE") = true
                  <-> code err = JStr (js "LIMIT_FILE_SIZE")).
  { unfold is_string. destruct (code err); try (split; discriminate).
    destruct (jsstring_eqb_spec s (js "LIMIT_FILE_SIZE")); split; congruence. }
  assert (Hsize : is_MulterError err && is_string (code err) (js "LIMIT_FILE_SIZE")
                  = true
                  <-> is_MulterError err = true
                      /\ code err = JStr (js "LIMIT_FILE_SIZE")).
  { rewrite andb_true_iff, Hcode. reflexivity. }
  destruct (is_MulterError err && is_string (code err) (js "LIMIT_FILE_SIZE"))
    eqn:Es.
  - split; [|split; [|split]].
    + split; [intros _; left; now apply Hsize | intros _; eexists; reflexivity].
    + intros resp [= <-]. reflexivity.
    + discriminate.
    + intros _ _. eexists. split; reflexivity.
  - assert (Hno : ~ (is_MulterError err = true
                     /\ code err = JStr (js "LIMIT_FILE_SIZE"))).
    { intros H. apply Hsize in H. discriminate. }
    destruct (includes (message err) (js "الرجاء تحميل ملف صورة")) eqn:Ei.
    + split; [|split; [|split]].
      * split; [intros _; now right | intros _; eexists; reflexivity].
      * intros resp [= <-]. reflexivity.
      * discriminate.
      * intros H1 H2. exfalso. apply Hno. now split.
    + split; [|split; [|split]].
      * split; [intros [resp H]; discriminate|].
        intros [H|H]; [contradiction | discriminate].
      * discriminate.
      * reflexivity.
      * intros H1 H2. exfalso. apply Hno. now split.
Qed.

Lemma starts_with_app (sub post : jsstring) :
  starts_with sub (sub ++ post) = true.
Proof using.
  induction sub as [|c sub IH]; [reflexivity|].
  cbn [app starts_with]. now rewrite N.eqb_refl, IH.
Qed.

Lemma starts_with_split (sub s : jsstring) :
  starts_with sub s = true -> exists post, s = sub ++ post.
Proof using.
  revert s. induction sub as [|c sub IH]; intros s H.
  - now exists s.
  - destruct s as [|d s]; [discriminate|]. cbn [starts_with] in H.
    apply andb_true_iff in H. destruct H as [Hc Hs].
    apply N.eqb_eq in Hc. subst d.
    destruct (IH s Hs) as [post ->]. now exists post.
Qed.

(** [s.includes(sub)] holds exactly when [sub] occurs in [s]. *)
Lemma includes_spec (s sub : jsstring) :
  includes s sub = true <-> exists pre post, s = pre ++ sub ++ post.
Proof using.
  split.
  - induction s as [|c s IH]; cbn [includes]; intros H;
      apply orb_true_iff in H; destruct H as [H|H].
    + apply starts_with_split in H. destruct H as [post ->]. now exists [], post.
    + discriminate.
    + apply starts_with_split in H. destruct H as [post ->]. now exists [], post.
    + destruct (IH H) as [pre [post ->]]. now exists (c :: pre), post.
  - intros [pre [post ->]]. induction pre as [|c pre IH].
    + cbn [app]. destruct (sub ++ post) eqn:E; cbn [includes];
        rewrite <- E, starts_with_app; reflexivity.
    + cbn [app includes]. rewrite IH. apply orb_true_r.
Qed.

(** X21.  An error that multer did not raise and whose message contains
    the marker of the file-type message, anywhere in it, is answered 400
    with its whole message as the [error] of the body, in every mode;
    in development mode the message is the [details] too. *)
Theorem marked_error_is_echoed (w : World) (err : upload_error)
  (pre post : jsstring) :
  is_MulterError err = false ->
  message err = pre ++ js "الرجاء تحميل ملف صورة" ++ post ->
  exists resp,
    snd (upload_error_handler w err) = Some resp
    /\ status resp = 400
    /\ field (body resp) (js "error") = JStr (message err).
Proof.
  intros Hm Hmsg. destruct err as [m c msg].
  cbn [is_MulterError message] in *. subst m.
  apply upload_error_handler_marked.
  apply includes_spec. exists pre, post. exact Hmsg.
Qed.

(* ================================================================== *)
(** ** The allowed keys *)

Lemma distinct_keys_NoDup (l : list jsstring) :
  distinct_keys l = true -> NoDup l.
Proof using.
  induction l as [|k l IH]; simpl; [constructor|].
  rewrite andb_true_iff, negb_true_iff. intros [Hk Hl].
  constructor; [|now apply IH].
  intros Hin. apply existsb_eqb_In in Hin. congruence.
Qed.

Lemma allowedKeys_distinct : NoDup allowedKeys.
Proof using. apply distinct_keys_NoDup. vm_compute. reflexivity. Qed.

Lemma allowedKeys_no_index (k : jsstring) :
  In k allowedKeys -> array_index k = None.
Proof using.
  assert (H : forallb (fun a => match array_index a with
                                | None => true
                                | Some _ => false
                                end) allowedKeys = true)
    by (vm_compute; reflexivity).
  rewrite forallb_forall in H. intros Hk. specialize (H k Hk).
  now destruct (array_index k).
Qed.

Lemma normalize_keys_order (rawText : jsstring) (schema : list jsstring)
  (r : list (jsstring * jsval)) :
  normalize rawText schema = Normalized r ->
  NoDup schema ->
  (forall k, In k schema -> array_index k = None) ->
  obj_keys r = schema.
Proof.
  unfold normalize. destruct (parse_flat (clean rawText)); [|discriminate].
  intros [= <-] Hnd Hi. unfold project.
  now rewrite project_from_keys.
Qed.

Lemma normalize_values (rawText : jsstring) (schema : list jsstring)
  (r : list (jsstring * jsval)) :
  normalize rawText schema = Normalized r ->
  forall k v, obj_get r k = Some v -> v = JNull \/ exists t, v = JStr t.
Proof.
  unfold normalize.
  destruct (parse_flat (clean rawText)) as [j|]; [|discriminate].
  intros [= <-] k v. unfold project.
  rewrite obj_get_project_from.
  destruct (existsb (jsstring_eqb k) schema); [|discriminate].
  intros [= <-].
  destruct (negb (is_undefined (prop j k))); [right; eauto | now left].
Qed.

(* ================================================================== *)
(** ** The handlers, from the request to the response *)

Section RequestFacts.

Variable numberIsFalsy : number -> bool.
Variable prompt_head : jsstring.
Variable prompt_tail : jsstring.
Variable file_log : upload -> jsstring.

(** [String_] is the text of the conversion whenever the conversion does
    not throw; on a value that is neither an object nor an array it never
    throws. *)
Lemma ToString_String_ (v : jsval) :
  forall s, ToString v = Some s -> s = String_ v.
Proof using.
  induction v as [| |b|n|s0|vs IH|kvs IH] using jsval_nested_ind;
    intros s H; try (injection H as <-; reflexivity).
  - cbn [ToString String_] in H |- *.
    assert (Hp : forall l, Forall (fun e => forall s, ToString e = Some s ->
                                             s = String_ e) l ->
      forall ps,
        (fix parts (l : list jsval) : option (list jsstring) :=
           match l with
           | [] => Some []
           | e :: r =>
             match match e with
                   | JUndefined | JNull => Some []
                   | _ => ToString e
                   end, parts r with
             | Some p, Some ps => Some (p :: ps)
             | _, _ => None
             end
           end) l = Some ps ->
        ps = map (fun e => match e with
                           | JUndefined | JNull => []
                           | _ => String_ e
                           end) l).
    { induction l as [|e l IHl]; intros Hl ps Hps.
      - now injection Hps as <-.
      - pose proof (Forall_inv Hl) as He.
        specialize (IHl (Forall_inv_tail Hl)).
        destruct (match e with
                  | JUndefined | JNull => Some []
                  | _ => ToString e
                  end) as [p|] eqn:Ep; [|discriminate].
        destruct ((fix parts (l : list jsval) : option (list jsstring) :=
                     match l with
                     | [] => Some []
                     | e :: r =>
                       match match e with
                             | JUndefined | JNull => Some []
                             | _ => ToString e
                             end, parts r with
                       | Some p, Some ps => Some (p :: ps)
                       | _, _ => None
                       end
                     end) l) as [ps'|]; [|discriminate].
        injection Hps as <-. cbn [map]. rewrite (IHl ps' eq_refl). f_equal.
        destruct e; try (injection Ep as <-; reflexivity);
          now apply He. }
    destruct ((fix parts (l : list jsval) : option (list jsstring) :=
                 match l with
                 | [] => Some []
                 | e :: r =>
                   match match e with
                         | JUndefined | JNull => Some []
                         | _ => ToString e
                         end, parts r with
                   | Some p, Some ps => Some (p :: ps)
                   | _, _ => None
                   end
                 end) vs) as [ps|] eqn:Eps; [|discriminate].
    injection H as <-. now rewrite (Hp vs IH ps Eps).
  - cbn [ToString String_] in H |- *.
    destruct (obj_has kvs (js "toString")); [discriminate|].
    now injection H as <-.
Qed.

Lemma ToString_primitive (v : jsval) :
  is_structured v = false -> ToString v = Some (String_ v).
Proof using. destruct v; try discriminate; reflexivity. Qed.

(** The models of the SDK and the [TypeError] of a conversion. *)
Variable generative_model : Type.
Variable cannotConvert : js_error.

Lemma prompt_try_response (cleaning : jsstring -> jsstring)
  (generateContent : jsstring -> js_error + jsstring) (w : World)
  (text : jsval) :
  snd (prompt_try prompt_head prompt_tail cannotConvert cleaning
         generateContent w text)
  = match ToString text with
    | None => internal_error_response text_internal_error w cannotConvert
    | Some t =>
      match generateContent (prompt_head ++ t ++ prompt_tail) with
      | inr rawText =>
        match parse_flat (cleaning rawText) with
        | Returned jsonResponse => success_response jsonResponse
        | Thrown message => malformed_prompt_response w message
        end
      | inl e => internal_error_response text_internal_error w e
      end
    end.
Proof.
  unfold prompt_try, template.
  destruct (ToString text) as [t|]; [|reflexivity].
  destruct (generateContent _) as [e|rawText]; [reflexivity|].
  apply prompt_step_response.
Qed.

(** The response does not depend on what the console holds. *)
Lemma prompt_try_logged (cleaning : jsstring -> jsstring)
  (generateContent : jsstring -> js_error + jsstring) (w : World)
  (args : list jsval) (text : jsval) :
  snd (prompt_try prompt_head prompt_tail cannotConvert cleaning
         generateContent (console_log args w) text)
  = snd (prompt_try prompt_head prompt_tail cannotConvert cleaning
           generateContent w text).
Proof. rewrite !prompt_try_response. reflexivity. Qed.

Lemma prompt_handler_response (dynamic : bool)
  (cleaning : jsstring -> jsstring) (model : generative_model)
  (getGenerativeModel : jsval -> js_error + generative_model)
  (generateContent : generative_model -> jsstring -> js_error + jsstring)
  (GEMINI_MODEL : option jsstring) (w : World) (body : jsval) :
  snd (prompt_handler numberIsFalsy prompt_head prompt_tail generative_model cannotConvert
         dynamic cleaning model getGenerativeModel generateContent
         GEMINI_MODEL w body)
  = if negb (ToBoolean numberIsFalsy (field body (js "text")))
    then Answered (error_response 400 no_text)
    else
      if dynamic then
        match getGenerativeModel
                (selected_model numberIsFalsy (field body (js "model"))
                   GEMINI_MODEL)
        with
        | inl e => Rejected e
        | inr m =>
          match ToString (selected_model numberIsFalsy
                            (field body (js "model")) GEMINI_MODEL)
          with
          | None => Rejected cannotConvert
          | Some _ =>
            Answered
              (snd (prompt_try prompt_head prompt_tail cannotConvert
                      cleaning (generateContent m) w
                      (field body (js "text"))))
          end
        end
      else
        Answered
          (snd (prompt_try prompt_head prompt_tail cannotConvert cleaning
                  (generateContent model) w (field body (js "text")))).
Proof.
  unfold prompt_handler. cbv zeta.
  destruct (negb (ToBoolean numberIsFalsy (field body (js "text"))));
    [reflexivity|].
  destruct dynamic.
  - destruct (getGenerativeModel _) as [e|m]; [reflexivity|].
    unfold template.
    destruct (ToString _) as [line|]; [|reflexivity].
    rewrite <- (prompt_try_logged cleaning (generateContent m) w
                  [JStr (js "tex"); field body (js "text")]).
    rewrite <- (prompt_try_logged cleaning (generateContent m) _
                  [JStr (js "[INFO] استخدام نموذج: " ++ line ++ [])]).
    rewrite <- (prompt_try_logged cleaning (generateContent m) _
                  [JStr (js "[INFO] إرسال النص إلى Gemini...")]).
    now destruct (prompt_try _ _ _ _ _ _ _).
  - rewrite <- (prompt_try_logged cleaning (generateContent model) w
                  [JStr (js "tex"); field body (js "text")]).
    rewrite <- (prompt_try_logged cleaning (generateContent model) _
                  [JStr (js "[INFO] إرسال النص إلى Gemini...")]).
    now destruct (prompt_try _ _ _ _ _ _ _).
Qed.

(** X14.  [/prompt] answers 400 exactly when the [text] of the body is
    falsy (missing, [null], empty, zero, [false]), and then nothing is
    asked of the SDK; it answers 200 exactly when the text is truthy and
    has a string, the model is made and its name logged (later versions),
    the model gives an answer and that answer parses to an object, and the
    body is then the coerced object under [jsonResponse]; any other
    request is answered 500, or the handler throws without an answer. *)
Theorem prompt_handler_status (dynamic : bool)
  (cleaning : jsstring -> jsstring) (model : generative_model)
  (getGenerativeModel : jsval -> js_error + generative_model)
  (generateContent : generative_model -> jsstring -> js_error + jsstring)
  (GEMINI_MODEL : option jsstring) (w : World) (body : jsval) :
  (answered_status
     (snd (prompt_handler numberIsFalsy prompt_head prompt_tail generative_model cannotConvert
             dynamic cleaning model getGenerativeModel generateContent
             GEMINI_MODEL w body)) = Some 400
   <-> ToBoolean numberIsFalsy (field body (js "text")) = false)
  /\ (answered_status
        (snd (prompt_handler numberIsFalsy prompt_head prompt_tail
                generative_model cannotConvert dynamic cleaning model getGenerativeModel
                generateContent GEMINI_MODEL w body)) = Some 200
      <-> ToBoolean numberIsFalsy (field body (js "text")) = true
          /\ exists m t rawText jsonResponse,
               (if dynamic
                then getGenerativeModel
                       (selected_model numberIsFalsy
                          (field body (js "model")) GEMINI_MODEL) = inr m
                     /\ ToString (selected_model numberIsFalsy
                                    (field body (js "model")) GEMINI_MODEL)
                        <> None
                else m = model)
               /\ ToString (field body (js "text")) = Some t
               /\ generateContent m (prompt_head ++ t ++ prompt_tail)
                  = inr rawText
               /\ parse_flat (cleaning rawText) = Returned jsonResponse
               /\ snd (prompt_handler numberIsFalsy prompt_head prompt_tail
                         generative_model cannotConvert dynamic cleaning model
                         getGenerativeModel generateContent GEMINI_MODEL w
                         body)
                  = Answered (success_response jsonResponse))
  /\ (answered_status
        (snd (prompt_handler numberIsFalsy prompt_head prompt_tail
                generative_model cannotConvert dynamic cleaning model getGenerativeModel
                generateContent GEMINI_MODEL w body)) = Some 200
      \/ answered_status
           (snd (prompt_handler numberIsFalsy prompt_head prompt_tail
                   generative_model cannotConvert dynamic cleaning model getGenerativeModel
                   generateContent GEMINI_MODEL w body)) = Some 400
      \/ answered_status
           (snd (prompt_handler numberIsFalsy prompt_head prompt_tail
                   generative_model cannotConvert dynamic cleaning model getGenerativeModel
                   generateContent GEMINI_MODEL w body)) = Some 500
      \/ answered_status
           (snd (prompt_handler numberIsFalsy prompt_head prompt_tail
                   generative_model cannotConvert dynamic cleaning model getGenerativeModel
                   generateContent GEMINI_MODEL w body)) = None)
  /\ (ToBoolean numberIsFalsy (field body (js "text")) = false ->
      forall model' getGenerativeModel' generateContent',
        prompt_handler numberIsFalsy prompt_head prompt_tail generative_model cannotConvert
          dynamic cleaning model' getGenerativeModel' generateContent'
          GEMINI_MODEL w body
        = prompt_handler numberIsFalsy prompt_head prompt_tail generative_model cannotConvert
            dynamic cleaning model getGenerativeModel generateContent
            GEMINI_MODEL w body).
Proof.
  split; [|split; [|split]].
  - rewrite prompt_handler_response.
    destruct (ToBoolean numberIsFalsy (field body (js "text"))); cbn [negb];
      [|split; reflexivity].
    split; [|discriminate].
    destruct dynamic.
    + destruct (getGenerativeModel _) as [e|m]; [discriminate|].
      destruct (ToString (selected_model _ _ _)); [|discriminate].
      rewrite prompt_try_response.
      destruct (ToString (field body (js "text"))); [|discriminate].
      destruct (generateContent _ _) as [e|rawText]; [discriminate|].
      destruct (parse_flat (cleaning rawText)); discriminate.
    + rewrite prompt_try_response.
      destruct (ToString (field body (js "text"))); [|discriminate].
      destruct (generateContent _ _) as [e|rawText]; [discriminate|].
      destruct (parse_flat (cleaning rawText)); discriminate.
  - rewrite prompt_handler_response.
    destruct (ToBoolean numberIsFalsy (field body (js "text"))); cbn [negb];
      [|split; [discriminate | intros [H _]; discriminate]].
    destruct dynamic.
    + destruct (getGenerativeModel _) as [e|m] eqn:Em.
      { split; [discriminate|].
        intros [_ [m [t [r [j [[H _] _]]]]]]. discriminate. }
      destruct (ToString (selected_model _ _ _)) as [line|] eqn:El.
      2:{ split; [discriminate|].
          intros [_ [m' [t [r [j [[_ H] _]]]]]]. now contradiction H. }
      rewrite prompt_try_response.
      destruct (ToString (field body (js "text"))) as [t|] eqn:Et.
      2:{ split; [discriminate|].
          intros [_ [m' [t [r [j [_ [H _]]]]]]]. discriminate. }
      destruct (generateContent m _) as [e|rawText] eqn:Eg.
      { split; [discriminate|].
        intros [_ [m' [t' [r [j [[Hm _] [Ht [Hg _]]]]]]]].
        injection Hm as <-. injection Ht as <-. congruence. }
      destruct (parse_flat (cleaning rawText)) as [j|msg] eqn:Ep.
      * split; [intros _ | reflexivity]. split; [reflexivity|].
        exists m, t, rawText, j.
        split; [split; [reflexivity | discriminate]|].
        split; [reflexivity|]. split; [exact Eg|]. split; [exact Ep|].
        reflexivity.
      * split; [discriminate|].
        intros [_ [m' [t' [r [j [[Hm _] [Ht [Hg [Hp _]]]]]]]]].
        injection Hm as <-. injection Ht as <-.
        rewrite Eg in Hg. injection Hg as <-. congruence.
    + rewrite prompt_try_response.
      destruct (ToString (field body (js "text"))) as [t|] eqn:Et.
      2:{ split; [discriminate|].
          intros [_ [m' [t [r [j [_ [H _]]]]]]]. discriminate. }
      destruct (generateContent model _) as [e|rawText] eqn:Eg.
      { split; [discriminate|].
        intros [_ [m' [t' [r [j [-> [Ht [Hg _]]]]]]]].
        injection Ht as <-. congruence. }
      destruct (parse_flat (cleaning rawText)) as [j|msg] eqn:Ep.
      * split; [intros _ | reflexivity]. split; [reflexivity|].
        exists model, t, rawText, j.
        split; [reflexivity|].
        split; [reflexivity|]. split; [exact Eg|]. split; [exact Ep|].
        reflexivity.
      * split; [discriminate|].
        intros [_ [m' [t' [r [j [-> [Ht [Hg [Hp _]]]]]]]]].
        injection Ht as <-.
        rewrite Eg in Hg. injection Hg as <-. congruence.
  - rewrite prompt_handler_response.
    destruct (ToBoolean numberIsFalsy (field body (js "text"))); cbn [negb];
      [|right; left; reflexivity].
    assert (Htry : forall g,
      answered_status
        (Answered (snd (prompt_try prompt_head prompt_tail cannotConvert
                          cleaning g w (field body (js "text")))))
      = Some 200
      \/ answered_status
           (Answered (snd (prompt_try prompt_head prompt_tail cannotConvert
                             cleaning g w (field body (js "text")))))
         = Some 500).
    { intros g. rewrite prompt_try_response.
      destruct (ToString (field body (js "text"))); [|now right].
      destruct (g _) as [e|rawText]; [now right|].
      destruct (parse_flat (cleaning rawText)); [now left | now right]. }
    destruct dynamic.
    + destruct (getGenerativeModel _) as [e|m]; [now do 3 right|].
      destruct (ToString (selected_model _ _ _)); [|now do 3 right].
      destruct (Htry (generateContent m)) as [H|H]; rewrite H; tauto.
    + destruct (Htry (generateContent model)) as [H|H]; rewrite H; tauto.
  - intros H model' getGenerativeModel' generateContent'.
    unfold prompt_handler. now rewrite H.
Qed.

(** X25.  A truthy [text] that has no string (an object with a property
    [toString], or an array that holds one) is answered 500 with the
    message of the internal error, and Gemini is not asked; the later
    versions throw without an answer exactly when the text is truthy and
    the SDK refuses the selected model or the selected model has no
    string, and [server.js] always answers. *)
Theorem prompt_handler_conversions (dynamic : bool)
  (cleaning : jsstring -> jsstring) (model : generative_model)
  (getGenerativeModel : jsval -> js_error + generative_model)
  (generateContent : generative_model -> jsstring -> js_error + jsstring)
  (GEMINI_MODEL : option jsstring) (w : World) (body : jsval) :
  (answered_status
     (snd (prompt_handler numberIsFalsy prompt_head prompt_tail generative_model cannotConvert
             dynamic cleaning model getGenerativeModel generateContent
             GEMINI_MODEL w body)) = None
   <-> dynamic = true
       /\ ToBoolean numberIsFalsy (field body (js "text")) = true
       /\ ((exists e, getGenerativeModel
                        (selected_model numberIsFalsy
                           (field body (js "model")) GEMINI_MODEL) = inl e)
           \/ ToString (selected_model numberIsFalsy
                          (field body (js "model")) GEMINI_MODEL) = None))
  /\ (ToBoolean numberIsFalsy (field body (js "text")) = true ->
      ToString (field body (js "text")) = None ->
      answered_status
        (snd (prompt_handler numberIsFalsy prompt_head prompt_tail
                generative_model cannotConvert dynamic cleaning model getGenerativeModel
                generateContent GEMINI_MODEL w body)) <> None ->
      snd (prompt_handler numberIsFalsy prompt_head prompt_tail generative_model cannotConvert
             dynamic cleaning model getGenerativeModel generateContent
             GEMINI_MODEL w body)
      = Answered (internal_error_response text_internal_error w cannotConvert)
      /\ forall generateContent',
           snd (prompt_handler numberIsFalsy prompt_head prompt_tail
                  generative_model cannotConvert dynamic cleaning model getGenerativeModel
                  generateContent' GEMINI_MODEL w body)
           = snd (prompt_handler numberIsFalsy prompt_head prompt_tail
                    generative_model cannotConvert dynamic cleaning model getGenerativeModel
                    generateContent GEMINI_MODEL w body)).
Proof.
  split.
  - rewrite prompt_handler_response.
    destruct (ToBoolean numberIsFalsy (field body (js "text"))); cbn [negb];
      [|split; [discriminate | intros [_ [H _]]; discriminate]].
    destruct dynamic;
      [|split; [discriminate | intros [H _]; discriminate]].
    destruct (getGenerativeModel _) as [e|m].
    { split; [intros _ | reflexivity].
      split; [reflexivity|]. split; [reflexivity|]. left. eauto. }
    destruct (ToString (selected_model _ _ _)).
    + split; [discriminate|].
      intros [_ [_ [[e H]|H]]]; discriminate.
    + split; [intros _ | reflexivity].
      split; [reflexivity|]. split; [reflexivity|]. now right.
  - intros Ht Hs. rewrite !prompt_handler_response. rewrite Ht. cbn [negb].
    intros Hans.
    assert (Htry : forall g,
      snd (prompt_try prompt_head prompt_tail cannotConvert cleaning g w
             (field body (js "text")))
      = internal_error_response text_internal_error w cannotConvert).
    { intros g. rewrite prompt_try_response. now rewrite Hs. }
    split.
    + destruct dynamic; [|now rewrite Htry].
      destruct (getGenerativeModel _) as [e|m]; [now contradiction Hans|].
      destruct (ToString (selected_model _ _ _));
        [now rewrite Htry | now contradiction Hans].
    + intros generateContent'. rewrite prompt_handler_response, Ht.
      cbn [negb]. destruct dynamic; [|now rewrite !Htry].
      destruct (getGenerativeModel _) as [e|m]; [reflexivity|].
      destruct (ToString (selected_model _ _ _)); [|reflexivity].
      now rewrite !Htry.
Qed.

(** X15.  Outside of development mode a response of [/prompt] whose
    status is not 200 is one of three fixed texts: nothing of the text of
    the request, of the error of the model or of the answer of the model
    is in the response. *)
Theorem prompt_handler_production (dynamic : bool)
  (cleaning : jsstring -> jsstring) (model : generative_model)
  (getGenerativeModel : jsval -> js_error + generative_model)
  (generateContent : generative_model -> jsstring -> js_error + jsstring)
  (GEMINI_MODEL : option jsstring) (w : World) (body : jsval)
  (r : response) :
  development w = false ->
  snd (prompt_handler numberIsFalsy prompt_head prompt_tail generative_model cannotConvert
         dynamic cleaning model getGenerativeModel generateContent
         GEMINI_MODEL w body) = Answered r ->
  status r <> 200 ->
  sent r = sent (error_response 400 no_text)
  \/ sent r = sent (error_response 500 text_internal_error)
  \/ sent r = sent (error_response 500 parse_failure).
Proof.
  intros Hdev. rewrite prompt_handler_response.
  destruct (ToBoolean numberIsFalsy (field body (js "text"))); cbn [negb];
    [|intros [= <-] _; left; reflexivity].
  assert (Htry : forall g,
    snd (prompt_try prompt_head prompt_tail cannotConvert cleaning g w
           (field body (js "text"))) = r ->
    status r <> 200 ->
    sent r = sent (error_response 400 no_text)
    \/ sent r = sent (error_response 500 text_internal_error)
    \/ sent r = sent (error_response 500 parse_failure)).
  { intros g. rewrite prompt_try_response.
    destruct (ToString (field body (js "text"))).
    - destruct (g _) as [e|rawText].
      + intros <- _. right. left.
        unfold internal_error_response, sent. now rewrite Hdev.
      + destruct (parse_flat (cleaning rawText)).
        * intros <- H. now contradiction H.
        * intros <- _. right. right.
          unfold malformed_prompt_response, sent. now rewrite Hdev.
    - intros <- _. right. left.
      unfold internal_error_response, sent. now rewrite Hdev. }
  destruct dynamic.
  - destruct (getGenerativeModel _) as [e|m]; [discriminate|].
    destruct (ToString (selected_model _ _ _)); [|discriminate].
    intros [= H]. now apply (Htry (generateContent m)).
  - intros [= H]. now apply (Htry (generateContent model)).
Qed.

Lemma api_gemini_handler_response (dynamic : bool)
  (norm : jsstring -> normalized)
  (generate : jsval -> upload -> js_error + jsstring)
  (GEMINI_MODEL : option jsstring) (w : World) (file : option upload)
  (body : jsval) :
  snd (api_gemini_handler numberIsFalsy file_log dynamic norm generate
         GEMINI_MODEL w file body)
  = match file with
    | None => error_response 400 no_file
    | Some f =>
      match generate (model_of numberIsFalsy dynamic GEMINI_MODEL body) f with
      | inr rawText =>
        match norm rawText with
        | Normalized r => success_response r
        | MalformedOutput message cleaned =>
          malformed_response w message cleaned
        end
      | inl e => internal_error_response image_internal_error w e
      end
    end.
Proof.
  unfold api_gemini_handler. destruct file as [f|]; [|reflexivity].
  destruct (generate _ f) as [e|rawText]; [|rewrite image_step_response].
  - unfold log_model. now destruct dynamic.
  - destruct (norm rawText); [reflexivity|].
    unfold log_model. now destruct dynamic.
Qed.


Lemma api_gemini_handler_projected (schema : list jsstring) (dynamic : bool)
  (generate : jsval -> upload -> js_error + jsstring)
  (GEMINI_MODEL : option jsstring) (w : World) (file : option upload)
  (req : jsval) :
  NoDup schema ->
  (forall k, In k schema -> array_index k = None) ->
  status (snd (api_gemini_handler numberIsFalsy file_log dynamic
                 (fun t => normalize t schema) generate GEMINI_MODEL w
                 file req)) = 200 ->
  exists r,
    body (snd (api_gemini_handler numberIsFalsy file_log dynamic
                 (fun t => normalize t schema) generate GEMINI_MODEL w
                 file req))
    = JObj [(js "jsonResponse", JObj r)]
    /\ obj_keys r = schema
    /\ forall k v, obj_get r k = Some v -> v = JNull \/ exists t, v = JStr t.
Proof.
  intros Hnd Hi.
  rewrite api_gemini_handler_response. destruct file as [f|]; [|discriminate].
  destruct (generate _ f) as [e|rawText]; [discriminate|].
  destruct (normalize rawText schema) as [r|m c] eqn:En; [|discriminate].
  intros _. exists r. split; [reflexivity|]. split.
  - exact (normalize_keys_order _ _ _ En Hnd Hi).
  - exact (normalize_values _ _ _ En).
Qed.

(** X17.  Every 200 answer of the [/api/gemini] handler that projects on
    [allowedKeys] carries under [jsonResponse] an object whose keys are
    [allowedKeys], in that order, and whose values are strings or [null],
    whatever the model answered. *)
Theorem api_gemini_handler_contract (dynamic : bool)
  (generate : jsval -> upload -> js_error + jsstring)
  (GEMINI_MODEL : option jsstring) (w : World) (file : option upload)
  (req : jsval) :
  status (snd (api_gemini_handler numberIsFalsy file_log dynamic
                 (fun t => normalize t allowedKeys) generate GEMINI_MODEL w
                 file req)) = 200 ->
  exists r,
    body (snd (api_gemini_handler numberIsFalsy file_log dynamic
                 (fun t => normalize t allowedKeys) generate GEMINI_MODEL w
                 file req))
    = JObj [(js "jsonResponse", JObj r)]
    /\ obj_keys r = allowedKeys
    /\ forall k v, obj_get r k = Some v -> v = JNull \/ exists t, v = JStr t.
Proof.
  exact (api_gemini_handler_projected allowedKeys dynamic generate
           GEMINI_MODEL w file req allowedKeys_distinct
           allowedKeys_no_index).
Qed.

(** X18.  Outside of development mode an [/api/gemini] request that is not
    answered 200 is sent one of three fixed texts: neither the error of the
    model nor the answer of the model is in the response. *)
Theorem api_gemini_handler_production (dynamic : bool)
  (norm : jsstring -> normalized)
  (generate : jsval -> upload -> js_error + jsstring)
  (GEMINI_MODEL : option jsstring) (w : World) (file : option upload)
  (req : jsval) :
  development w = false ->
  status (snd (api_gemini_handler numberIsFalsy file_log dynamic norm
                 generate GEMINI_MODEL w file req)) <> 200 ->
  sent (snd (api_gemini_handler numberIsFalsy file_log dynamic norm generate
               GEMINI_MODEL w file req))
  = sent (error_response 400 no_file)
  \/ sent (snd (api_gemini_handler numberIsFalsy file_log dynamic norm
                  generate GEMINI_MODEL w file req))
     = sent (error_response 500 image_internal_error)
  \/ sent (snd (api_gemini_handler numberIsFalsy file_log dynamic norm
                  generate GEMINI_MODEL w file req))
     = sent (error_response 500 parse_failure).
Proof.
  intros Hdev. rewrite api_gemini_handler_response.
  destruct file as [f|]; [|left; reflexivity].
  destruct (generate _ f) as [e|rawText].
  - intros _. right. left.
    unfold internal_error_response, sent. now rewrite Hdev.
  - destruct (norm rawText) as [r|m c].
    + intros H. now contradiction H.
    + intros _. right. right.
      unfold malformed_response, sent. now rewrite Hdev.
Qed.

(** X19.  [/process-document] of the Document AI server answers 400 when
    no file was uploaded or the file is not a PDF, and then Document AI is
    not called and nothing is logged; it answers 200 exactly for a PDF that
    Document AI processes, with the extracted text and entities as the
    body; a failure of Document AI is answered 500. *)
Theorem process_document_handler_status
  (processDocument : jsstring -> upload -> js_error + document)
  (env : gcp_env) (w : World) (file : option upload) :
  (status (snd (process_document_handler processDocument env w file)) = 400
   <-> file = None
       \/ exists f, file = Some f /\ mimetype f <> js "application/pdf")
  /\ (status (snd (process_document_handler processDocument env w file)) = 200
      <-> exists f d,
            file = Some f /\ mimetype f = js "application/pdf"
            /\ processDocument (processor_name env) f = inr d
            /\ body (snd (process_document_handler processDocument env w
                            file))
               = extracted_js (process_document d))
  /\ (status (snd (process_document_handler processDocument env w file)) = 500
      <-> exists f e,
            file = Some f /\ mimetype f = js "application/pdf"
            /\ processDocument (processor_name env) f = inl e)
  /\ (status (snd (process_document_handler processDocument env w file)) = 400
      -> forall processDocument',
        process_document_handler processDocument' env w file
        = process_document_handler processDocument env w file
        /\ fst (process_document_handler processDocument env w file) = w).
Proof.
  unfold process_document_handler. destruct file as [f|].
  - destruct (jsstring_eqb_spec (mimetype f) (js "application/pdf"))
      as [Hpdf|Hpdf]; cbn [negb].
    + destruct (processDocument (processor_name env) f) as [e|d] eqn:Ep.
      * split; [|split; [|split]].
        -- split; [discriminate|].
           intros [H|[f' [[= <-] H]]]; [discriminate | contradiction].
        -- split; [discriminate|].
           intros [f' [d [[= <-] [_ [H _]]]]]. congruence.
        -- split; [intros _ | reflexivity]. exists f, e. now repeat split.
        -- discriminate.
      * split; [|split; [|split]].
        -- split; [discriminate|].
           intros [H|[f' [[= <-] H]]]; [discriminate | contradiction].
        -- split; [intros _ | reflexivity]. exists f, d. now repeat split.
        -- split; [discriminate|].
           intros [f' [e [[= <-] [_ H]]]]. congruence.
        -- discriminate.
    + split; [|split; [|split]].
      * split; [intros _ | reflexivity]. right. exists f. now split.
      * split; [discriminate|].
        intros [f' [d [[= <-] [H _]]]]. contradiction.
      * split; [discriminate|].
        intros [f' [e [[= <-] [H _]]]]. contradiction.
      * intros _ p'. split; reflexivity.
  - split; [|split; [|split]].
    + split; [intros _; now left | reflexivity].
    + split; [discriminate|]. intros [f [d [H _]]]. discriminate.
    + split; [discriminate|]. intros [f [e [H _]]]. discriminate.
    + intros _ p'. split; reflexivity.
Qed.

Lemma is_string_spec (v : jsval) (s : jsstring) :
  is_string v s = true <-> v = JStr s.
Proof.
  unfold is_string. destruct v; try (split; discriminate).
  destruct (jsstring_eqb_spec s0 s); split; congruence.
Qed.

(** The guard of [/processor-control]. *)
Lemma valid_action_spec (action : jsval) :
  negb (ToBoolean numberIsFalsy action)
  || negb (is_string action (js "enable") || is_string action (js "disable"))
  = false
  <-> action = JStr (js "enable") \/ action = JStr (js "disable").
Proof.
  rewrite orb_false_iff, !negb_false_iff, orb_true_iff, !is_string_spec.
  split; [tauto|]. intros H. split; [|assumption].
  destruct H as [-> | ->]; reflexivity.
Qed.

(** X20.  [/processor-control] answers 400 to every body whose [action] is
    not the string [enable] or the string [disable], and then no operation
    is started on the processor; with [disable] only [disableProcessor] is
    called and with [enable] only [enableProcessor]; the answer is 200
    exactly when the call and the operation it starts both succeed, and 500
    when one of them fails. *)
Theorem processor_control_status (client : processor_client) (env : gcp_env)
  (w : World) (req : jsval) :
  (status (snd (processor_control numberIsFalsy client env w req)) = 400
   <-> ~ (field req (js "action") = JStr (js "enable")
          \/ field req (js "action") = JStr (js "disable")))
  /\ (status (snd (processor_control numberIsFalsy client env w req)) = 400 ->
      forall client',
        processor_control numberIsFalsy client' env w req
        = (w, error_response 400 invalid_action))
  /\ (field req (js "action") = JStr (js "disable") ->
      forall client',
        disableProcessor client' = disableProcessor client ->
        processor_control numberIsFalsy client' env w req
        = processor_control numberIsFalsy client env w req)
  /\ (field req (js "action") = JStr (js "enable") ->
      forall client',
        enableProcessor client' = enableProcessor client ->
        processor_control numberIsFalsy client' env w req
        = processor_control numberIsFalsy client env w req)
  /\ (status (snd (processor_control numberIsFalsy client env w req)) = 200
      <-> exists response,
            (field req (js "action") = JStr (js "disable")
             /\ disableProcessor client (processor_name env)
                = inr (inr response)
             \/ field req (js "action") = JStr (js "enable")
                /\ enableProcessor client (processor_name env)
                   = inr (inr response))
            /\ field (body (snd (processor_control numberIsFalsy client env w
                                   req))) (js "response") = response).
Proof.
  pose proof (valid_action_spec (field req (js "action"))) as Hv.
  unfold processor_control.
  destruct (negb (ToBoolean numberIsFalsy (field req (js "action")))
            || negb (is_string (field req (js "action")) (js "enable")
                     || is_string (field req (js "action")) (js "disable")))
    eqn:Eg.
  - assert (Hn : ~ (field req (js "action") = JStr (js "enable")
                    \/ field req (js "action") = JStr (js "disable"))).
    { intros H. apply Hv in H. discriminate. }
    split; [|split; [|split; [|split]]].
    + split; [intros _; exact Hn | reflexivity].
    + reflexivity.
    + intros H. exfalso. apply Hn. now right.
    + intros H. exfalso. apply Hn. now left.
    + split; [discriminate|].
      intros [r [[[H _]|[H _]] _]]; exfalso; apply Hn; [now right | now left].
  - assert (Hy := proj1 Hv eq_refl).
    destruct Hy as [Ha|Ha]; rewrite Ha; cbn [is_string].
    + change (jsstring_eqb (js "enable") (js "disable")) with false.
      cbn [fst snd].
      split; [|split; [|split; [|split]]].
      * destruct (enableProcessor client (processor_name env)) as [e|[e|r]];
          (split; [discriminate|]); intros H; exfalso; apply H; now left.
      * destruct (enableProcessor client (processor_name env)) as [e|[e|r]];
          discriminate.
      * discriminate.
      * intros _ client' ->. reflexivity.
      * destruct (enableProcessor client (processor_name env))
          as [e|[e|r]] eqn:Ee.
        -- split; [discriminate|].
           intros [r [[[H _]|[_ H]] _]]; discriminate.
        -- split; [discriminate|].
           intros [r [[[H _]|[_ H]] _]]; discriminate.
        -- split; [intros _ | reflexivity]. exists r. split; [|reflexivity].
           right. now split.
    + change (jsstring_eqb (js "disable") (js "disable")) with true.
      cbn [fst snd].
      split; [|split; [|split; [|split]]].
      * destruct (disableProcessor client (processor_name env)) as [e|[e|r]];
          (split; [discriminate|]); intros H; exfalso; apply H; now right.
      * destruct (disableProcessor client (processor_name env)) as [e|[e|r]];
          discriminate.
      * intros _ client' ->. reflexivity.
      * discriminate.
      * destruct (disableProcessor client (processor_name env))
          as [e|[e|r]] eqn:Ee.
        -- split; [discriminate|].
           intros [r [[[_ H]|[H _]] _]]; discriminate.
        -- split; [discriminate|].
           intros [r [[[_ H]|[H _]] _]]; discriminate.
        -- split; [intros _ | reflexivity]. exists r. split; [|reflexivity].
           left. now split.
Qed.

(* ------------------------------------------------------------------ *)
(** *** The model asked *)

(** X22.  The model that the later versions ask is never a falsy value:
    it is the [model] of the body when that is truthy, of whatever type,
    and otherwise a non-empty string, the environment variable
    [GEMINI_MODEL] when it is set and not empty and the default model when
    it is not. *)
Theorem selected_model_is_set (modelName : jsval)
  (GEMINI_MODEL : option jsstring) :
  ToBoolean numberIsFalsy (selected_model numberIsFalsy modelName GEMINI_MODEL)
  = true
  /\ (ToBoolean numberIsFalsy modelName = true ->
      selected_model numberIsFalsy modelName GEMINI_MODEL = modelName)
  /\ (ToBoolean numberIsFalsy modelName = false ->
      exists s,
        selected_model numberIsFalsy modelName GEMINI_MODEL = JStr s
        /\ s <> []
        /\ (GEMINI_MODEL = Some s
            \/ (s = default_model
                /\ (GEMINI_MODEL = None \/ GEMINI_MODEL = Some [])))).
Proof.
  unfold selected_model.
  destruct (ToBoolean numberIsFalsy modelName) eqn:E.
  - split; [exact E|]. split; [reflexivity | discriminate].
  - split; [|split; [discriminate|]].
    + destruct GEMINI_MODEL as [[|c s]|]; reflexivity.
    + intros _. destruct GEMINI_MODEL as [[|c s]|]; cbn [or_default].
      * exists default_model. split; [reflexivity|].
        split; [discriminate | right; split; [reflexivity | now right]].
      * exists (c :: s). split; [reflexivity|].
        split; [discriminate | now left].
      * exists default_model. split; [reflexivity|].
        split; [discriminate | right; split; [reflexivity | now left]].
Qed.

(* ------------------------------------------------------------------ *)
(** *** What the handlers leave of the world *)

Lemma appended_refl (w : World) : appended w w.
Proof using.
  split; [reflexivity|]. exists []. now rewrite app_nil_r.
Qed.

Lemma appended_log (args : list jsval) (w w' : World) :
  appended w w' -> appended w (console_log args w').
Proof using.
  intros [He [l Hl]]. split; [exact He|].
  exists (l ++ [args]). cbn [console_log console].
  now rewrite Hl, app_assoc.
Qed.

Lemma appended_log_model (dynamic : bool) (model : jsval) (w w' : World) :
  appended w w' -> appended w (log_model dynamic model w').
Proof using.
  intros H. unfold log_model. destruct dynamic; [|exact H].
  now apply appended_log.
Qed.

Lemma appended_prompt_step (cleaning : jsstring -> jsstring) (w w' : World)
  (rawText : jsstring) :
  appended w w' -> appended w (fst (prompt_step cleaning w' rawText)).
Proof using.
  intros H. unfold prompt_step.
  destruct (parse_flat (cleaning rawText)); cbn [fst]; now apply appended_log.
Qed.

Lemma appended_image_step (norm : jsstring -> normalized) (w w' : World)
  (rawText : jsstring) :
  appended w w' -> appended w (fst (image_step norm w' rawText)).
Proof using.
  intros H. unfold image_step.
  destruct (norm rawText); cbn [fst]; now repeat apply appended_log.
Qed.

Lemma appended_prompt_try (cleaning : jsstring -> jsstring)
  (generateContent : jsstring -> js_error + jsstring) (w w' : World)
  (text : jsval) :
  appended w w' ->
  appended w (fst (prompt_try prompt_head prompt_tail cannotConvert cleaning
                     generateContent w' text)).
Proof using.
  intros H. unfold prompt_try. cbv zeta.
  destruct (template _ _ _ _) as [e|prompt];
    [cbn [fst]; now apply appended_log|].
  destruct (generateContent prompt) as [e|rawText];
    [cbn [fst]; now apply appended_log|].
  now apply appended_prompt_step.
Qed.

(** X23.  No handler changes [NODE_ENV], and none removes or rewrites a
    line of the console: the world after a request is the world before it
    with lines appended, whatever the model, Document AI or the client of
    the processor answer. *)
Theorem handlers_keep_environment (dynamic : bool)
  (cleaning : jsstring -> jsstring) (norm : jsstring -> normalized)
  (model : generative_model)
  (getGenerativeModel : jsval -> js_error + generative_model)
  (generateContent : generative_model -> jsstring -> js_error + jsstring)
  (generate_image : jsval -> upload -> js_error + jsstring)
  (processDocument : jsstring -> upload -> js_error + document)
  (client : processor_client) (GEMINI_MODEL : option jsstring)
  (env : gcp_env) (w : World) (file : option upload) (req : jsval)
  (err : upload_error) :
  appended w (fst (prompt_handler numberIsFalsy prompt_head prompt_tail
                     generative_model cannotConvert dynamic cleaning model getGenerativeModel
                     generateContent GEMINI_MODEL w req))
  /\ appended w (fst (api_gemini_handler numberIsFalsy file_log dynamic norm
                        generate_image GEMINI_MODEL w file req))
  /\ appended w (fst (process_document_handler processDocument env w file))
  /\ appended w (fst (processor_control numberIsFalsy client env w req))
  /\ appended w (fst (upload_error_handler w err)).
Proof.
  split; [|split; [|split; [|split]]].
  - unfold prompt_handler. cbv zeta.
    destruct (negb (ToBoolean numberIsFalsy (field req (js "text"))));
      [cbn [fst]; apply appended_log, appended_refl|].
    assert (Htry : forall g w',
      appended w w' ->
      appended w
        (fst (let (w4, r) :=
                prompt_try prompt_head prompt_tail cannotConvert cleaning g
                  w' (field req (js "text")) in
              (w4, Answered r)))).
    { intros g w' Hw'.
      pose proof (appended_prompt_try cleaning g w w'
                    (field req (js "text")) Hw') as H.
      now destruct (prompt_try _ _ _ _ _ _ _). }
    destruct dynamic.
    + destruct (getGenerativeModel _) as [e|m];
        [cbn [fst]; apply appended_log, appended_refl|].
      destruct (template _ _ _ _) as [e|line];
        [cbn [fst]; apply appended_log, appended_refl|].
      apply Htry. apply appended_log, appended_log, appended_log,
        appended_refl.
    + apply Htry. apply appended_log, appended_log, appended_refl.
  - unfold api_gemini_handler. cbv zeta.
    destruct file as [f|]; [|apply appended_refl].
    destruct (generate_image _ f) as [e|rawText].
    + cbn [fst]. apply appended_log, appended_log, appended_log_model,
        appended_log, appended_refl.
    + apply appended_image_step, appended_log, appended_log_model,
        appended_log, appended_refl.
  - unfold process_document_handler.
    destruct file as [f|]; [|apply appended_refl].
    destruct (negb (jsstring_eqb (mimetype f) (js "application/pdf")));
      [apply appended_refl|].
    destruct (processDocument _ f) as [e|d]; cbn [fst];
      [apply appended_log|]; apply appended_refl.
  - unfold processor_control. cbv zeta.
    destruct (_ || _); [apply appended_refl|].
    destruct (is_string (field req (js "action")) (js "disable"));
      cbn [fst snd].
    + destruct (disableProcessor client (processor_name env)) as [e|[e|r]];
        cbn [fst]; repeat apply appended_log; apply appended_refl.
    + destruct (enableProcessor client (processor_name env)) as [e|[e|r]];
        cbn [fst]; repeat apply appended_log; apply appended_refl.
  - unfold upload_error_handler.
    destruct (_ && _); [cbn [fst]; apply appended_log, appended_refl|].
    destruct (includes _ _); cbn [fst];
      [apply appended_log|]; apply appended_refl.
Qed.

End RequestFacts.
End Runtime.

(* ================================================================== *)
(** ** Evaluation on concrete texts *)

#[local] Abbreviation normalize_ :=
  (normalize literal_number literal_parseNumber literal_numberToString
     literal_isFinite literal_syntaxErrorMessage).
#[local] Abbreviation JSON_parse_ :=
  (JSON_parse literal_number literal_parseNumber literal_syntaxErrorMessage).
#[local] Abbreviation JStr_ := (JStr literal_number).
#[local] Abbreviation JNull_ := (JNull literal_number).

(** The example of the specification. *)
Example normalize_skills :
  normalize_ (jsq "{'Name': 'Ali', 'Skills': ['Cooking','Cleaning']}")
    [js "Name"; js "Skills"; js "Age"]
  = Normalized literal_number
      [(js "Name", JStr_ (js "Ali"));
       (js "Skills", JStr_ (jsq "['Cooking','Cleaning']"));
       (js "Age", JNull_)].
Proof. vm_compute. reflexivity. Qed.

Example normalize_not_json :
  normalize_ (js "Name: Ali") [js "Name"]
  = MalformedOutput literal_number (js "Unexpected token N") (js "Name: Ali").
Proof. vm_compute. reflexivity. Qed.

Example normalize_array :
  normalize_ (js "[1,2,3]") [js "Name"]
  = MalformedOutput literal_number
      (js "Response is not a valid flat JSON object") (js "[1,2,3]").
Proof. vm_compute. reflexivity. Qed.

#[local] Abbreviation api_gemini_ :=
  (api_gemini literal_number literal_parseNumber literal_numberToString
     literal_isFinite literal_syntaxErrorMessage).
#[local] Abbreviation JObj_ := (JObj literal_number).
#[local] Abbreviation JArr_ := (JArr literal_number).

(** The keys of the result on the example of the specification, with an
    extra key in the parsed object. *)
Lemma normalize_keys_are_schema_witness :
  normalize_ (jsq "{'Name': 'Ali', 'Skills': ['Cooking'], 'zz': 4}")
    [js "Name"; js "Skills"; js "Age"]
  = Normalized literal_number
      [(js "Name", JStr_ (js "Ali"));
       (js "Skills", JStr_ (jsq "['Cooking']"));
       (js "Age", JNull_)]
  /\ (forall k,
      In k (obj_keys [(js "Name", JStr_ (js "Ali"));
                      (js "Skills", JStr_ (jsq "['Cooking']"));
                      (js "Age", JNull_)])
      <-> In k [js "Name"; js "Skills"; js "Age"]).
Proof.
  split; [vm_compute; reflexivity|].
  apply (normalize_keys_are_schema literal_number literal_parseNumber
           literal_numberToString literal_isFinite literal_syntaxErrorMessage
           (jsq "{'Name': 'Ali', 'Skills': ['Cooking'], 'zz': 4}")).
  vm_compute. reflexivity.
Defined.

(** The round trip of the specification fails on a value that contains a
    fence marker: the marker is removed from inside the string. *)
Lemma stringify_round_trip_counterexample :
  ~ stringify_round_trip_spec literal_number literal_parseNumber
      literal_numberToString literal_isFinite literal_syntaxErrorMessage.
Proof.
  intros H.
  destruct (H [js "Name"] [(js "Name", js "a```b")]) as [text [r [Ht [Hn Hr]]]].
  - repeat constructor. simpl. tauto.
  - intros k [<-|[]]. now left.
  - injection Ht as <-.
    specialize (Hr (js "Name") (or_introl eq_refl)).
    vm_compute in Hn. injection Hn as <-.
    vm_compute in Hr. discriminate.
Qed.

(** What the code answers there. *)
Example backticks_in_value :
  normalize_ (jsq "{'Name':'a```b'}") [js "Name"]
  = Normalized literal_number [(js "Name", JStr_ (js "ab"))].
Proof. vm_compute. reflexivity. Qed.

Lemma normalize_string_object_witness :
  exists text r,
    serialize literal_number literal_numberToString literal_isFinite
      (JObj_ (string_object literal_number [(js "Name", js "Ali")]))
    = Some text
    /\ normalize_ text [js "Name"; js "Age"] = Normalized literal_number r
    /\ forall f, In f [js "Name"; js "Age"] ->
       obj_get r f
       = Some match obj_get
                      (string_object literal_number [(js "Name", js "Ali")]) f
              with
              | Some v => v
              | None => JNull_
              end.
Proof.
  apply (normalize_string_object literal_number literal_parseNumber
           literal_numberToString literal_isFinite literal_syntaxErrorMessage
           [js "Name"; js "Age"] [(js "Name", js "Ali")]).
  - repeat constructor. simpl. tauto.
  - intros k s [[= <- <-]|[]]. split; reflexivity.
Defined.

(** A fence with another language tag is not removed: the text is then not
    parseable, although it normalises without the fence. *)
Lemma any_fence_counterexample :
  ~ any_fence_spec literal_number literal_parseNumber
      literal_numberToString literal_isFinite literal_syntaxErrorMessage.
Proof.
  intros H.
  specialize (H [js "Name"] (js "javascript") (jsq "{'Name':'Ali'}")
                [(js "Name", JStr_ (js "Ali"))]).
  vm_compute in H. specialize (H eq_refl). discriminate.
Qed.

Example fence_with_other_tag :
  normalize_ (fenced_with (js "javascript") (jsq "{'Name':'Ali'}"))
    [js "Name"]
  = MalformedOutput literal_number (js "Unexpected token j")
      (js "javascript" ++ NEWLINE :: jsq "{'Name':'Ali'}").
Proof. vm_compute. reflexivity. Qed.

#[local] Abbreviation serialize_ :=
  (serialize literal_number literal_numberToString literal_isFinite).
#[local] Abbreviation String__ :=
  (String_ literal_number literal_numberToString).
#[local] Abbreviation parse_flat_ :=
  (parse_flat literal_number literal_parseNumber literal_numberToString
     literal_isFinite literal_syntaxErrorMessage).
#[local] Abbreviation production :=
  (Build_World literal_number (Some (js "production")) []).
#[local] Abbreviation development_ :=
  (Build_World literal_number (Some (js "development")) []).

(** The coercion on a text with a nested array that holds an object, a
    number, a boolean and [null]: the texts stored, and the nested value
    read back from its text. *)
Lemma values_are_coerced_witness :
  JSON_parse_
    (clean (jsq "{'Name': 'Ali', 'Skills': ['Cooking', {'years': 2}], 'age': 31, 'ok': true, 'none': null}"))
  = inr (JObj_ [(js "Name", JStr_ (js "Ali"));
                (js "Skills",
                 JArr_ [JStr_ (js "Cooking");
                        JObj_ [(js "years", JNum literal_number (js "2"))]]);
                (js "age", JNum literal_number (js "31"));
                (js "ok", JBool literal_number true);
                (js "none", JNull_)])
  /\ exists r,
       normalize_
         (jsq "{'Name': 'Ali', 'Skills': ['Cooking', {'years': 2}], 'age': 31, 'ok': true, 'none': null}")
         [js "Skills"; js "age"; js "ok"; js "none"]
       = Normalized literal_number r
       /\ obj_get r (js "Skills")
          = Some (JStr_ (jsq "['Cooking',{'years':2}]"))
       /\ JSON_parse_ (jsq "['Cooking',{'years':2}]")
          = inr (JArr_ [JStr_ (js "Cooking");
                        JObj_ [(js "years", JNum literal_number (js "2"))]])
       /\ obj_get r (js "age") = Some (JStr_ (js "31"))
       /\ obj_get r (js "ok") = Some (JStr_ (js "true"))
       /\ obj_get r (js "none") = Some (JStr_ (js "null")).
Proof.
  assert (H :
    JSON_parse_
      (clean (jsq "{'Name': 'Ali', 'Skills': ['Cooking', {'years': 2}], 'age': 31, 'ok': true, 'none': null}"))
    = inr (JObj_ [(js "Name", JStr_ (js "Ali"));
                  (js "Skills",
                   JArr_ [JStr_ (js "Cooking");
                          JObj_ [(js "years",
                                  JNum literal_number (js "2"))]]);
                  (js "age", JNum literal_number (js "31"));
                  (js "ok", JBool literal_number true);
                  (js "none", JNull_)]))
    by (vm_compute; reflexivity).
  split; [exact H|].
  destruct (values_are_coerced literal_number literal_parseNumber
              literal_numberToString literal_isFinite
              literal_syntaxErrorMessage _ _
              [js "Skills"; js "age"; js "ok"; js "none"] H)
    as [_ [r [Hr [Hc _]]]].
  exists r. split; [exact Hr|].
  pose proof (Hc (js "Skills") _ (or_introl eq_refl) eq_refl) as Hskills.
  pose proof (Hc (js "age") _ (or_intror (or_introl eq_refl)) eq_refl)
    as Hage.
  pose proof (Hc (js "ok") _
                (or_intror (or_intror (or_introl eq_refl))) eq_refl) as Hok.
  pose proof (Hc (js "none") _
                (or_intror (or_intror (or_intror (or_introl eq_refl))))
                eq_refl) as Hnone.
  cbn [coerced] in Hskills. destruct Hskills as [t [Hs [Hser Hback]]].
  vm_compute in Hser. injection Hser as <-.
  split; [exact Hs|]. split; [|split; [exact Hage|split; [exact Hok|exact Hnone]]].
  apply Hback. vm_compute. repeat split.
Defined.

Example coerced_values :
  normalize_ (jsq "{'Name': 'Ali', 'Skills': ['Cooking'], 'age': 31, 'ok': true}")
    [js "Skills"; js "age"; js "ok"]
  = Normalized literal_number
      [(js "Skills", JStr_ (jsq "['Cooking']"));
       (js "age", JStr_ (js "31"));
       (js "ok", JStr_ (js "true"))].
Proof. vm_compute. reflexivity. Qed.

(** A [null] of the text and an absent field. *)
Lemma json_null_becomes_text_witness :
  JSON_parse_ (clean (jsq "{'Name': null}"))
  = inr (JObj_ [(js "Name", JNull_)])
  /\ exists jsonResponse r,
       parse_flat_ (clean (jsq "{'Name': null}")) = Returned _ jsonResponse
       /\ normalize_ (jsq "{'Name': null}") [js "Name"; js "Age"]
          = Normalized literal_number r
       /\ obj_get r (js "Name") = Some (JStr_ (js "null"))
       /\ obj_get r (js "Age") = Some JNull_.
Proof.
  assert (H : JSON_parse_ (clean (jsq "{'Name': null}"))
              = inr (JObj_ [(js "Name", JNull_)]))
    by (vm_compute; reflexivity).
  split; [exact H|].
  destruct (json_null_becomes_text literal_number literal_parseNumber
              literal_numberToString literal_isFinite
              literal_syntaxErrorMessage _ _ [js "Name"; js "Age"] H)
    as [jsonResponse [r [Hp [Hn [_ [Hnull Habsent]]]]]].
  exists jsonResponse, r. repeat split; try assumption.
  - apply Hnull; [now left | reflexivity].
  - apply Habsent. split; [right; now left | reflexivity].
Defined.

Example null_and_absent :
  normalize_ (jsq "{'Name': null}") [js "Name"; js "Age"]
  = Normalized literal_number
      [(js "Name", JStr_ (js "null")); (js "Age", JNull_)].
Proof. vm_compute. reflexivity. Qed.

(** Two texts that are not JSON, in production. *)
Lemma diagnostics_are_gated_witness :
  normalize_ (js "Name: Ali") [js "Name"]
  = MalformedOutput literal_number (js "Unexpected token N") (js "Name: Ali")
  /\ (snd (api_gemini_ [js "Name"] production (js "secret"))
      = snd (api_gemini_ [js "Name"] production (js "Name: Ali"))
      /\ sent _ literal_numberToString literal_isFinite
           (snd (api_gemini_ [js "Name"] production (js "secret")))
         = sent _ literal_numberToString literal_isFinite
             (snd (api_gemini_ [js "Name"] production (js "Name: Ali")))).
Proof.
  assert (H : normalize_ (js "Name: Ali") [js "Name"]
              = MalformedOutput literal_number (js "Unexpected token N")
                  (js "Name: Ali"))
    by (vm_compute; reflexivity).
  split; [exact H|].
  destruct (diagnostics_are_gated literal_number literal_parseNumber
              literal_numberToString literal_isFinite
              literal_syntaxErrorMessage [js "Name"] production _ _ _ H)
    as [_ [_ Hprod]].
  apply (Hprod eq_refl production (js "secret") (js "Unexpected token s")
           (js "secret")); vm_compute; reflexivity.
Defined.

(** The answers in the two modes. *)
Example error_body_in_production :
  sent _ literal_numberToString literal_isFinite
    (snd (api_gemini_ [js "Name"] production (js "Name: Ali")))
  = Some (jsq "{'error':'" ++ parse_failure ++ jsq "'}").
Proof. vm_compute. reflexivity. Qed.

Example error_body_in_development :
  sent _ literal_numberToString literal_isFinite
    (snd (api_gemini_ [js "Name"] development_ (js "Name: Ali")))
  = Some (jsq "{'error':'" ++ parse_failure
          ++ jsq "','details':'Unexpected token N','rawResponse':'Name: Ali'}").
Proof. vm_compute. reflexivity. Qed.

(** The [/prompt] handler of [server.js] parses the raw text as it is: a
    fenced answer, which the later versions of the handler accept, is
    answered with status 500. *)
Example prompt_server_js_fenced :
  status _
    (snd (prompt_server_js literal_number literal_parseNumber
            literal_numberToString literal_isFinite
            literal_syntaxErrorMessage production
            (fenced (jsq "{'Name':'Ali'}"))))
  = 500
  /\ snd (prompt literal_number literal_parseNumber literal_numberToString
            literal_isFinite literal_syntaxErrorMessage production
            (fenced (jsq "{'Name':'Ali'}")))
     = {| status := 200;
          body := JObj_ [(js "jsonResponse",
                          JObj_ [(js "Name", JStr_ (js "Ali"))])] |}.
Proof. split; vm_compute; reflexivity. Qed.

(** A fence without a tag is removed, but around a text that carries a
    fence itself it leaves the tag of the inner fence in the text. *)
Example bare_fence :
  normalize_ (fenced_with [] (jsq "{'Name':'Ali'}")) [js "Name"]
  = Normalized literal_number [(js "Name", JStr_ (js "Ali"))]
  /\ normalize_ (fenced (jsq "{'Name':'Ali'}")) [js "Name"]
     = Normalized literal_number [(js "Name", JStr_ (js "Ali"))]
  /\ normalize_ (fenced_with [] (fenced (jsq "{'Name':'Ali'}"))) [js "Name"]
     = MalformedOutput literal_number (js "Unexpected token j")
         (js "json" ++ NEWLINE :: jsq "{'Name':'Ali'}").
Proof. repeat split; vm_compute; reflexivity. Qed.

(** The replacement is not idempotent on every text: removing a match can
    bring three backticks together. *)
Example replace_fences_twice :
  replace_fences (js "`" ++ NEWLINE :: js "`````") = js "```"
  /\ replace_fences (replace_fences (js "`" ++ NEWLINE :: js "`````")) = [].
Proof. split; vm_compute; reflexivity. Qed.

(* ================================================================== *)
(** ** The entities of [/process-document] *)

Lemma jsstring_eqb_sym (a b : jsstring) :
  jsstring_eqb a b = jsstring_eqb b a.
Proof.
  destruct (jsstring_eqb_spec a b) as [->|H].
  - now rewrite jsstring_eqb_refl.
  - symmetry. apply jsstring_eqb_neq. congruence.
Qed.

Lemma mentions_of_snoc (key : jsstring) (es : list entity) (e : entity) :
  mentions_of key (es ++ [e])
  = mentions_of key es
    ++ (if jsstring_eqb (type e) key then [mention_or_empty e] else []).
Proof.
  unfold mentions_of. rewrite filter_app, map_app. simpl.
  now destruct (jsstring_eqb (type e) key).
Qed.

(** C10.  On a document whose first entity of a type has an empty mention
    text, the loop does not make the array: the second mention overwrites
    the first, where the aggregation gives the array of the two. *)
Theorem empty_mention_is_overwritten :
  extracted_entities
    (process_document
       {| text := None;
          entities := Some [ {| type := js "t"; mentionText := Some [] |};
                             {| type := js "t";
                                mentionText := Some (js "x") |} ] |})
  = [(js "t", Text (js "x"))]
  /\ aggregated (js "t")
       [ {| type := js "t"; mentionText := Some [] |};
         {| type := js "t"; mentionText := Some (js "x") |} ]
     = Some (Texts [[]; js "x"]).
Proof. split; vm_compute; reflexivity. Qed.

(** The endpoint does answer arrays: a type that occurs twice. *)
Example repeated_type :
  extracted_entities
    (process_document
       {| text := Some (js "a b");
          entities := Some [ {| type := js "t"; mentionText := Some (js "a") |};
                             {| type := js "u"; mentionText := None |};
                             {| type := js "t";
                                mentionText := Some (js "b") |} ] |})
  = [(js "t", Texts [js "a"; js "b"]); (js "u", Text [])].
Proof. vm_compute. reflexivity. Qed.

(* ================================================================== *)
(** ** The entities of [/process-document], on every document *)

Lemma drop_empty_snoc (ms : list jsstring) (v : jsstring) :
  drop_empty (ms ++ [v])
  = match drop_empty ms with
    | [] => drop_empty [v]
    | items => items ++ [v]
    end.
Proof.
  induction ms as [|m ms IH]; [reflexivity|].
  destruct m as [|c m]; [exact IH | reflexivity].
Qed.

Lemma drop_empty_head (ms : list jsstring) :
  match drop_empty ms with
  | [] :: _ => False
  | _ => True
  end.
Proof.
  induction ms as [|m ms IH]; [exact I|].
  destruct m as [|c m]; [exact IH | exact I].
Qed.

Lemma mentions_of_nil (key : jsstring) (es : list entity) :
  mentions_of key es = [] <-> ~ exists e, In e es /\ type e = key.
Proof.
  unfold mentions_of. split.
  - intros H [e [He Hk]].
    assert (Hin : In (mention_or_empty e)
                    (map mention_or_empty
                       (filter (fun x => jsstring_eqb (type x) key) es))).
    { apply in_map. apply filter_In. split; [assumption|].
      subst key. apply jsstring_eqb_refl. }
    rewrite H in Hin. contradiction.
  - intros H.
    destruct (filter (fun x => jsstring_eqb (type x) key) es) as [|x l] eqn:E;
      [reflexivity|].
    exfalso. apply H. exists x.
    assert (Hx : In x (filter (fun x => jsstring_eqb (type x) key) es))
      by (rewrite E; now left).
    apply filter_In in Hx. destruct Hx as [Hx Hk]. split; [assumption|].
    now destruct (jsstring_eqb_spec (type x) key).
Qed.

Lemma obj_keys_read {V : Type} (o : jsobj V) (k : jsstring) :
  In k (obj_keys o) <-> obj_get o k <> None.
Proof.
  unfold obj_keys. induction o as [|[k0 v0] o IH]; simpl.
  - split; [intros [] | intros H; now contradiction H].
  - destruct (jsstring_eqb_spec k0 k) as [->|Hk].
    + split; [discriminate | now left].
    + rewrite <- IH. split; [intros [H|H]; [contradiction | exact H]|].
      intros H. now right.
Qed.

Lemma is_name_spec (names : list jsstring) (key : jsstring) :
  is_name names key = true <-> In key names.
Proof.
  unfold is_name. rewrite existsb_exists. split.
  - intros [x [Hx He]]. destruct (jsstring_eqb_spec key x); [|discriminate].
    now subst.
  - intros H. exists key. split; [assumption | apply jsstring_eqb_refl].
Qed.

(* ------------------------------------------------------------------ *)
(** *** Documents without an entity of type [__proto__] *)

(** While [Object.prototype] is the prototype, a read finds an own property
    or a function of [Object.prototype]. *)
Lemma entities_get_plain (o : entities_object) (key : jsstring) :
  prototype o = None -> key <> js "__proto__" ->
  entities_get o key
  = match obj_get (own o) key with
    | Some v => Found v
    | None =>
      if is_name Object_prototype_names key then Other BuiltinFunction
      else Missing
    end.
Proof.
  intros Hp Hk. unfold entities_get. rewrite Hp.
  rewrite (jsstring_eqb_neq _ _ Hk). reflexivity.
Qed.

(** What one iteration stores. *)
Lemma add_entity_plain (o : entities_object) (e : entity) (key : jsstring) :
  prototype o = None -> type e <> js "__proto__" ->
  prototype (add_entity o e) = None
  /\ obj_get (own (add_entity o e)) key
     = if jsstring_eqb (type e) key
       then Some (stored (type e) (obj_get (own o) (type e))
                    (mention_or_empty e))
       else obj_get (own o) key.
Proof.
  intros Hp Hk. unfold add_entity. cbv zeta.
  rewrite (entities_get_plain o (type e) Hp Hk).
  unfold entities_push, entities_set, stored.
  rewrite (jsstring_eqb_neq _ _ Hk).
  destruct (obj_get (own o) (type e)) as [[[|c s]|items|first rest]|] eqn:E;
    [| | | |destruct (is_name Object_prototype_names (type e))];
    cbn [truthy own prototype push];
    rewrite ?obj_get_set, ?jsstring_eqb_refl, ?E; cbn [own prototype push];
    rewrite ?obj_get_set;
    (split; [assumption|]);
    destruct (jsstring_eqb (type e) key); reflexivity.
Qed.

Lemma entities_kept (es : list entity) :
  Forall (fun e => type e <> js "__proto__") es ->
  prototype (fold_left add_entity es no_entities) = None
  /\ forall key,
     obj_get (own (fold_left add_entity es no_entities)) key
     = kept key (mentions_of key es).
Proof.
  induction es as [|e es IH] using rev_ind; intros Hes.
  - split; [reflexivity|]. intros key. unfold kept.
    cbn [fold_left no_entities own obj_get mentions_of filter map settled].
    now destruct (is_name Object_prototype_names key).
  - apply Forall_app in Hes. destruct Hes as [Hes He].
    apply Forall_inv in He. destruct (IH Hes) as [Hp Hget].
    rewrite fold_left_app. cbn [fold_left].
    split; [exact (proj1 (add_entity_plain _ e (type e) Hp He))|].
    intros key.
    rewrite (proj2 (add_entity_plain _ e key Hp He)), mentions_of_snoc.
    destruct (jsstring_eqb_spec (type e) key) as [<-|Hk];
      [|rewrite app_nil_r; apply Hget].
    rewrite Hget. unfold kept, stored.
    destruct (is_name Object_prototype_names (type e)).
    + destruct (mentions_of (type e) es) as [|m ms]; reflexivity.
    + unfold settled.
      rewrite (drop_empty_snoc (mentions_of (type e) es)).
      pose proof (drop_empty_head (mentions_of (type e) es)) as Hh.
      destruct (mentions_of (type e) es) as [|m ms] eqn:Em.
      * cbn [app drop_empty]. now destruct (mention_or_empty e).
      * cbn [app].
        destruct (drop_empty (m :: ms)) as [|s [|s' items]].
        -- cbn [drop_empty]. now destruct (mention_or_empty e).
        -- destruct s as [|c s]; [contradiction | reflexivity].
        -- reflexivity.
Qed.

(** When every mention text is non-empty and no type names a member of
    [Object.prototype], the loop computes the aggregation: a string for a
    type that occurs once, the array of the texts in document order for a
    type that occurs several times. *)
Lemma entities_aggregated (es : list entity) :
  (forall e, In e es ->
     mention_or_empty e <> [] /\ ~ In (type e) Object_prototype_names) ->
  forall key,
    obj_get (own (fold_left add_entity es no_entities)) key
    = aggregated key es.
Proof.
  intros Hes key.
  assert (Hproto : Forall (fun e => type e <> js "__proto__") es).
  { apply Forall_forall. intros e He Hk. apply (proj2 (Hes e He)).
    rewrite Hk. vm_compute. tauto. }
  rewrite (proj2 (entities_kept es Hproto)). unfold kept, aggregated.
  assert (Hall : forall s, In s (mentions_of key es) -> s <> []).
  { intros s Hs. unfold mentions_of in Hs. apply in_map_iff in Hs.
    destruct Hs as [x [<- Hx]]. apply filter_In in Hx.
    apply (proj1 (Hes x (proj1 Hx))). }
  destruct (is_name Object_prototype_names key) eqn:En.
  - apply is_name_spec in En.
    destruct (mentions_of key es) as [|m ms] eqn:Em; [reflexivity|].
    exfalso.
    assert (Hx : exists e, In e es /\ type e = key).
    { destruct (in_dec (list_eq_dec N.eq_dec) key (map type es)) as [Hin|Hout].
      - apply in_map_iff in Hin. destruct Hin as [e [Hk He]]. eauto.
      - exfalso. assert (Hn : mentions_of key es = []); [|congruence].
        apply mentions_of_nil. intros [e [He Hk]]. apply Hout. subst key.
        now apply in_map. }
    destruct Hx as [e [He Hk]]. apply (proj2 (Hes e He)). now rewrite Hk.
  - unfold settled.
    destruct (mentions_of key es) as [|[|c s] [|s' items]]; try reflexivity;
      exfalso; apply (Hall []); try (now left); reflexivity.
Qed.

(** X1.  On a document in which no entity has the type [__proto__], the
    value that the loop leaves for a type that does not name a member of
    [Object.prototype] is decided by the mention texts of that type alone:
    the empty texts before the first non-empty one are lost, and what
    remains is answered as a string when it is one text and as the array of
    the texts, in document order, when there are several. *)
Theorem entities_settled (es : list entity) (key : jsstring) :
  Forall (fun e => type e <> js "__proto__") es ->
  ~ In key Object_prototype_names ->
  obj_get (own (fold_left add_entity es no_entities)) key
  = settled (mentions_of key es).
Proof.
  intros Hes Hkey. rewrite (proj2 (entities_kept es Hes)). unfold kept.
  destruct (is_name Object_prototype_names key) eqn:En; [|reflexivity].
  apply is_name_spec in En. contradiction.
Qed.

(* ------------------------------------------------------------------ *)
(** *** Every document *)

Lemma element_found (a : entity_value) (i : nat) (v : entity_value) :
  element a i = Found v -> exists s, v = Text s.
Proof.
  destruct a as [s|items|first rest]; cbn [element].
  - discriminate.
  - destruct (nth_error items i); [|discriminate]. intros [= <-]. eauto.
  - destruct i as [|j]; [discriminate|].
    destruct (nth_error rest j); [|discriminate]. intros [= <-]. eauto.
Qed.

(** A read of a name that is not an own property and not [__proto__] gives
    no array. *)
Lemma entities_get_inherited (o : entities_object) (key : jsstring) :
  obj_get (own o) key = None -> key <> js "__proto__" ->
  entities_get o key = Missing
  \/ (exists s, entities_get o key = Found (Text s))
  \/ exists first, entities_get o key = Other first.
Proof.
  intros Hown Hk. unfold entities_get. rewrite Hown.
  rewrite (jsstring_eqb_neq _ _ Hk). cbv zeta.
  assert (Hm : (if is_name Object_prototype_names key
                then Other BuiltinFunction else Missing) = Missing
               \/ (exists s, (if is_name Object_prototype_names key
                              then Other BuiltinFunction else Missing)
                             = Found (Text s))
               \/ exists first,
                    (if is_name Object_prototype_names key
                     then Other BuiltinFunction else Missing) = Other first).
  { destruct (is_name Object_prototype_names key); eauto. }
  destruct (prototype o) as [a|]; [|exact Hm].
  destruct (array_index key) as [i|].
  - destruct (element a (N.to_nat i)) as [|v|first] eqn:El; [exact Hm| |eauto].
    destruct (element_found _ _ _ El) as [s ->]. eauto.
  - destruct (jsstring_eqb key (js "length")); [eauto|].
    destruct (is_name Array_prototype_names key); eauto.
Qed.

(** One iteration writes the own property of the type of the entity and
    no other, and none for the type [__proto__]. *)
Lemma add_entity_keys (o : entities_object) (e : entity) (key : jsstring) :
  obj_get (own o) (js "__proto__") = None ->
  (obj_get (own (add_entity o e)) key <> None
   <-> obj_get (own o) key <> None
       \/ (type e = key /\ key <> js "__proto__")).
Proof.
  intros Hnone. unfold add_entity. cbv zeta.
  destruct (jsstring_eqb_spec (type e) (js "__proto__")) as [Hp|Hp].
  - assert (Hsame : forall v,
      own (entities_set o (type e) v) = own o).
    { intros v. unfold entities_set. rewrite Hp, jsstring_eqb_refl.
      now destruct v. }
    assert (Hpush : forall o', own o' = own o ->
      own (entities_push o' (type e) (mention_or_empty e)) = own o).
    { intros o' Ho'. unfold entities_push. rewrite Ho', Hp, Hnone.
      rewrite jsstring_eqb_refl. reflexivity. }
    assert (Hown : own (if truthy (entities_get o (type e))
                        then entities_push
                               match entities_get o (type e) with
                               | Found (Text s) =>
                                 entities_set o (type e) (Texts [s])
                               | Other first =>
                                 entities_set o (type e) (Wrapped first [])
                               | _ => o
                               end (type e) (mention_or_empty e)
                        else entities_set o (type e)
                               (Text (mention_or_empty e)))
                   = own o).
    { destruct (truthy (entities_get o (type e))); [|apply Hsame].
      apply Hpush.
      destruct (entities_get o (type e)) as [|[s|items|first rest]|first];
        try reflexivity; apply Hsame. }
    rewrite Hown. split; [now left|].
    intros [H|[H1 H2]]; [exact H|]. congruence.
  - assert (Hset : forall o' v k,
      obj_get (own (entities_set o' (type e) v)) k
      = if jsstring_eqb (type e) k then Some v else obj_get (own o') k).
    { intros o' v k. unfold entities_set.
      rewrite (jsstring_eqb_neq _ _ Hp). cbn [own]. apply obj_get_set. }
    assert (Hpush : forall o' a k,
      obj_get (own o') (type e) = Some a ->
      obj_get (own (entities_push o' (type e) (mention_or_empty e))) k
      = if jsstring_eqb (type e) k
        then Some (push a (mention_or_empty e))
        else obj_get (own o') k).
    { intros o' a k Ha. unfold entities_push. rewrite Ha. cbn [own].
      apply obj_get_set. }
    assert (Hgoal : forall v,
      obj_get (own (add_entity o e)) key
      = (if jsstring_eqb (type e) key then Some v else obj_get (own o) key) ->
      (obj_get (own (add_entity o e)) key <> None
       <-> obj_get (own o) key <> None
           \/ (type e = key /\ key <> js "__proto__"))).
    { intros v Hv. rewrite Hv.
      destruct (jsstring_eqb_spec (type e) key) as [<-|Hk].
      - split; [intros _; right; now split | discriminate].
      - split; [now left|]. intros [H|[H _]]; [exact H | contradiction]. }
    unfold add_entity in Hgoal. cbv zeta in Hgoal.
    destruct (obj_get (own o) (type e)) as [v|] eqn:Eown.
    + assert (Hg : entities_get o (type e) = Found v).
      { unfold entities_get. now rewrite Eown. }
      rewrite Hg in *.
      destruct v as [[|c s]|items|first rest]; cbn [truthy] in *.
      * eapply Hgoal. apply Hset.
      * eapply Hgoal.
        rewrite (Hpush _ (Texts [c :: s]) key)
          by (rewrite Hset, jsstring_eqb_refl; reflexivity).
        rewrite Hset. destruct (jsstring_eqb (type e) key); reflexivity.
      * eapply Hgoal. apply (Hpush _ _ key Eown).
      * eapply Hgoal. apply (Hpush _ _ key Eown).
    + destruct (entities_get_inherited o (type e) Eown Hp)
        as [Hg|[[s Hg]|[first Hg]]]; rewrite Hg in *.
      * cbn [truthy] in *. eapply Hgoal. apply Hset.
      * destruct s as [|c s]; cbn [truthy] in *.
        -- eapply Hgoal. apply Hset.
        -- eapply Hgoal.
           rewrite (Hpush _ (Texts [c :: s]) key)
             by (rewrite Hset, jsstring_eqb_refl; reflexivity).
           rewrite Hset. destruct (jsstring_eqb (type e) key); reflexivity.
      * destruct (truthy (Other first)).
        -- eapply Hgoal.
           rewrite (Hpush _ (Wrapped first []) key)
             by (rewrite Hset, jsstring_eqb_refl; reflexivity).
           rewrite Hset. destruct (jsstring_eqb (type e) key); reflexivity.
        -- eapply Hgoal. apply Hset.
Qed.

Lemma entities_keys (es : list entity) (key : jsstring) :
  obj_get (own (fold_left add_entity es no_entities)) (js "__proto__") = None
  /\ (obj_get (own (fold_left add_entity es no_entities)) key <> None
      <-> key <> js "__proto__" /\ exists e, In e es /\ type e = key).
Proof.
  revert key.
  assert (H : forall key,
    obj_get (own (fold_left add_entity es no_entities)) key <> None
    <-> key <> js "__proto__" /\ exists e, In e es /\ type e = key).
  { induction es as [|e es IH] using rev_ind; intros key.
    - cbn. split; [intros H; now contradiction H|].
      intros [_ [e [[] _]]].
    - assert (Hnone : obj_get (own (fold_left add_entity es no_entities))
                        (js "__proto__") = None).
      { destruct (obj_get (own (fold_left add_entity es no_entities))
                    (js "__proto__")) eqn:E; [|reflexivity].
        exfalso. assert (Hx : Some e0 <> None) by discriminate.
        rewrite <- E in Hx. apply IH in Hx. now apply (proj1 Hx). }
      rewrite fold_left_app. cbn [fold_left].
      rewrite (add_entity_keys _ e key Hnone), IH. split.
      + intros [[Hk [x [Hx Ht]]]|[Ht Hk]].
        * split; [assumption|]. exists x. split; [|assumption].
          apply in_or_app. now left.
        * split; [assumption|]. exists e. split; [|assumption].
          apply in_or_app. right. now left.
      + intros [Hk [x [Hx Ht]]]. apply in_app_or in Hx.
        destruct Hx as [Hx|[<-|[]]]; [left | right]; eauto. }
  intros key. split; [|apply H].
  destruct (obj_get (own (fold_left add_entity es no_entities))
              (js "__proto__")) eqn:E; [|reflexivity].
  exfalso. assert (Hx : Some e <> None) by discriminate.
  rewrite <- E in Hx. apply H in Hx. now apply (proj1 Hx).
Qed.

Lemma entities_settled_witness :
  Forall (fun e => type e <> js "__proto__")
    [ {| type := js "t"; mentionText := Some [] |};
      {| type := js "constructor"; mentionText := Some (js "c") |};
      {| type := js "t"; mentionText := Some (js "a") |};
      {| type := js "t"; mentionText := None |} ]
  /\ ~ In (js "t") Object_prototype_names
  /\ obj_get
       (own (fold_left add_entity
               [ {| type := js "t"; mentionText := Some [] |};
                 {| type := js "constructor"; mentionText := Some (js "c") |};
                 {| type := js "t"; mentionText := Some (js "a") |};
                 {| type := js "t"; mentionText := None |} ] no_entities))
       (js "t")
     = Some (Texts [js "a"; []]).
Proof.
  assert (Hes : Forall (fun e => type e <> js "__proto__")
    [ {| type := js "t"; mentionText := Some [] |};
      {| type := js "constructor"; mentionText := Some (js "c") |};
      {| type := js "t"; mentionText := Some (js "a") |};
      {| type := js "t"; mentionText := None |} ])
    by (repeat constructor; vm_compute; discriminate).
  assert (Hkey : ~ In (js "t") Object_prototype_names)
    by (vm_compute; intuition discriminate).
  split; [exact Hes|]. split; [exact Hkey|].
  rewrite (entities_settled _ (js "t") Hes Hkey).
  vm_compute. reflexivity.
Defined.

(** X2.  The keys of the answered [entities] object are exactly the types
    of the entities of the document other than [__proto__]: every such
    type gets a key, also when its mention text is missing or empty or
    when it names an inherited property, and no other key appears. *)
Theorem entities_keys_are_types (t : option jsstring) (es : list entity)
  (key : jsstring) :
  In key (obj_keys (extracted_entities
                      (process_document {| text := t; entities := Some es |})))
  <-> key <> js "__proto__" /\ exists e, In e es /\ type e = key.
Proof.
  cbn [process_document extracted_entities entities].
  rewrite obj_keys_read. apply (proj2 (entities_keys es key)).
Qed.

(** X3.  On a document in which no entity has the type [__proto__], an
    array of texts in the answered [entities] object holds at least two
    texts and its first text is not empty: it is the mention texts of the
    type from the first non-empty one on, in document order. *)
Theorem entities_array_shape (es : list entity) (key : jsstring)
  (items : list jsstring) :
  Forall (fun e => type e <> js "__proto__") es ->
  obj_get (own (fold_left add_entity es no_entities)) key
  = Some (Texts items) ->
  items = drop_empty (mentions_of key es)
  /\ (2 <= List.length items)%nat
  /\ exists c s rest, items = (c :: s) :: rest.
Proof.
  intros Hes. rewrite (proj2 (entities_kept es Hes)). unfold kept.
  destruct (is_name Object_prototype_names key).
  { destruct (mentions_of key es); discriminate. }
  unfold settled.
  pose proof (drop_empty_head (mentions_of key es)) as Hh.
  destruct (mentions_of key es) as [|m ms]; [discriminate|].
  destruct (drop_empty (m :: ms)) as [|s [|s' l]]; try discriminate.
  intros [= <-]. split; [reflexivity|]. split; [simpl; lia|].
  destruct s as [|c s]; [contradiction | eauto].
Qed.

Lemma entities_array_shape_witness :
  Forall (fun e => type e <> js "__proto__")
    [ {| type := js "t"; mentionText := Some [] |};
      {| type := js "t"; mentionText := Some (js "a") |};
      {| type := js "u"; mentionText := Some (js "z") |};
      {| type := js "t"; mentionText := None |} ]
  /\ obj_get
       (own (fold_left add_entity
               [ {| type := js "t"; mentionText := Some [] |};
                 {| type := js "t"; mentionText := Some (js "a") |};
                 {| type := js "u"; mentionText := Some (js "z") |};
                 {| type := js "t"; mentionText := None |} ] no_entities))
       (js "t")
     = Some (Texts [js "a"; []])
  /\ (2 <= List.length [js "a"; []])%nat.
Proof.
  assert (Hes : Forall (fun e => type e <> js "__proto__")
    [ {| type := js "t"; mentionText := Some [] |};
      {| type := js "t"; mentionText := Some (js "a") |};
      {| type := js "u"; mentionText := Some (js "z") |};
      {| type := js "t"; mentionText := None |} ])
    by (repeat constructor; vm_compute; discriminate).
  split; [exact Hes|]. split; [vm_compute; reflexivity|].
  apply (entities_array_shape
           [ {| type := js "t"; mentionText := Some [] |};
             {| type := js "t"; mentionText := Some (js "a") |};
             {| type := js "u"; mentionText := Some (js "z") |};
             {| type := js "t"; mentionText := None |} ]
           (js "t") [js "a"; []] Hes).
  vm_compute. reflexivity.
Defined.

(** X5.  On a document in which no entity has the type [__proto__], a type
    that names a member of [Object.prototype] (as [constructor] or
    [toString]) is answered as an array whose first element is the
    inherited function, which [JSON.stringify] writes as [null], followed
    by every mention text of the type, the empty ones too, in document
    order: the test of the loop finds the inherited function where it
    looks for an earlier mention. *)
Theorem inherited_type_is_wrapped (es : list entity) (key : jsstring) :
  Forall (fun e => type e <> js "__proto__") es ->
  In key Object_prototype_names ->
  obj_get (own (fold_left add_entity es no_entities)) key
  = match mentions_of key es with
    | [] => None
    | m :: ms => Some (Wrapped BuiltinFunction (m :: ms))
    end.
Proof.
  intros Hes Hkey. rewrite (proj2 (entities_kept es Hes)). unfold kept.
  apply is_name_spec in Hkey. rewrite Hkey.
  now destruct (mentions_of key es).
Qed.

Lemma inherited_type_is_wrapped_witness :
  Forall (fun e => type e <> js "__proto__")
    [ {| type := js "constructor"; mentionText := Some [] |};
      {| type := js "t"; mentionText := Some (js "a") |};
      {| type := js "constructor"; mentionText := Some (js "x") |} ]
  /\ In (js "constructor") Object_prototype_names
  /\ obj_get
       (own (fold_left add_entity
               [ {| type := js "constructor"; mentionText := Some [] |};
                 {| type := js "t"; mentionText := Some (js "a") |};
                 {| type := js "constructor"; mentionText := Some (js "x") |} ]
               no_entities))
       (js "constructor")
     = Some (Wrapped BuiltinFunction [[]; js "x"]).
Proof.
  assert (Hes : Forall (fun e => type e <> js "__proto__")
    [ {| type := js "constructor"; mentionText := Some [] |};
      {| type := js "t"; mentionText := Some (js "a") |};
      {| type := js "constructor"; mentionText := Some (js "x") |} ])
    by (repeat constructor; vm_compute; discriminate).
  assert (Hkey : In (js "constructor") Object_prototype_names)
    by (vm_compute; tauto).
  split; [exact Hes|]. split; [exact Hkey|].
  rewrite (inherited_type_is_wrapped _ (js "constructor") Hes Hkey).
  vm_compute. reflexivity.
Defined.



(* ================================================================== *)
(** ** What the cleaning does to a text *)

Lemma subseq_refl (s : jsstring) : subseq s s.
Proof. induction s; constructor; assumption. Qed.

Lemma subseq_app_l (pre a b : jsstring) :
  subseq a b -> subseq a (pre ++ b).
Proof. intros H. induction pre; simpl; [assumption | now constructor]. Qed.

Lemma subseq_app_r (a post : jsstring) : subseq a (a ++ post).
Proof.
  induction a as [|c a IH]; simpl.
  - induction post; constructor; assumption.
  - now constructor.
Qed.

Lemma subseq_trans (a b c : jsstring) :
  subseq a b -> subseq b c -> subseq a c.
Proof.
  intros Hab Hbc. revert a Hab.
  induction Hbc as [|x b c Hbc IH|x b c Hbc IH]; intros a Hab.
  - assumption.
  - inversion Hab; subst.
    + constructor. now apply IH.
    + apply subseq_drop. now apply IH.
  - apply subseq_drop. now apply IH.
Qed.

Lemma subseq_length (a b : jsstring) :
  subseq a b -> (List.length a <= List.length b)%nat.
Proof. induction 1; simpl; lia. Qed.

Lemma replace_fences_from_subseq (s : jsstring) :
  forall skip, subseq (replace_fences_from skip s) s.
Proof.
  induction s as [|c r IH]; intros skip; [constructor|].
  cbn [replace_fences_from]. destruct skip as [|k].
  - destruct (fence_match_length (c :: r)); [apply subseq_keep|apply subseq_drop];
      apply IH.
  - apply subseq_drop, IH.
Qed.

Lemma trim_start_split (s : jsstring) :
  exists pre, s = pre ++ trim_start s
              /\ Forall (fun c => is_js_space c = true) pre.
Proof.
  induction s as [|c r [pre [E Hpre]]].
  - exists []. split; [reflexivity | constructor].
  - simpl. destruct (is_js_space c) eqn:Ec.
    + exists (c :: pre). split; [simpl; now f_equal | now constructor].
    + exists []. split; [reflexivity | constructor].
Qed.

Lemma trim_end_split (s : jsstring) :
  exists post, s = trim_end s ++ post
               /\ Forall (fun c => is_js_space c = true) post.
Proof.
  unfold trim_end. destruct (trim_start_split (rev s)) as [pre [E Hpre]].
  exists (rev pre). split.
  - rewrite <- rev_app_distr, <- E. now rewrite rev_involutive.
  - apply Forall_rev. exact Hpre.
Qed.

Lemma trim_start_head (s : jsstring) (c : N) (r : jsstring) :
  trim_start s = c :: r -> is_js_space c = false.
Proof.
  induction s as [|x s IH]; simpl; [discriminate|].
  destruct (is_js_space x) eqn:Ex; [exact IH|].
  intros [= <- _]. exact Ex.
Qed.

Lemma trim_end_last (s r : jsstring) (c : N) :
  trim_end s = r ++ [c] -> is_js_space c = false.
Proof.
  unfold trim_end. intros H.
  apply (f_equal (@rev N)) in H. rewrite rev_involutive, rev_unit in H.
  now apply trim_start_head in H.
Qed.

(** X10.  The cleaning only removes code units: the cleaned text is the
    raw text with some code units left out, in the same order, and is never
    longer than the raw text. *)
Theorem clean_only_removes (rawText : jsstring) :
  subseq (clean rawText) rawText
  /\ (List.length (clean rawText) <= List.length rawText)%nat.
Proof.
  assert (H : subseq (clean rawText) rawText).
  { unfold clean, trim.
    destruct (trim_start_split (replace_fences rawText)) as [pre [E _]].
    destruct (trim_end_split (trim_start (replace_fences rawText)))
      as [post [E' _]].
    apply subseq_trans with (b := replace_fences rawText);
      [|apply replace_fences_from_subseq].
    rewrite E at 2. apply subseq_app_l.
    rewrite E' at 2. apply subseq_app_r. }
  split; [exact H | now apply subseq_length].
Qed.

(** X11.  The cleaned text is the text after the replacement without the
    white space around it: what is cut on both sides is white space only,
    the cleaned text neither starts nor ends with a white space, and
    trimming it again changes nothing. *)
Theorem clean_is_trimmed (rawText : jsstring) :
  (exists pre post,
     replace_fences rawText = pre ++ clean rawText ++ post
     /\ Forall (fun c => is_js_space c = true) pre
     /\ Forall (fun c => is_js_space c = true) post)
  /\ (forall c r, clean rawText = c :: r -> is_js_space c = false)
  /\ (forall c r, clean rawText = r ++ [c] -> is_js_space c = false)
  /\ trim (clean rawText) = clean rawText.
Proof.
  unfold clean, trim.
  destruct (trim_start_split (replace_fences rawText)) as [pre [E Hpre]].
  destruct (trim_end_split (trim_start (replace_fences rawText)))
    as [post [E' Hpost]].
  set (R := replace_fences rawText) in *.
  set (Y := trim_end (trim_start R)) in *.
  assert (Hhead : forall c r, Y = c :: r -> is_js_space c = false).
  { intros c r Hy. apply (trim_start_head R c (r ++ post)).
    rewrite E', Hy. reflexivity. }
  assert (Hlast : forall c r, Y = r ++ [c] -> is_js_space c = false).
  { intros c r Hy. now apply (trim_end_last (trim_start R) r c). }
  split; [|split; [|split]]; try assumption.
  - exists pre, post. split; [|split; assumption].
    rewrite <- E'. exact E.
  - assert (Hs : trim_start Y = Y).
    { destruct Y as [|c r] eqn:Ey; [reflexivity|].
      simpl. now rewrite (Hhead c r eq_refl). }
    rewrite Hs. unfold trim_end at 1.
    destruct (rev Y) as [|c r] eqn:Er.
    + apply (f_equal (@rev N)) in Er. rewrite rev_involutive in Er.
      rewrite Er. reflexivity.
    + assert (Hy : Y = rev r ++ [c]).
      { apply (f_equal (@rev N)) in Er. now rewrite rev_involutive in Er. }
      simpl trim_start. rewrite (Hlast c (rev r) Hy).
      simpl. now rewrite <- Hy.
Qed.

(* ================================================================== *)
(** ** The keys of the result, on the schema of the handler *)

(** The keys answered by [/api/gemini] are [allowedKeys], in that order,
    for a text that gives them in another order and with a key more. *)
Lemma normalize_keys_in_order_witness :
  exists r,
    normalize_ (jsq "{'age': 31, 'zz': 1, 'Name': 'Ali'}") allowedKeys
    = Normalized literal_number r
    /\ obj_keys r = allowedKeys.
Proof.
  eexists. split; [vm_compute; reflexivity|].
  apply (normalize_keys_in_order literal_number literal_parseNumber
           literal_numberToString literal_isFinite literal_syntaxErrorMessage
           (jsq "{'age': 31, 'zz': 1, 'Name': 'Ali'}") allowedKeys).
  - vm_compute. reflexivity.
  - exact allowedKeys_distinct.
  - exact allowedKeys_no_index.
Defined.

#[local] Abbreviation normalize_open_ :=
  (normalize_open literal_number literal_parseNumber literal_numberToString
     literal_isFinite literal_syntaxErrorMessage).

(** A text with keys that no prompt names. *)
Lemma open_keys_are_parsed_keys_witness :
  normalize_open_ (jsq "{'zz': [1], 'full_name': 'Ali'}")
  = Normalized literal_number
      [(js "zz", JStr_ (js "[1]")); (js "full_name", JStr_ (js "Ali"))]
  /\ exists o,
       JSON_parse_ (clean (jsq "{'zz': [1], 'full_name': 'Ali'}"))
       = inr (JObj_ o)
       /\ forall k,
          In k (obj_keys [(js "zz", JStr_ (js "[1]"));
                          (js "full_name", JStr_ (js "Ali"))])
          <-> In k (obj_keys o).
Proof.
  assert (H : normalize_open_ (jsq "{'zz': [1], 'full_name': 'Ali'}")
              = Normalized literal_number
                  [(js "zz", JStr_ (js "[1]"));
                   (js "full_name", JStr_ (js "Ali"))])
    by (vm_compute; reflexivity).
  split; [exact H|].
  destruct (open_keys_are_parsed_keys literal_number literal_parseNumber
              literal_numberToString literal_isFinite
              literal_syntaxErrorMessage _ _ H) as [o [Ho [Hk _]]].
  exists o. split; assumption.
Defined.

(* ================================================================== *)
(** ** The handlers on concrete requests *)

#[local] Abbreviation prompt_handler_ :=
  (prompt_handler literal_number literal_parseNumber literal_numberToString
     literal_isFinite literal_syntaxErrorMessage literal_numberIsFalsy
     (js "Extract: ") (js " as JSON") (jsval literal_number)
     (sample_cannotConvert literal_number)).
#[local] Abbreviation api_gemini_handler_ :=
  (api_gemini_handler literal_number literal_numberToString
     literal_numberIsFalsy (fun f => originalname f)).
#[local] Abbreviation sent_ :=
  (sent literal_number literal_numberToString literal_isFinite).
#[local] Abbreviation error_response_ := (error_response literal_number).
#[local] Abbreviation answers_text_ := (answers_text literal_number).
#[local] Abbreviation fails_with_ := (fails_with literal_number).

(** In production, a text that the model answers with prose is answered
    with the fixed parse-failure text. *)
Lemma prompt_handler_production_witness :
  development literal_number production = false
  /\ snd (prompt_handler_ true clean (JStr_ default_model)
            (model_named literal_number) (answers_text_ (js "Name: Ali"))
            None production (JObj_ [(js "text", JStr_ (js "Ali"))]))
     = Answered literal_number
         (malformed_prompt_response literal_number production
            (js "Unexpected token N"))
  /\ status literal_number
       (malformed_prompt_response literal_number production
          (js "Unexpected token N")) <> 200
  /\ (sent_ (malformed_prompt_response literal_number production
               (js "Unexpected token N"))
      = sent_ (error_response_ 400 no_text)
      \/ sent_ (malformed_prompt_response literal_number production
                  (js "Unexpected token N"))
         = sent_ (error_response_ 500 text_internal_error)
      \/ sent_ (malformed_prompt_response literal_number production
                  (js "Unexpected token N"))
         = sent_ (error_response_ 500 parse_failure)).
Proof.
  assert (Hd : development literal_number production = false)
    by (vm_compute; reflexivity).
  assert (Hr : snd (prompt_handler_ true clean (JStr_ default_model)
                      (model_named literal_number)
                      (answers_text_ (js "Name: Ali")) None production
                      (JObj_ [(js "text", JStr_ (js "Ali"))]))
               = Answered literal_number
                   (malformed_prompt_response literal_number production
                      (js "Unexpected token N")))
    by (vm_compute; reflexivity).
  assert (Hs : status literal_number
                 (malformed_prompt_response literal_number production
                    (js "Unexpected token N")) <> 200)
    by (vm_compute; discriminate).
  split; [exact Hd|]. split; [exact Hr|]. split; [exact Hs|].
  exact (prompt_handler_production literal_number literal_parseNumber
           literal_numberToString literal_isFinite literal_syntaxErrorMessage
           literal_numberIsFalsy (js "Extract: ") (js " as JSON")
           (jsval literal_number) (sample_cannotConvert literal_number)
           true clean (JStr_ default_model) (model_named literal_number)
           (answers_text_ (js "Name: Ali")) None production
           (JObj_ [(js "text", JStr_ (js "Ali"))])
           (malformed_prompt_response literal_number production
              (js "Unexpected token N")) Hd Hr Hs).
Defined.

(** A text that is an object with a property [toString]: the template
    literal throws inside the [try] block, in every version. *)
Example text_without_string :
  snd (prompt_handler_ false (fun t => t) (JStr_ default_model)
         (model_named literal_number) (answers_text_ (js "{}")) None
         production
         (JObj_ [(js "text",
                  JObj_ [(js "toString", JNum literal_number (js "1"))])]))
  = Answered literal_number
      (internal_error_response literal_number text_internal_error production
         (sample_cannotConvert literal_number)).
Proof. vm_compute. reflexivity. Qed.

(** A model that is such an object: the later versions throw before the
    [try] block, and no response is sent. *)
Example model_without_string :
  prompt_handler_ true clean (JStr_ default_model)
    (model_named literal_number) (answers_text_ (js "{}")) None production
    (JObj_ [(js "text", JStr_ (js "hi"));
            (js "model",
             JObj_ [(js "toString", JNum literal_number (js "1"))])])
  = (Build_World literal_number (Some (js "production"))
       [[JStr_ (js "tex"); JStr_ (js "hi")]],
     Rejected literal_number (sample_cannotConvert literal_number)).
Proof. vm_compute. reflexivity. Qed.

(** An answer with the keys in another order, a key more and a number. *)
Lemma api_gemini_handler_contract_witness :
  status literal_number
    (snd (api_gemini_handler_ true (fun t => normalize_ t allowedKeys)
            (answers_text_ (jsq "{'age': 31, 'zz': 1, 'Name': 'Ali'}")) None
            production (Some passport_png) (JObj_ []))) = 200
  /\ exists r,
       body literal_number
         (snd (api_gemini_handler_ true (fun t => normalize_ t allowedKeys)
                 (answers_text_ (jsq "{'age': 31, 'zz': 1, 'Name': 'Ali'}"))
                 None production (Some passport_png) (JObj_ [])))
       = JObj_ [(js "jsonResponse", JObj_ r)]
       /\ obj_keys r = allowedKeys.
Proof.
  assert (Hs : status literal_number
                 (snd (api_gemini_handler_ true
                         (fun t => normalize_ t allowedKeys)
                         (answers_text_
                            (jsq "{'age': 31, 'zz': 1, 'Name': 'Ali'}"))
                         None production (Some passport_png) (JObj_ [])))
               = 200)
    by (vm_compute; reflexivity).
  split; [exact Hs|].
  destruct (api_gemini_handler_contract literal_number literal_parseNumber
              literal_numberToString literal_isFinite
              literal_syntaxErrorMessage literal_numberIsFalsy
              (fun f => originalname f) true
              (answers_text_ (jsq "{'age': 31, 'zz': 1, 'Name': 'Ali'}")) None
              production (Some passport_png) (JObj_ []) Hs)
    as [r [Hb [Hk _]]].
  exists r. split; assumption.
Defined.

(** In production, a failure of the model is answered with the fixed text
    of the internal error. *)
Lemma api_gemini_handler_production_witness :
  development literal_number production = false
  /\ status literal_number
       (snd (api_gemini_handler_ false (fun t => normalize_open_ t)
               (fails_with_ (js "quota exceeded")) None production
               (Some passport_png) (JObj_ []))) <> 200
  /\ (sent_ (snd (api_gemini_handler_ false (fun t => normalize_open_ t)
                    (fails_with_ (js "quota exceeded")) None production
                    (Some passport_png) (JObj_ [])))
       = sent_ (error_response_ 400 no_file)
       \/ sent_ (snd (api_gemini_handler_ false (fun t => normalize_open_ t)
                        (fails_with_ (js "quota exceeded")) None production
                        (Some passport_png) (JObj_ [])))
          = sent_ (error_response_ 500 image_internal_error)
       \/ sent_ (snd (api_gemini_handler_ false (fun t => normalize_open_ t)
                        (fails_with_ (js "quota exceeded")) None production
                        (Some passport_png) (JObj_ [])))
          = sent_ (error_response_ 500 parse_failure)).
Proof.
  assert (Hd : development literal_number production = false)
    by (vm_compute; reflexivity).
  assert (Hs : status literal_number
                 (snd (api_gemini_handler_ false (fun t => normalize_open_ t)
                         (fails_with_ (js "quota exceeded")) None production
                         (Some passport_png) (JObj_ []))) <> 200)
    by (vm_compute; discriminate).
  split; [exact Hd|]. split; [exact Hs|].
  exact (api_gemini_handler_production literal_number literal_numberToString
           literal_isFinite literal_numberIsFalsy (fun f => originalname f)
           false (fun t => normalize_open_ t)
           (fails_with_ (js "quota exceeded")) None production
           (Some passport_png) (JObj_ []) Hd Hs).
Defined.

(** A type that names a member of [Object.prototype]: the array that is
    answered starts with [null], the inherited function. *)
Example constructor_entity_is_sent :
  sent_
    (snd (process_document_handler literal_number literal_parseNumber
            (finds literal_number
               [ {| type := js "constructor";
                    mentionText := Some (js "x") |} ])
            {| GCP_PROJECT_ID := None; GCP_LOCATION := None;
               GCP_PROCESSOR_ID := None |}
            production (Some contract_pdf)))
  = Some (jsq "{'text':'','entities':{'constructor':[null,'x']}}").
Proof. vm_compute. reflexivity. Qed.

(** An entity of type [__proto__] is not answered, and the entities after
    it are read through the array that it made the prototype: the type [1]
    finds the text of the entity before it, the type [length] the length of
    the array. *)
Example proto_entity_is_not_sent :
  sent_
    (snd (process_document_handler literal_number literal_parseNumber
            (finds literal_number
               [ {| type := js "__proto__"; mentionText := Some (js "x") |};
                 {| type := js "1"; mentionText := Some (js "y") |};
                 {| type := js "length"; mentionText := Some (js "z") |} ])
            {| GCP_PROJECT_ID := None; GCP_LOCATION := None;
               GCP_PROCESSOR_ID := None |}
            production (Some contract_pdf)))
  = Some (jsq "{'text':'','entities':{'1':['x','y'],'length':[2,'z']}}").
Proof. vm_compute. reflexivity. Qed.

(** An error raised by other code, with the marker inside its message. *)
Lemma marked_error_is_echoed_witness :
  is_MulterError literal_number (marked_enoent literal_number) = false
  /\ message literal_number (marked_enoent literal_number)
     = js "ENOENT: " ++ js "الرجاء تحميل ملف صورة" ++ js " /srv/uploads"
  /\ exists resp,
       snd (upload_error_handler literal_number production
              (marked_enoent literal_number))
       = Some resp
       /\ status literal_number resp = 400
       /\ field literal_number (body literal_number resp) (js "error")
          = JStr_ (message literal_number (marked_enoent literal_number)).
Proof.
  assert (Hm : is_MulterError literal_number (marked_enoent literal_number)
               = false) by reflexivity.
  assert (Hmsg : message literal_number (marked_enoent literal_number)
                 = js "ENOENT: " ++ js "الرجاء تحميل ملف صورة"
                   ++ js " /srv/uploads") by (vm_compute; reflexivity).
  split; [exact Hm|]. split; [exact Hmsg|].
  exact (marked_error_is_echoed literal_number production
           (marked_enoent literal_number) (js "ENOENT: ")
           (js " /srv/uploads") Hm Hmsg).
Defined.
